(** * pytential: the QBX layer potential source and its dispatch layer

    A shallow embedding of the configuration, memoisation and dispatch logic
    of [pytential/qbx/__init__.py], of the kernel digest of the fmmlib
    wrangler in [pytential/qbx/fmmlib.py] and of the constructor of
    [pytential/unregularized.py].  Further parts embed the execution paths
    of the unregularized source with its FMM geometry data, the cost
    modelling entry point of the QBX source and, of the fmmlib wrangler,
    the evaluation of the QBX expansions, the interaction lists for the
    QBX local expansions and the translation of box locals.

    Python values are embedded as follows.
    - [None] is [None] of an [option]; the private sentinel class
      [_not_provided] is the constructor [not_provided] of [arg].
    - Python integers are [Z]; floats that the code only stores or multiplies
      by a power of ten are rationals [Q] (the one product the code forms,
      [eps * 1e3], is exact in binary floating point since [eps] is a power
      of two).
    - objects compared with [is] carry an identity ([discr_id], [geo_id]).
    - arrays are lists; an integer index or a slice bound that is negative
      counts from the end, as in numpy ([np_position], [py_slice]).
    - a raised exception is the left summand of [result]; code that mutates
      the source (the memoisation dictionary) or calls out to a collaborator
      runs in the state-and-exception monad [M]. *)

From stdpp Require Import base numbers list strings gmap.
From Stdlib Require Import QArith Sorted.

Local Open Scope string_scope.
Local Open Scope list_scope.
Local Open Scope Z_scope.

(** ** Exceptions and results *)

Inductive exn : Type :=
  | ValueError (msg : string)
  | TypeError (msg : string)
  | RuntimeError (msg : string)
  | NotImplementedError (msg : string)
  | AssertionError
  | KeyError
  | IndexError
  | ExternalError (msg : string).

Definition result (A : Type) : Type := exn + A.

Definition is_error {A} (r : result A) : Prop :=
  match r with inl _ => True | inr _ => False end.

Definition rbind {A B} (r : result A) (k : A -> result B) : result B :=
  match r with
  | inl e => inl e
  | inr a => k a
  end.

(** ** Python argument conventions *)

(** A keyword argument whose default is the sentinel [_not_provided]. *)
Inductive arg (A : Type) : Type :=
  | not_provided
  | provided (a : A).
Arguments not_provided {A}.
Arguments provided {A} a.

(** [x if x is not _not_provided else y] *)
Definition if_provided {A} (x : arg A) (y : A) : A :=
  match x with
  | provided a => a
  | not_provided => y
  end.

(** [x if x is not None else y] *)
Definition if_not_None {A} (x : option A) (y : A) : A :=
  match x with
  | Some a => a
  | None => y
  end.

(** Truth value testing, as used by [x or y]. *)
Class Truthy (A : Type) := truthy : A -> bool.

#[global] Instance Z_truthy : Truthy Z := fun z => negb (z =? 0).
#[global] Instance bool_truthy : Truthy bool := fun b => b.
#[global] Instance string_truthy : Truthy string :=
  fun s => match s with EmptyString => false | String _ _ => true end.
#[global] Instance option_truthy {A} `{Truthy A} : Truthy (option A) :=
  fun o => match o with Some a => truthy a | None => false end.

(** [x or y] *)
Definition py_or {A} `{Truthy A} (x y : A) : A :=
  if truthy x then x else y.

(** [x or y] where [x] defaults to [None] and [y] is known not to be [None]. *)
Definition or_attr {A} `{Truthy A} (x : option A) (y : A) : A :=
  match x with
  | Some a => if truthy a then a else y
  | None => y
  end.

(** ** Discretizations and collaborating objects *)

Inductive dtype : Type := float32 | float64 | complex64 | complex128.

(** [np.finfo(dtype).eps]; for a complex type, that of its real part. *)
Definition finfo_eps (t : dtype) : Q :=
  match t with
  | float32 | complex64 => 1 # (2 ^ 23)
  | float64 | complex128 => 1 # (2 ^ 52)
  end.

#[global] Instance dtype_eq_dec : EqDecision dtype.
Proof. solve_decision. Defined.

#[global] Instance dtype_countable : Countable dtype :=
  inj_countable'
    (fun t => match t with
              | float32 => 0%nat | float64 => 1%nat
              | complex64 => 2%nat | complex128 => 3%nat
              end)
    (fun n => match n with
              | O => float32 | 1%nat => float64
              | 2%nat => complex64 | _ => complex128
              end)
    (fun t => match t with
              | float32 | float64 | complex64 | complex128 => eq_refl
              end).

Record Discretization : Type := {
  discr_id : nat;
  ambient_dim : Z;
  dim : Z;
  real_dtype : dtype;
  nnodes : Z
}.

#[global] Instance Discretization_truthy : Truthy Discretization := fun _ => true.

#[global] Instance Discretization_eq_dec : EqDecision Discretization.
Proof. solve_decision. Defined.

#[global] Instance Discretization_countable : Countable Discretization :=
  inj_countable'
    (fun d => (discr_id d, ambient_dim d, dim d, real_dtype d, nnodes d))
    (fun t => match t with
              | (i, a, b, r, n) =>
                  {| discr_id := i; ambient_dim := a; dim := b;
                     real_dtype := r; nnodes := n |}
              end)
    (fun d => match d with Build_Discretization _ _ _ _ _ => eq_refl end).

(** [a is b] on discretizations: a discretization is its identity together
    with its (immutable) attributes. *)
Definition discr_is (a b : Discretization) : bool := bool_decide (a = b).

Record Connection : Type := {
  conn_id : nat;
  to_discr : Discretization
}.

#[global] Instance Connection_truthy : Truthy Connection := fun _ => true.

Inductive ExpansionFactory : Type :=
  | DefaultExpansionFactory
  | UserExpansionFactory (tag : nat).

#[global] Instance ExpansionFactory_truthy : Truthy ExpansionFactory := fun _ => true.

Inductive CostModelT : Type :=
  | CostModel
  | UserCostModel (tag : nat).

(** ** Kernels ([sumpy.kernel]) *)

Inductive Kernel : Type :=
  | HelmholtzKernel (kdim : Z) (helmholtz_k_name : string)
  | LaplaceKernel (kdim : Z)
  | OtherKernel (kname : string) (kdim : Z)
  | AxisTargetDerivative (axis : Z) (inner_kernel : Kernel)
  | DirectionalSourceDerivative (inner_kernel : Kernel) (dir_vec_name : string).

(** ** Instructions *)

(** [None], or a Python integer: -2, -1, 0 (average), +1, +2. *)
Abbreviation forced_limit := (option Z) (only parsing).

Record Output : Type := {
  name : string;
  target_name : string;
  qbx_forced_limit : forced_limit;
  kernel_index : nat
}.

Record Instruction : Type := {
  outputs : list Output;
  kernels : list Kernel
}.

(** ** Geometry data *)

(** The argument of [qbx_fmm_geometry_data]: a tuple of
    [(discr, qbx_forced_limit)] pairs.  Tuples hash and compare
    element-wise, and discretizations by identity. *)
Abbreviation target_discrs_and_sides := (list (Discretization * Z)) (only parsing).

(** A [QBXFMMGeometryData] object: the arguments it was constructed with and
    its identity. *)
Record QBXFMMGeometryData : Type := {
  geo_id : nat;
  geo_target_discrs_and_qbx_sides : target_discrs_and_sides;
  geo_target_association_tolerance : option Q;
  geo_tree_kind : option string;
  geo_debug : bool
}.

(** ** Orders *)

(** The [fmm_order] argument: [None], [False] (direct evaluation) or a fixed
    order. *)
Inductive FmmOrder : Type :=
  | OrderNone
  | OrderFalse
  | OrderInt (n : Z).

(** The [fmm_level_to_order] attribute: [False], the closure
    [lambda kernel, kernel_args, tree, level: fmm_order] defined by the
    constructors, or a callable supplied by the user. *)
Inductive LevelToOrder : Type :=
  | LtoFalse
  | LtoFixed (fmm_order : FmmOrder)
  | LtoCallable (f : Kernel -> Z -> Z).

#[global] Instance LevelToOrder_truthy : Truthy LevelToOrder :=
  fun l => match l with LtoFalse => false | _ => true end.

(** ** Bound expressions *)

(** What [bound_expr.places.get_geometry] returns: a layer potential source
    (an instance of [LayerPotentialSourceBase], of which only the density
    discretization is read) or a target discretization. *)
Inductive Geometry : Type :=
  | LayerPotentialSource (lpot_density_discr : Discretization)
  | TargetGeometry (d : Discretization).

Record BoundExpression : Type := {
  places_get_geometry : string -> Geometry;
  get_discretization : string -> Discretization
}.

(** The [geometry_data_inspector] hook, called as
    [inspector(insn, bound_expr, geo_data)]. *)
Definition Inspector : Type :=
  Instruction -> BoundExpression -> QBXFMMGeometryData -> bool.

#[global] Instance Inspector_truthy : Truthy Inspector := fun _ => true.

(** ** The QBX layer potential source: constructor and copy *)

Module QBX.

(** The attributes set by [QBXLayerPotentialSource.__init__]. *)
Record QBXLayerPotentialSource : Type := {
  density_discr : Discretization;
  fine_order : Z;
  qbx_order : Z;
  fmm_level_to_order : LevelToOrder;
  target_association_tolerance : option Q;
  fmm_backend : string;
  use_fft : bool;
  _to_refined_connection : option Connection;
  expansion_factory : ExpansionFactory;
  debug : bool;
  _refined_for_global_qbx : bool;
  _expansions_in_tree_have_extent : bool;
  _expansion_stick_out_factor : Q;
  _well_sep_is_n_away : Z;
  _max_leaf_refine_weight : Z;
  _box_extent_norm : string;
  _from_sep_smaller_crit : string;
  _from_sep_smaller_min_nsources_cumul : Z;
  _tree_kind : option string;
  _use_target_specific_qbx : option bool;
  geometry_data_inspector : option Inspector;
  cost_model : option CostModelT
}.

(** The keyword arguments of [__init__]. *)
Record init_args : Type := {
  i_density_discr : Discretization;
  i_fine_order : option Z;
  i_qbx_order : option Z;
  i_fmm_order : FmmOrder;
  i_fmm_level_to_order : option LevelToOrder;
  i_to_refined_connection : option Connection;
  i_expansion_factory : option ExpansionFactory;
  i_target_association_tolerance : arg (option Q);
  i_debug : bool;
  i_refined_for_global_qbx : bool;
  i_expansions_in_tree_have_extent : bool;
  i_expansion_stick_out_factor : Q;
  i_well_sep_is_n_away : Z;
  i_max_leaf_refine_weight : option Z;
  i_box_extent_norm : option string;
  i_from_sep_smaller_crit : option string;
  i_from_sep_smaller_min_nsources_cumul : option Z;
  i_tree_kind : option string;
  i_use_target_specific_qbx : option bool;
  i_geometry_data_inspector : option Inspector;
  i_cost_model : option CostModelT;
  i_fmm_backend : string;
  i_use_fft : bool;
  i_target_stick_out_factor : arg (option Q)
}.

(** The defaults of the signature of [__init__]. *)
Definition init_defaults (density_discr : Discretization)
    (fine_order : option Z) : init_args :=
  {| i_density_discr := density_discr;
     i_fine_order := fine_order;
     i_qbx_order := None;
     i_fmm_order := OrderNone;
     i_fmm_level_to_order := None;
     i_to_refined_connection := None;
     i_expansion_factory := None;
     i_target_association_tolerance := not_provided;
     i_debug := true;
     i_refined_for_global_qbx := false;
     i_expansions_in_tree_have_extent := true;
     i_expansion_stick_out_factor := 1 # 2;
     i_well_sep_is_n_away := 2;
     i_max_leaf_refine_weight := None;
     i_box_extent_norm := None;
     i_from_sep_smaller_crit := None;
     i_from_sep_smaller_min_nsources_cumul := None;
     i_tree_kind := Some "adaptive";
     i_use_target_specific_qbx := None;
     i_geometry_data_inspector := None;
     i_cost_model := None;
     i_fmm_backend := "sumpy";
     i_use_fft := false;
     i_target_stick_out_factor := not_provided |}.

Definition both_tolerances_msg : string :=
  "May not pass both target_association_tolerance and target_stick_out_factor.".

Definition both_orders_msg : string :=
  "may not specify both fmm_order and fmm_level_to_order".

(** The deprecated alias, as processed by [__init__]: the alias wins when it
    is given, and giving both is an error. *)
Definition init_tolerance_arg (tolerance stick_out : arg (option Q))
    : result (arg (option Q)) :=
  match stick_out with
  | provided f =>
      match tolerance with
      | provided _ => inl (TypeError both_tolerances_msg)
      | not_provided => inr (provided f)
      end
  | not_provided => inr tolerance
  end.

Definition default_max_leaf_refine_weight (d : Discretization) : Z :=
  if ambient_dim d =? 2 then 64
  else if ambient_dim d =? 3 then 512
  else 64.

Definition default_from_sep_smaller_min_nsources_cumul (d : Discretization) : Z :=
  if dim d =? 1 then 15 else 30.

(** [QBXLayerPotentialSource.__init__] *)
Definition __init__ (a : init_args) : result QBXLayerPotentialSource :=
  match i_fine_order a with
  | None => inl (ValueError "fine_order must be provided.")
  | Some fine_order =>
  match i_qbx_order a with
  | None => inl (ValueError "qbx_order must be provided.")
  | Some qbx_order =>
  rbind (init_tolerance_arg (i_target_association_tolerance a)
           (i_target_stick_out_factor a)) (fun tolerance_arg =>
  let target_association_tolerance :=
    match tolerance_arg with
    | not_provided =>
        Some (finfo_eps (real_dtype (i_density_discr a)) * 1000)%Q
    | provided t => t
    end in
  match i_fmm_order a, i_fmm_level_to_order a with
  | (OrderFalse | OrderInt _), Some _ => inl (TypeError both_orders_msg)
  | _, _ =>
  let _box_extent_norm := if_not_None (i_box_extent_norm a) "l2" in
  let _from_sep_smaller_crit :=
    if_not_None (i_from_sep_smaller_crit a) "precise_linf" in
  let fmm_level_to_order :=
    match i_fmm_level_to_order a with
    | None =>
        match i_fmm_order a with
        | OrderFalse => LtoFalse
        | fmm_order => LtoFixed fmm_order
        end
    | Some f => f
    end in
  let _max_leaf_refine_weight :=
    if_not_None (i_max_leaf_refine_weight a)
      (default_max_leaf_refine_weight (i_density_discr a)) in
  let _from_sep_smaller_min_nsources_cumul :=
    if_not_None (i_from_sep_smaller_min_nsources_cumul a)
      (default_from_sep_smaller_min_nsources_cumul (i_density_discr a)) in
  match target_association_tolerance with
  | None => inl AssertionError
  | Some _ =>
  inr {| density_discr := i_density_discr a;
         fine_order := fine_order;
         qbx_order := qbx_order;
         fmm_level_to_order := fmm_level_to_order;
         target_association_tolerance := target_association_tolerance;
         fmm_backend := i_fmm_backend a;
         use_fft := i_use_fft a;
         _to_refined_connection := i_to_refined_connection a;
         expansion_factory :=
           if_not_None (i_expansion_factory a) DefaultExpansionFactory;
         debug := i_debug a;
         _refined_for_global_qbx := i_refined_for_global_qbx a;
         _expansions_in_tree_have_extent := i_expansions_in_tree_have_extent a;
         _expansion_stick_out_factor := i_expansion_stick_out_factor a;
         _well_sep_is_n_away := i_well_sep_is_n_away a;
         _max_leaf_refine_weight := _max_leaf_refine_weight;
         _box_extent_norm := _box_extent_norm;
         _from_sep_smaller_crit := _from_sep_smaller_crit;
         _from_sep_smaller_min_nsources_cumul :=
           _from_sep_smaller_min_nsources_cumul;
         _tree_kind := i_tree_kind a;
         _use_target_specific_qbx := i_use_target_specific_qbx a;
         geometry_data_inspector := i_geometry_data_inspector a;
         cost_model := Some (if_not_None (i_cost_model a) CostModel) |}
  end end) end end.

(** The keyword arguments of [copy]. *)
Record copy_args : Type := {
  c_density_discr : option Discretization;
  c_fine_order : option Z;
  c_qbx_order : option Z;
  c_fmm_order : arg FmmOrder;
  c_fmm_level_to_order : arg (option LevelToOrder);
  c_to_refined_connection : option Connection;
  c_expansion_factory : option ExpansionFactory;
  c_target_association_tolerance : arg (option Q);
  c_expansions_in_tree_have_extent : arg bool;
  c_expansion_stick_out_factor : arg Q;
  c_max_leaf_refine_weight : option Z;
  c_box_extent_norm : option string;
  c_from_sep_smaller_crit : option string;
  c_tree_kind : option string;
  c_use_target_specific_qbx : arg (option bool);
  c_geometry_data_inspector : option Inspector;
  c_cost_model : arg (option CostModelT);
  c_fmm_backend : option string;
  c_use_fft : option bool;
  c_debug : arg bool;
  c_refined_for_global_qbx : arg bool;
  c_target_stick_out_factor : arg (option Q)
}.

(** The defaults of the signature of [copy]: nothing is overridden. *)
Definition copy_defaults : copy_args :=
  {| c_density_discr := None;
     c_fine_order := None;
     c_qbx_order := None;
     c_fmm_order := not_provided;
     c_fmm_level_to_order := not_provided;
     c_to_refined_connection := None;
     c_expansion_factory := None;
     c_target_association_tolerance := not_provided;
     c_expansions_in_tree_have_extent := not_provided;
     c_expansion_stick_out_factor := not_provided;
     c_max_leaf_refine_weight := None;
     c_box_extent_norm := None;
     c_from_sep_smaller_crit := None;
     c_tree_kind := None;
     c_use_target_specific_qbx := not_provided;
     c_geometry_data_inspector := None;
     c_cost_model := not_provided;
     c_fmm_backend := None;
     c_use_fft := None;
     c_debug := not_provided;
     c_refined_for_global_qbx := not_provided;
     c_target_stick_out_factor := not_provided |}.

(** The tolerance that [copy] hands to the constructor. *)
Definition copy_tolerance_arg (self : QBXLayerPotentialSource)
    (tolerance stick_out : arg (option Q)) : result (option Q) :=
  match stick_out with
  | provided f =>
      match tolerance with
      | provided _ => inl (TypeError both_tolerances_msg)
      | not_provided => inr f
      end
  | not_provided =>
      match tolerance with
      | not_provided => inr (target_association_tolerance self)
      | provided t => inr t
      end
  end.

(** The dictionary [kwargs] of [copy], as the pair of the [fmm_order] and
    [fmm_level_to_order] arguments the constructor receives (an absent key
    leaves the constructor's default, [None]). *)
Definition copy_order_kwargs (self : QBXLayerPotentialSource)
    (fmm_order : arg FmmOrder) (fmm_level_to_order : arg (option LevelToOrder))
    : result (FmmOrder * option LevelToOrder) :=
  match fmm_order, fmm_level_to_order with
  | provided _, provided _ => inl (TypeError both_orders_msg)
  | provided o, not_provided => inr (o, None)
  | not_provided, provided f => inr (OrderNone, f)
  | not_provided, not_provided =>
      inr (OrderNone, Some (QBX.fmm_level_to_order self))
  end.

(** [QBXLayerPotentialSource.copy] *)
Definition copy (self : QBXLayerPotentialSource) (c : copy_args)
    : result QBXLayerPotentialSource :=
  rbind (copy_tolerance_arg self (c_target_association_tolerance c)
           (c_target_stick_out_factor c)) (fun target_association_tolerance =>
  rbind (copy_order_kwargs self (c_fmm_order c) (c_fmm_level_to_order c))
    (fun kwargs =>
  __init__
    {| i_density_discr := or_attr (c_density_discr c) (density_discr self);
       i_fine_order := Some (if_not_None (c_fine_order c) (fine_order self));
       i_qbx_order := Some (if_not_None (c_qbx_order c) (qbx_order self));
       i_fmm_order := fst kwargs;
       i_fmm_level_to_order := snd kwargs;
       i_to_refined_connection :=
         py_or (c_to_refined_connection c) (_to_refined_connection self);
       i_expansion_factory :=
         Some (or_attr (c_expansion_factory c) (expansion_factory self));
       i_target_association_tolerance := provided target_association_tolerance;
       i_debug := if_provided (c_debug c) (debug self);
       i_refined_for_global_qbx :=
         if_provided (c_refined_for_global_qbx c) (_refined_for_global_qbx self);
       i_expansions_in_tree_have_extent :=
         if_provided (c_expansions_in_tree_have_extent c)
           (_expansions_in_tree_have_extent self);
       i_expansion_stick_out_factor :=
         if_provided (c_expansion_stick_out_factor c)
           (_expansion_stick_out_factor self);
       i_well_sep_is_n_away := _well_sep_is_n_away self;
       i_max_leaf_refine_weight :=
         Some (or_attr (c_max_leaf_refine_weight c) (_max_leaf_refine_weight self));
       i_box_extent_norm :=
         Some (or_attr (c_box_extent_norm c) (_box_extent_norm self));
       i_from_sep_smaller_crit :=
         Some (or_attr (c_from_sep_smaller_crit c) (_from_sep_smaller_crit self));
       i_from_sep_smaller_min_nsources_cumul :=
         Some (_from_sep_smaller_min_nsources_cumul self);
       i_tree_kind := py_or (c_tree_kind c) (_tree_kind self);
       i_use_target_specific_qbx :=
         if_provided (c_use_target_specific_qbx c) (_use_target_specific_qbx self);
       i_geometry_data_inspector :=
         py_or (c_geometry_data_inspector c) (geometry_data_inspector self);
       i_cost_model := if_provided (c_cost_model c) (cost_model self);
       i_fmm_backend := or_attr (c_fmm_backend c) (fmm_backend self);
       i_use_fft := or_attr (c_use_fft c) (use_fft self);
       i_target_stick_out_factor := not_provided |})).

(** [stage2_density_discr] *)
Definition stage2_density_discr (self : QBXLayerPotentialSource) : Discretization :=
  match _to_refined_connection self with
  | Some c => to_discr c
  | None => density_discr self
  end.

End QBX.

(** ** The unregularized layer potential source: constructor and copy *)

Module Unregularized.

Record UnregularizedLayerPotentialSource : Type := {
  density_discr : Discretization;
  debug : bool;
  fmm_level_to_order : LevelToOrder;
  expansion_factory : ExpansionFactory
}.

(** [UnregularizedLayerPotentialSource.__init__]; the defaults of its
    signature are [fmm_order=False], [fmm_level_to_order=None],
    [expansion_factory=None] and [debug=True]. *)
Definition __init__ (density_discr : Discretization) (fmm_order : FmmOrder)
    (fmm_level_to_order : option LevelToOrder)
    (expansion_factory : option ExpansionFactory) (debug : bool)
    : result UnregularizedLayerPotentialSource :=
  match fmm_order, fmm_level_to_order with
  | (OrderNone | OrderInt _), Some _ => inl (TypeError QBX.both_orders_msg)
  | _, _ =>
      let fmm_level_to_order :=
        match fmm_level_to_order with
        | None =>
            match fmm_order with
            | OrderFalse => LtoFalse
            | fmm_order => LtoFixed fmm_order
            end
        | Some f => f
        end in
      inr {| density_discr := density_discr;
             debug := debug;
             fmm_level_to_order := fmm_level_to_order;
             expansion_factory :=
               if_not_None expansion_factory DefaultExpansionFactory |}
  end.

(** [UnregularizedLayerPotentialSource.copy] *)
Definition copy (self : UnregularizedLayerPotentialSource)
    (density_discr : option Discretization)
    (fmm_level_to_order : option LevelToOrder) (debug : option bool)
    : result UnregularizedLayerPotentialSource :=
  __init__
    (or_attr density_discr (Unregularized.density_discr self))
    OrderFalse
    (Some (or_attr fmm_level_to_order (Unregularized.fmm_level_to_order self)))
    None
    (if_not_None debug (Unregularized.debug self)).

End Unregularized.

(** ** Values, code containers and wranglers *)

(** The types of array entries, of what a driver returns besides the
    potentials (timing data, a cost model result), and of the wrangler of
    the sumpy backend. *)
Class Values : Type := {
  Scalar : Type;
  Extra : Type;
  SumpyWrangler : Type
}.

(** [partial(expn_class, fmm_kernel)], with the class as the expansion
    factory names it. *)
Inductive ExpansionKind : Type := Multipole | Local.

Record ExpansionPartial : Type := {
  expn_factory : ExpansionFactory;
  expn_kind : ExpansionKind;
  expn_kernel : Kernel
}.

Record QBXSumpyExpansionWranglerCodeContainer : Type := {
  sumpy_multipole_expansion_factory : ExpansionPartial;
  sumpy_local_expansion_factory : ExpansionPartial;
  sumpy_qbx_local_expansion_factory : ExpansionPartial;
  sumpy_out_kernels : list Kernel;
  sumpy_use_fft : bool
}.

Record QBXFMMLibExpansionWranglerCodeContainer : Type := {
  multipole_expansion_factory : ExpansionPartial;
  local_expansion_factory : ExpansionPartial;
  qbx_local_expansion_factory : ExpansionPartial;
  out_kernels : list Kernel
}.

Inductive CodeContainer : Type :=
  | SumpyContainer (c : QBXSumpyExpansionWranglerCodeContainer)
  | FMMLibContainer (c : QBXFMMLibExpansionWranglerCodeContainer).

(** The attributes of a [QBXFMMLibExpansionWrangler]; the last five are the
    arguments it hands to the constructor of its base class. *)
Record QBXFMMLibExpansionWrangler `{Values} : Type := {
  w_code : QBXFMMLibExpansionWranglerCodeContainer;
  w_geo_data : QBXFMMGeometryData;
  w_qbx_order : Z;
  w_outputs : list (list Z);
  w_level_orders : list Z;
  w_helmholtz_k : list Scalar;
  w_dipole_vec : option (list Scalar);
  w_dipoles_already_reordered : bool;
  w_nterms : Z;
  w_ifgrad : bool
}.

Inductive Wrangler `{Values} : Type :=
  | WSumpy (w : SumpyWrangler)
  | WFMMLib (w : QBXFMMLibExpansionWrangler).

(** The keyword arguments [get_wrangler_args] of the FMM path. *)
Record get_wrangler_args `{Values} : Type := {
  gw_geo_data : QBXFMMGeometryData;
  gw_dtype : dtype;
  gw_qbx_order : Z;
  gw_fmm_level_to_order : LevelToOrder;
  gw_source_extra_kwargs : gmap string (list Scalar);
  gw_kernel_extra_kwargs : gmap string (list Scalar);
  gw_use_target_specific_qbx : option bool;
  (** present only for the sumpy backend *)
  gw_use_fft : option bool
}.

(** An [fmm_driver], called as
    [fmm_driver(wrangler, strengths, geo_data, kernel, kernel_arguments)]. *)
Definition FmmDriver `{Values} : Type :=
  Wrangler -> list Scalar -> QBXFMMGeometryData -> Kernel ->
  gmap string (list Scalar) -> result (list (list Scalar) * Extra).

(** ** The collaborators of the engine

    Everything the engine obtains from outside the modelled files: the
    geometry computations of [pytential.qbx.geometry], evaluation of symbolic
    expressions, kernel selection in the base class, the sumpy wrangler and
    the numerical appliers.  Each call that runs foreign code may raise. *)

Class Substrate `{Values} : Type := {
  (** [target_state.FAILED] *)
  target_state_FAILED : Z;
  (** [geo_data.user_target_to_center()] *)
  user_target_to_center : QBXFMMGeometryData -> result (list Z);
  (** [geo_data.ncenters] *)
  ncenters : QBXFMMGeometryData -> nat;
  (** [geo_data.target_info().target_discr_starts] *)
  target_discr_starts : QBXFMMGeometryData -> list nat;
  (** [geo_data.tree().nlevels] *)
  tree_nlevels : QBXFMMGeometryData -> nat;
  (** [evaluate(insn.density).with_queue(queue) * self.weights_and_area_elements()] *)
  evaluate_strengths : Instruction -> result (list Scalar);
  (** [evaluate(arg_expr)] for every entry of [insn.kernel_arguments] *)
  evaluate_kernel_arguments : Instruction -> result (gmap string (list Scalar));
  get_fmm_kernel : list Kernel -> result Kernel;
  get_fmm_output_and_expansion_dtype : Kernel -> list Scalar -> result dtype;
  get_fmm_expansion_wrangler_extra_kwargs :
    list Kernel -> QBXFMMGeometryData -> Instruction ->
    result (gmap string (list Scalar) * gmap string (list Scalar));
  (** [QBXSumpyExpansionWranglerCodeContainer.get_wrangler] *)
  sumpy_get_wrangler :
    QBXSumpyExpansionWranglerCodeContainer -> get_wrangler_args ->
    result SumpyWrangler;
  (** [pytential.qbx.fmm.drive_fmm(wrangler, strengths, timing_data)], with
      [timing_data] a fresh dictionary when the flag is set *)
  drive_fmm : Wrangler -> list Scalar -> bool -> result (list (list Scalar) * Extra);
  (** the layer potential applier of [get_lpot_applier], on the nodes of the
      target, with the centers of the given side *)
  lpot_applier :
    list Kernel -> Discretization -> Z -> list Scalar ->
    gmap string (list Scalar) -> result (list (list Scalar));
  (** the point-to-point applier of [get_p2p] *)
  p2p :
    list Kernel -> Discretization -> list Scalar ->
    gmap string (list Scalar) -> result (list (list Scalar));
  (** the applier of [get_lpot_applier_on_tgt_subset]; it updates the arrays
      [result_i] in place, and the model returns them *)
  lpot_applier_on_tgt_subset :
    list Kernel -> Discretization -> QBXFMMGeometryData -> list Scalar ->
    list Z -> list Z -> gmap string (list Scalar) -> list (list Scalar) ->
    result (list (list Scalar));
  (** the contents of a freshly allocated [cl.array.empty] of [int32] *)
  empty_int32 : nat -> list Z
}.

(** ** The state of a run *)

Inductive event : Type :=
  | EvGeometryBuilt (key : target_discrs_and_sides)
  | EvInspector (perform_fmm : bool)
  | EvFmmDriver
  | EvLpotApplier
  | EvP2P
  | EvLpotApplierOnTgtSubset.

(** The mutable part of a source (the dictionary that [memoize_method]
    attaches to it for [qbx_fmm_geometry_data]), the allocator of geometry
    objects, and the calls made into the numerical collaborators. *)
Record world : Type := {
  geometry_cache : gmap target_discrs_and_sides QBXFMMGeometryData;
  next_geo_id : nat;
  trace : list event
}.

Definition initial_world : world :=
  {| geometry_cache := ∅; next_geo_id := 0%nat; trace := [] |}.

Definition M (A : Type) : Type := world -> result A * world.

Definition ret {A} (a : A) : M A := fun w => (inr a, w).

Definition raise {A} (e : exn) : M A := fun w => (inl e, w).

Definition lift {A} (r : result A) : M A := fun w => (r, w).

Definition bind {A B} (m : M A) (k : A -> M B) : M B :=
  fun w =>
    match m w with
    | (inl e, w') => (inl e, w')
    | (inr a, w') => k a w'
    end.

Definition log (e : event) : M unit :=
  fun w =>
    (inr tt, {| geometry_cache := geometry_cache w;
                next_geo_id := next_geo_id w;
                trace := trace w ++ [e] |}).

Declare Scope py_scope.
Delimit Scope py_scope with py.
Notation "x <- m ;; k" := (bind m (fun x => k))
  (at level 100, m at next level, right associativity) : py_scope.
Notation "m ;;; k" := (bind m (fun _ => k))
  (at level 100, right associativity) : py_scope.

(** Python indexing of a list by a non-negative index. *)
Definition index {A} (l : list A) (i : nat) : result A :=
  match l !! i with
  | Some a => inr a
  | None => inl IndexError
  end.

(** Python [l[a:b]] for non-negative bounds. *)
Definition slice {A} (a b : nat) (l : list A) : list A := drop a (take b l).

(** Python [l[:n]], where a negative [n] counts from the end. *)
Definition slice_to {A} (n : Z) (l : list A) : list A :=
  if 0 <=? n then take (Z.to_nat n) l
  else take (List.length l - Z.to_nat (- n)) l.

(** ** Helpers of [pytools] *)

Declare Scope res_scope.
Delimit Scope res_scope with res.
Notation "x <- m ;; k" := (rbind m (fun x => k))
  (at level 100, m at next level, right associativity) : res_scope.

(** [pytools.is_single_valued]: an empty iterable is an error. *)
Definition is_single_valued {A} `{EqDecision A} (l : list A) : result bool :=
  match l with
  | [] => inl (ValueError "empty iterable passed to 'single_valued()'")
  | first_item :: others =>
      inr (forallb (fun other_item => bool_decide (other_item = first_item)) others)
  end.

(** [pytools.single_valued]: the common value, asserted to be common. *)
Definition single_valued {A} `{EqDecision A} (l : list A) : result A :=
  match l with
  | [] => inl (ValueError "empty iterable passed to 'single_valued()'")
  | first_item :: others =>
      if forallb (fun other_item => bool_decide (other_item = first_item)) others
      then inr first_item
      else inl AssertionError
  end.

(** A list comprehension whose element expression may raise. *)
Fixpoint comprehension {A B} (f : A -> result B) (l : list A) : result (list B) :=
  match l with
  | [] => inr []
  | a :: l' =>
      match f a with
      | inl e => inl e
      | inr b =>
          match comprehension f l' with
          | inl e => inl e
          | inr bs => inr (b :: bs)
          end
      end
  end.

(** A dictionary subscript [m[k]]. *)
Definition subscript {K A} `{Countable K} (m : gmap K A) (k : K) : result A :=
  match m !! k with
  | Some a => inr a
  | None => inl KeyError
  end.

(** [range(n)] *)
Definition range (n : nat) : list Z := map Z.of_nat (seq 0 n).

(** ** The fmmlib expansion wrangler *)

Module FMMLib.
Section Wrangler.

Context `{Values} `{!Substrate}.
Local Open Scope res_scope.

(** The lists and flags that the digest of [out_kernels] fills. *)
Record digest : Type := {
  k_names : list string;
  source_deriv_names : list (option string);
  ifgrad : bool;
  outputs : list (list Z)
}.

Definition empty_digest : digest :=
  {| k_names := []; source_deriv_names := []; ifgrad := false; outputs := [] |}.

(** The local function [is_supported_helmknl]: every call appends to
    [source_deriv_names], and a successful one to [k_names]. *)
Definition is_supported_helmknl (knl : Kernel) (d : digest) : bool * digest :=
  let '(knl, source_deriv_names) :=
    match knl with
    | DirectionalSourceDerivative inner_kernel dir_vec_name =>
        (inner_kernel, source_deriv_names d ++ [Some dir_vec_name])
    | _ => (knl, source_deriv_names d ++ [None])
    end in
  match knl with
  | HelmholtzKernel kdim helmholtz_k_name =>
      if kdim =? 3 then
        (true, {| k_names := k_names d ++ [helmholtz_k_name];
                  source_deriv_names := source_deriv_names;
                  ifgrad := ifgrad d;
                  outputs := outputs d |})
      else
        (false, {| k_names := k_names d;
                   source_deriv_names := source_deriv_names;
                   ifgrad := ifgrad d;
                   outputs := outputs d |})
  | _ =>
      (false, {| k_names := k_names d;
                 source_deriv_names := source_deriv_names;
                 ifgrad := ifgrad d;
                 outputs := outputs d |})
  end.

Definition unsupported_kernel_msg : string :=
  "only the 3D Helmholtz kernel and its target derivatives are supported for now".

(** The loop over [self.code.out_kernels]. *)
Fixpoint digest_out_kernels (ks : list Kernel) (d : digest) : result digest :=
  match ks with
  | [] => inr d
  | out_knl :: ks' =>
      let '(supported, d1) := is_supported_helmknl out_knl d in
      if supported then
        digest_out_kernels ks'
          {| k_names := k_names d1;
             source_deriv_names := source_deriv_names d1;
             ifgrad := ifgrad d1;
             outputs := outputs d1 ++ [[]] |}
      else
        match out_knl with
        | AxisTargetDerivative axis inner_kernel =>
            let '(supported_inner, d2) := is_supported_helmknl inner_kernel d1 in
            if supported_inner then
              digest_out_kernels ks'
                {| k_names := k_names d2;
                   source_deriv_names := source_deriv_names d2;
                   ifgrad := true;
                   outputs := outputs d2 ++ [[axis]] |}
            else inl (NotImplementedError unsupported_kernel_msg)
        | _ => inl (NotImplementedError unsupported_kernel_msg)
        end
  end.

(** [QBXFMMLibExpansionWrangler.__init__]; [fmm_level_to_order] is called
    with the level alone. *)
Definition __init__ (code : QBXFMMLibExpansionWranglerCodeContainer)
    (geo_data : QBXFMMGeometryData) (dtype_ : dtype) (qbx_order : Z)
    (fmm_level_to_order : Z -> result Z)
    (source_extra_kwargs : gmap string (list Scalar))
    (kernel_extra_kwargs : option (gmap string (list Scalar)))
    : result QBXFMMLibExpansionWrangler :=
  d <- digest_out_kernels (out_kernels code) empty_digest ;;
  same <- is_single_valued (source_deriv_names d) ;;
  if negb same then
    inl (ValueError
           "not all kernels passed are the same inwhether they represent a source derivative")
  else
  source_deriv_name <- index (source_deriv_names d) 0 ;;
  k_name <- single_valued (k_names d) ;;
  helmholtz_k <-
    match kernel_extra_kwargs with
    | None => inl (TypeError "'NoneType' object is not subscriptable")
    | Some kwargs => subscript kwargs k_name
    end ;;
  level_orders <- comprehension fmm_level_to_order (range (tree_nlevels geo_data)) ;;
  common_order <- single_valued level_orders ;;
  if negb (truthy common_order) then inl AssertionError else
  dipole_vec <-
    match source_deriv_name with
    | None => inr None
    | Some n => v <- subscript source_extra_kwargs n ;; inr (Some v)
    end ;;
  nterms <- fmm_level_to_order 0 ;;
  inr {| w_code := code;
         w_geo_data := geo_data;
         w_qbx_order := qbx_order;
         w_outputs := outputs d;
         w_level_orders := level_orders;
         w_helmholtz_k := helmholtz_k;
         w_dipole_vec := dipole_vec;
         w_dipoles_already_reordered := true;
         w_nterms := nterms;
         w_ifgrad := ifgrad d |}.

(** The parameters of [QBXFMMLibExpansionWranglerCodeContainer.get_wrangler]. *)
Definition get_wrangler_parameters : list string :=
  ["queue"; "geo_data"; "dtype"; "qbx_order"; "fmm_level_to_order";
   "source_extra_kwargs"; "kernel_extra_kwargs"].

End Wrangler.
End FMMLib.

Section Execution.

Context `{Values} `{!Substrate}.
Local Open Scope py_scope.

(** *** The memoised geometry accessor *)

(** [QBXLayerPotentialSource.qbx_fmm_geometry_data] under [memoize_method]:
    the dictionary is keyed by the argument tuple; on a miss the geometry
    object is constructed and stored.  The FMM path passes the tuple by
    position and the direct path by keyword; one source only ever takes one
    of the two paths, and the model keys the dictionary by the tuple. *)
Definition qbx_fmm_geometry_data (self : QBX.QBXLayerPotentialSource)
    (target_discrs_and_qbx_sides : target_discrs_and_sides)
    : M QBXFMMGeometryData :=
  fun w =>
    match geometry_cache w !! target_discrs_and_qbx_sides with
    | Some geo_data => (inr geo_data, w)
    | None =>
        let geo_data :=
          {| geo_id := next_geo_id w;
             geo_target_discrs_and_qbx_sides := target_discrs_and_qbx_sides;
             geo_target_association_tolerance :=
               QBX.target_association_tolerance self;
             geo_tree_kind := QBX._tree_kind self;
             geo_debug := QBX.debug self |} in
        (inr geo_data,
         {| geometry_cache :=
              <[target_discrs_and_qbx_sides := geo_data]> (geometry_cache w);
            next_geo_id := S (next_geo_id w);
            trace := trace w ++ [EvGeometryBuilt target_discrs_and_qbx_sides] |})
    end.

(** A sequence of calls of the accessor on one source. *)
Fixpoint geometry_requests (self : QBX.QBXLayerPotentialSource)
    (keys : list target_discrs_and_sides) : M (list QBXFMMGeometryData) :=
  match keys with
  | [] => ret []
  | k :: keys' =>
      g <- qbx_fmm_geometry_data self k ;;
      gs <- geometry_requests self keys' ;;
      ret (g :: gs)
  end.

(** *** Gathering the target discretizations of an instruction *)

(** The geometry of a target name, reduced to a discretization. *)
Definition target_discr_of (bound_expr : BoundExpression) (target_name : string)
    : Discretization :=
  match places_get_geometry bound_expr target_name with
  | LayerPotentialSource density_discr => density_discr
  | TargetGeometry d => d
  end.

(** [qbx_forced_limit = o.qbx_forced_limit; if qbx_forced_limit is None:
    qbx_forced_limit = 0] *)
Definition normalized_side (l : forced_limit) : Z :=
  match l with
  | None => 0
  | Some s => s
  end.

(** The loop of [get_target_discrs_and_qbx_sides], started from the current
    dictionary and list. *)
Fixpoint gather_targets (bound_expr : BoundExpression) (os : list Output)
    (target_name_and_side_to_number : gmap (string * forced_limit) nat)
    (target_discrs_and_qbx_sides : target_discrs_and_sides)
    : gmap (string * forced_limit) nat * target_discrs_and_sides :=
  match os with
  | [] => (target_name_and_side_to_number, target_discrs_and_qbx_sides)
  | o :: os' =>
      let key := (target_name o, qbx_forced_limit o) in
      match target_name_and_side_to_number !! key with
      | Some _ =>
          gather_targets bound_expr os' target_name_and_side_to_number
            target_discrs_and_qbx_sides
      | None =>
          gather_targets bound_expr os'
            (<[key := List.length target_discrs_and_qbx_sides]>
               target_name_and_side_to_number)
            (target_discrs_and_qbx_sides ++
               [(target_discr_of bound_expr (target_name o),
                 normalized_side (qbx_forced_limit o))])
      end
  end.

(** [QBXLayerPotentialSource.get_target_discrs_and_qbx_sides] *)
Definition get_target_discrs_and_qbx_sides (insn : Instruction)
    (bound_expr : BoundExpression)
    : gmap (string * forced_limit) nat * target_discrs_and_sides :=
  gather_targets bound_expr (outputs insn) ∅ [].

(** *** Wrangler selection *)

Definition invalid_backend_msg (backend : string) : string :=
  ("invalid FMM backend: " ++ backend)%string.

(** [QBXLayerPotentialSource.expansion_wrangler_code_container] *)
Definition expansion_wrangler_code_container (self : QBX.QBXLayerPotentialSource)
    (fmm_kernel : Kernel) (out_kernels : list Kernel) : result CodeContainer :=
  let fmm_mpole_factory :=
    {| expn_factory := QBX.expansion_factory self;
       expn_kind := Multipole; expn_kernel := fmm_kernel |} in
  let fmm_local_factory :=
    {| expn_factory := QBX.expansion_factory self;
       expn_kind := Local; expn_kernel := fmm_kernel |} in
  let qbx_local_factory :=
    {| expn_factory := QBX.expansion_factory self;
       expn_kind := Local; expn_kernel := fmm_kernel |} in
  if String.eqb (QBX.fmm_backend self) "sumpy" then
    inr (SumpyContainer
           {| sumpy_multipole_expansion_factory := fmm_mpole_factory;
              sumpy_local_expansion_factory := fmm_local_factory;
              sumpy_qbx_local_expansion_factory := qbx_local_factory;
              sumpy_out_kernels := out_kernels;
              sumpy_use_fft := QBX.use_fft self |})
  else if String.eqb (QBX.fmm_backend self) "fmmlib" then
    inr (FMMLibContainer
           {| multipole_expansion_factory := fmm_mpole_factory;
              local_expansion_factory := fmm_local_factory;
              qbx_local_expansion_factory := qbx_local_factory;
              out_kernels := out_kernels |})
  else inl (ValueError (invalid_backend_msg (QBX.fmm_backend self))).

(** The keys of the dictionary [get_wrangler_args]. *)
Definition get_wrangler_arg_names (self : QBX.QBXLayerPotentialSource) : list string :=
  ["queue"; "geo_data"; "dtype"; "qbx_order"; "fmm_level_to_order";
   "source_extra_kwargs"; "kernel_extra_kwargs"; "_use_target_specific_qbx"]
  ++ (if String.eqb (QBX.fmm_backend self) "sumpy" then ["use_fft"] else []).

(** The source's [fmm_level_to_order], called with the level alone, as the
    fmmlib wrangler calls it: [False] is not callable, and the callables
    take [(kernel, kernel_args, tree, level)]. *)
Definition call_with_level_alone (f : LevelToOrder) (level : Z) : result Z :=
  match f with
  | LtoFalse => inl (TypeError "'bool' object is not callable")
  | LtoFixed _ | LtoCallable _ =>
      inl (TypeError "fmm_level_to_order() missing 3 required positional arguments")
  end.

Definition unexpected_keyword_msg (kw : string) : string :=
  ("get_wrangler() got an unexpected keyword argument '" ++ kw ++ "'")%string.

(** [code_container.get_wrangler], called with the keyword arguments
    [get_wrangler_args]. *)
Definition get_wrangler (code : CodeContainer) (names : list string)
    (args : get_wrangler_args) : result Wrangler :=
  match code with
  | SumpyContainer c =>
      rbind (sumpy_get_wrangler c args) (fun w => inr (WSumpy w))
  | FMMLibContainer c =>
      match filter (fun n => n ∉ FMMLib.get_wrangler_parameters) names with
      | unexpected :: _ => inl (TypeError (unexpected_keyword_msg unexpected))
      | [] =>
          rbind (FMMLib.__init__ c (gw_geo_data args) (gw_dtype args)
                   (gw_qbx_order args)
                   (call_with_level_alone (gw_fmm_level_to_order args))
                   (gw_source_extra_kwargs args)
                   (Some (gw_kernel_extra_kwargs args)))
            (fun w => inr (WFMMLib w))
      end
  end.

(** *** FMM-based execution *)

Inductive ExecReturn : Type :=
  (** the bare list [[(o.name, 0) for o in insn.outputs]] *)
  | ZeroPlaceholders (assignments : list (string * Z))
  (** [(result, extra_outputs)] of the FMM path *)
  | FmmPotentials (assignments : list (string * list Scalar)) (extra_outputs : Extra)
  (** [(result, timing_data)] of the direct path, [timing_data] being [{}] *)
  | DirectPotentials (assignments : list (string * list Scalar)).

(** The slice made from the unpacked [starts[n:n+2]], applied to an array:
    two bounds are start and stop, a single one is the stop. *)
Definition target_slice (starts : list nat) (n : nat) (a : list Scalar)
    : result (list Scalar) :=
  match slice n (n + 2) starts with
  | [start; stop] => inr (slice start stop a)
  | [stop] => inr (slice 0 stop a)
  | _ => inl (TypeError "slice expected at least 1 argument, got 0")
  end.

(** The body of the loop that assembles the result of the FMM path. *)
Definition fmm_output (geo_data : QBXFMMGeometryData)
    (target_name_and_side_to_number : gmap (string * forced_limit) nat)
    (all_potentials_on_every_target : list (list Scalar)) (o : Output)
    : result (string * list Scalar) :=
  rbind (subscript target_name_and_side_to_number
           (target_name o, qbx_forced_limit o)) (fun target_side_number =>
  rbind (index all_potentials_on_every_target (kernel_index o)) (fun potential =>
  rbind (target_slice (target_discr_starts geo_data) target_side_number potential)
    (fun values => inr (name o, values)))).

Definition failed_targets_msg : string := "geometry has failed targets".

(** [QBXLayerPotentialSource.exec_compute_potential_insn_fmm] *)
Definition exec_compute_potential_insn_fmm (self : QBX.QBXLayerPotentialSource)
    (insn : Instruction) (bound_expr : BoundExpression) (fmm_driver : FmmDriver)
    : M ExecReturn :=
  let target_name_and_side_to_number :=
    fst (get_target_discrs_and_qbx_sides insn bound_expr) in
  let target_discrs_and_qbx_sides :=
    snd (get_target_discrs_and_qbx_sides insn bound_expr) in
  geo_data <- qbx_fmm_geometry_data self target_discrs_and_qbx_sides ;;
  strengths <- lift (evaluate_strengths insn) ;;
  let out_kernels := kernels insn in
  fmm_kernel <- lift (get_fmm_kernel out_kernels) ;;
  output_and_expansion_dtype <-
    lift (get_fmm_output_and_expansion_dtype fmm_kernel strengths) ;;
  extra_kwargs <-
    lift (get_fmm_expansion_wrangler_extra_kwargs out_kernels geo_data insn) ;;
  let kernel_extra_kwargs := fst extra_kwargs in
  let source_extra_kwargs := snd extra_kwargs in
  let get_wrangler_args :=
    {| gw_geo_data := geo_data;
       gw_dtype := output_and_expansion_dtype;
       gw_qbx_order := QBX.qbx_order self;
       gw_fmm_level_to_order := QBX.fmm_level_to_order self;
       gw_source_extra_kwargs := source_extra_kwargs;
       gw_kernel_extra_kwargs := kernel_extra_kwargs;
       gw_use_target_specific_qbx := QBX._use_target_specific_qbx self;
       gw_use_fft :=
         if String.eqb (QBX.fmm_backend self) "sumpy"
         then Some (QBX.use_fft self) else None |} in
  code <- lift (expansion_wrangler_code_container self fmm_kernel out_kernels) ;;
  wrangler <-
    lift (get_wrangler code (get_wrangler_arg_names self) get_wrangler_args) ;;
  user_target_to_center_ <- lift (user_target_to_center geo_data) ;;
  if existsb (Z.eqb target_state_FAILED) user_target_to_center_ then
    raise (RuntimeError failed_targets_msg)
  else
  let execute_global_qbx : M ExecReturn :=
    log EvFmmDriver ;;;
    driven <-
      lift (fmm_driver wrangler strengths geo_data fmm_kernel kernel_extra_kwargs) ;;
    let all_potentials_on_every_target := fst driven in
    let extra_outputs := snd driven in
    result_ <-
      lift (comprehension
              (fmm_output geo_data target_name_and_side_to_number
                 all_potentials_on_every_target)
              (outputs insn)) ;;
    ret (FmmPotentials result_ extra_outputs) in
  match QBX.geometry_data_inspector self with
  | Some inspector =>
      let perform_fmm := inspector insn bound_expr geo_data in
      log (EvInspector perform_fmm) ;;;
      if negb perform_fmm then
        ret (ZeroPlaceholders (map (fun o => (name o, 0)) (outputs insn)))
      else execute_global_qbx
  | None => execute_global_qbx
  end.

(** *** Direct execution *)

(** The scan kernel of [get_qbx_target_numberer], from element [i] on:
    [prev_item] is the inclusive prefix sum of the input expression
    [tgt_to_qbx_center[i] >= 0 ? 1 : 0] before element [i]; the output
    statement writes [qbx_tgt_number[item-1] = i] when the sum moved and
    [*count = item] at the last element.  The sums are [int32]; they stay
    below the length of the array, which a device array keeps far below
    [2^31]. *)
Fixpoint qbx_target_numberer_from (N i : nat) (prev_item : Z)
    (tgt_to_qbx_center : list Z) (qbx_tgt_number : list Z) (count : Z)
    : list Z * Z :=
  match tgt_to_qbx_center with
  | [] => (qbx_tgt_number, count)
  | c :: rest =>
      let item := prev_item + (if 0 <=? c then 1 else 0) in
      let qbx_tgt_number :=
        if item =? prev_item then qbx_tgt_number
        else <[Z.to_nat (item - 1) := Z.of_nat i]> qbx_tgt_number in
      let count := if Nat.eqb (i + 1) N then item else count in
      qbx_target_numberer_from N (S i) item rest qbx_tgt_number count
  end.

(** A call of the scan kernel on [tgt_to_qbx_center], with the two output
    buffers as allocated. *)
Definition qbx_target_numberer (tgt_to_qbx_center qbx_tgt_number : list Z)
    (count : Z) : list Z * Z :=
  qbx_target_numberer_from (List.length tgt_to_qbx_center) 0 0
    tgt_to_qbx_center qbx_tgt_number count.

(** [a[indices]] on device arrays; the indices the code passes are positions
    of [a]. *)
Definition take_indices (a : list Z) (indices : list Z) : list Z :=
  map (fun i => nth (Z.to_nat i) a 0) indices.

(** The dictionary [centers], which has the keys [-1] and [+1]. *)
Definition centers_subscript (side : Z) : result Z :=
  if (side =? -1) || (side =? 1) then inr side else inl KeyError.

Definition no_matching_center_msg : string :=
  "Did not find a matching QBX center for some targets".

(** The test guarding the error of the direct path. *)
Definition forced_limit_unsatisfied (l : forced_limit) (qbx_tgt_count : Z)
    (nnodes_ : Z) : bool :=
  match l with
  | None => false
  | Some s => (Z.abs s =? 1) && (qbx_tgt_count <? nnodes_)
  end.

(** The body of the loop over [insn.outputs] in
    [exec_compute_potential_insn_direct]. *)
Definition direct_output (self : QBX.QBXLayerPotentialSource)
    (insn : Instruction) (bound_expr : BoundExpression)
    (kernel_args : gmap string (list Scalar)) (strengths : list Scalar)
    (o : Output) : M (string * list Scalar) :=
  let target_discr := get_discretization bound_expr (target_name o) in
  let is_self := discr_is (QBX.density_discr self) target_discr in
  if is_self then
    match qbx_forced_limit o with
    | None => raise AssertionError
    | Some side =>
        if negb (0 <? Z.abs side) then raise AssertionError else
        centers_side <- lift (centers_subscript side) ;;
        log EvLpotApplier ;;;
        output_for_each_kernel <-
          lift (lpot_applier (kernels insn) target_discr centers_side
                  strengths kernel_args) ;;
        value <- lift (index output_for_each_kernel (kernel_index o)) ;;
        ret (name o, value)
    end
  else
    log EvP2P ;;;
    output_for_each_kernel <-
      lift (p2p (kernels insn) target_discr strengths kernel_args) ;;
    let qbx_forced_limit_ := normalized_side (qbx_forced_limit o) in
    geo_data <- qbx_fmm_geometry_data self [(target_discr, qbx_forced_limit_)] ;;
    user_target_to_center_ <- lift (user_target_to_center geo_data) ;;
    let tgt_to_qbx_center := drop (ncenters geo_data) user_target_to_center_ in
    let numbered :=
      qbx_target_numberer tgt_to_qbx_center
        (empty_int32 (List.length tgt_to_qbx_center))
        (hd 0 (empty_int32 1)) in
    let qbx_tgt_count := snd numbered in
    if forced_limit_unsatisfied (qbx_forced_limit o) qbx_tgt_count
         (nnodes target_discr)
    then raise (RuntimeError no_matching_center_msg)
    else
    let qbx_tgt_numbers := slice_to qbx_tgt_count (fst numbered) in
    let qbx_center_numbers := take_indices tgt_to_qbx_center qbx_tgt_numbers in
    output_for_each_kernel <-
      (if truthy qbx_tgt_count then
         log EvLpotApplierOnTgtSubset ;;;
         lift (lpot_applier_on_tgt_subset (kernels insn) target_discr geo_data
                 strengths qbx_tgt_numbers qbx_center_numbers kernel_args
                 output_for_each_kernel)
       else ret output_for_each_kernel) ;;
    value <- lift (index output_for_each_kernel (kernel_index o)) ;;
    ret (name o, value).

(** A [for] loop that appends one item per element, in the monad. *)
Fixpoint for_each {A B} (f : A -> M B) (l : list A) : M (list B) :=
  match l with
  | [] => ret []
  | a :: l' =>
      b <- f a ;;
      bs <- for_each f l' ;;
      ret (b :: bs)
  end.

(** [QBXLayerPotentialSource.exec_compute_potential_insn_direct]; the
    warning about timing data has no effect on the result, and the
    construction of the appliers and the expansion radii and centers bound
    before the loop are part of the applier collaborators. *)
Definition exec_compute_potential_insn_direct (self : QBX.QBXLayerPotentialSource)
    (insn : Instruction) (bound_expr : BoundExpression)
    (return_timing_data : bool) : M ExecReturn :=
  kernel_args <- lift (evaluate_kernel_arguments insn) ;;
  strengths <- lift (evaluate_strengths insn) ;;
  result_ <-
    for_each (direct_output self insn bound_expr kernel_args strengths)
      (outputs insn) ;;
  ret (DirectPotentials result_).

(** *** Dispatch *)

(** [QBXLayerPotentialSource.exec_compute_potential_insn], through
    [_dispatch_compute_potential_insn] (which only warns). *)
Definition exec_compute_potential_insn (self : QBX.QBXLayerPotentialSource)
    (insn : Instruction) (bound_expr : BoundExpression)
    (return_timing_data : bool) : M ExecReturn :=
  match QBX.fmm_level_to_order self with
  | LtoFalse =>
      exec_compute_potential_insn_direct self insn bound_expr return_timing_data
  | _ =>
      exec_compute_potential_insn_fmm self insn bound_expr
        (fun wrangler strengths geo_data kernel kernel_arguments =>
           drive_fmm wrangler strengths return_timing_data)
  end.

End Execution.

(** ** Evaluation of the QBX expansions by the fmmlib wrangler *)

(** The position that numpy indexing with the integer [i] reads in an array
    of [n] entries: a negative index counts from the end. *)
Definition np_position (n : nat) (i : Z) : option nat :=
  if (0 <=? i) && (i <? Z.of_nat n) then Some (Z.to_nat i)
  else if (- Z.of_nat n <=? i) && (i <? 0) then Some (Z.to_nat (i + Z.of_nat n))
  else None.

(** [a[i]] for an array and an integer. *)
Definition np_getitem {A} (a : list A) (i : Z) : result A :=
  match np_position (List.length a) i with
  | Some p => index a p
  | None => inl IndexError
  end.

(** [range(start, stop)] *)
Definition py_range (start stop : Z) : list Z :=
  map (fun k => start + Z.of_nat k) (seq 0 (Z.to_nat (stop - start))).

Module FMMLibNumerics.

(** What an evaluation routine returns as gradient: an array, or the
    number [0] when no gradient is computed. *)
Inductive Grad `{Values} : Type :=
  | GradArray (g : list Scalar)
  | GradNumber (g : Scalar).

(** The arithmetic of the array entries, and what the evaluation takes
    from the geometry data, the tree and pyfmmlib. *)
Class Collaborators `{Values} : Type := {
  Expansions : Type;
  zero : Scalar;
  add : Scalar -> Scalar -> Scalar;
  (** [grad == 0] for a gradient that is not an array *)
  is_zero : Scalar -> bool;
  (** [self.tree.ntargets] *)
  tree_ntargets : QBXFMMLibExpansionWrangler -> nat;
  (** [geo_data.center_to_tree_targets()]: [starts] and [lists] *)
  center_to_tree_targets : QBXFMMGeometryData -> result (list Z * list Z);
  (** [geo_data.global_qbx_centers()] *)
  global_qbx_centers : QBXFMMGeometryData -> result (list Z);
  (** [geo_data.centers()], [geo_data.all_targets()] and
      [self.get_expn_eval_routine] *)
  evaluation_setup : QBXFMMLibExpansionWrangler -> result unit;
  (** the call of the evaluation routine for the center [src_icenter] and
      the target [center_itgt], with the columns and the expansion it
      reads for them *)
  taeval :
    QBXFMMLibExpansionWrangler -> Expansions -> Z -> Z -> result (Scalar * Grad)
}.

Section Evaluation.

Context `{Values} `{!Collaborators}.
Local Open Scope res_scope.

(** [QBXFMMLibExpansionWrangler.full_output_zeros] *)
Definition full_output_zeros (self : QBXFMMLibExpansionWrangler)
    : list (list Scalar) :=
  map (fun _ => repeat zero (tree_ntargets self)) (w_outputs self).

(** [output[i_out][output_slice] += value] for an integer [output_slice]. *)
Definition iadd_entry (output : list (list Scalar)) (i_out : nat)
    (output_slice : Z) (value : Scalar) : result (list (list Scalar)) :=
  a <- index output i_out ;;
  match np_position (List.length a) output_slice with
  | Some p =>
      old <- index a p ;;
      inr (<[i_out := <[p := add old value]> a]> output)
  | None => inl IndexError
  end.

Definition not_understood_msg : string :=
  "element of outputs array not understood".

(** The loop of [add_potgrad_onto_output], from the output number [i_out]
    on. *)
Fixpoint add_potgrad_from (i_out : nat) (outs : list (list Z))
    (output : list (list Scalar)) (output_slice : Z) (pot : Scalar)
    (grad : Grad) : result (list (list Scalar)) :=
  match outs with
  | [] => inr output
  | out :: rest =>
      output' <-
        match out with
        | [] => iadd_entry output i_out output_slice pot
        | [axis] =>
            match grad with
            | GradArray g =>
                value <- np_getitem g axis ;;
                iadd_entry output i_out output_slice value
            | GradNumber g =>
                if is_zero g then inr output else inl AssertionError
            end
        | _ => inl (ValueError not_understood_msg)
        end ;;
      add_potgrad_from (S i_out) rest output' output_slice pot grad
  end.

(** [QBXFMMLibExpansionWrangler.add_potgrad_onto_output], called with an
    integer as [output_slice] and a number as [pot]. *)
Definition add_potgrad_onto_output (self : QBXFMMLibExpansionWrangler)
    (output : list (list Scalar)) (output_slice : Z) (pot : Scalar)
    (grad : Grad) : result (list (list Scalar)) :=
  add_potgrad_from 0 (w_outputs self) output output_slice pot grad.

(** The inner loop of [eval_qbx_expansions], over the positions of the
    targets of one center in [ctt.lists]. *)
Fixpoint eval_center_targets (self : QBXFMMLibExpansionWrangler)
    (qbx_expansions : Expansions) (lists : list Z) (src_icenter : Z)
    (positions : list Z) (output : list (list Scalar))
    : result (list (list Scalar)) :=
  match positions with
  | [] => inr output
  | icenter_tgt :: rest =>
      center_itgt <- np_getitem lists icenter_tgt ;;
      evaluated <- taeval self qbx_expansions src_icenter center_itgt ;;
      output' <-
        add_potgrad_onto_output self output center_itgt (fst evaluated)
          (snd evaluated) ;;
      eval_center_targets self qbx_expansions lists src_icenter rest output'
  end.

(** The outer loop of [eval_qbx_expansions], over the global centers. *)
Fixpoint eval_centers (self : QBXFMMLibExpansionWrangler)
    (qbx_expansions : Expansions) (starts lists : list Z)
    (centers : list Z) (output : list (list Scalar))
    : result (list (list Scalar)) :=
  match centers with
  | [] => inr output
  | src_icenter :: rest =>
      start <- np_getitem starts src_icenter ;;
      stop <- np_getitem starts (src_icenter + 1) ;;
      output' <-
        eval_center_targets self qbx_expansions lists src_icenter
          (py_range start stop) output ;;
      eval_centers self qbx_expansions starts lists rest output'
  end.

(** [QBXFMMLibExpansionWrangler.eval_qbx_expansions] *)
Definition eval_qbx_expansions (self : QBXFMMLibExpansionWrangler)
    (qbx_expansions : Expansions) : result (list (list Scalar)) :=
  let output := full_output_zeros self in
  ctt <- center_to_tree_targets (w_geo_data self) ;;
  centers <- global_qbx_centers (w_geo_data self) ;;
  _ <- evaluation_setup self ;;
  eval_centers self qbx_expansions (fst ctt) (snd ctt) centers output.

End Evaluation.
End FMMLibNumerics.

(** ** Cost modelling *)

(** What [cost_model_compute_potential_insn] uses besides the engine: the
    cost model, a callable, and two methods of the wrangler. *)
Class CostCollaborators `{Values} : Type := {
  (** [self.cost_model(wrangler, geo_data, kernel, kernel_arguments)] *)
  apply_cost_model :
    CostModelT -> Wrangler -> QBXFMMGeometryData -> Kernel ->
    gmap string (list Scalar) -> result Extra;
  (** [wrangler.full_output_zeros()] *)
  full_output_zeros : Wrangler -> result (list (list Scalar));
  (** [wrangler.finalize_potentials] *)
  finalize_potentials : Wrangler -> list Scalar -> result (list Scalar)
}.

Section CostModelling.

Context `{Values} `{!Substrate} `{!CostCollaborators}.
Local Open Scope res_scope.

(** The local function [drive_cost_model]. *)
Definition drive_cost_model (self : QBX.QBXLayerPotentialSource) : FmmDriver :=
  fun wrangler strengths geo_data kernel kernel_arguments =>
    cost_model_result <-
      match QBX.cost_model self with
      | Some cost_model =>
          apply_cost_model cost_model wrangler geo_data kernel kernel_arguments
      | None => inl (TypeError "'NoneType' object is not callable")
      end ;;
    zeros <- full_output_zeros wrangler ;;
    output_placeholder <- comprehension (finalize_potentials wrangler) zeros ;;
    inr (output_placeholder, cost_model_result).

Definition no_direct_cost_msg : string := "perf modeling direct evaluations".

(** [QBXLayerPotentialSource.cost_model_compute_potential_insn] *)
Definition cost_model_compute_potential_insn (self : QBX.QBXLayerPotentialSource)
    (insn : Instruction) (bound_expr : BoundExpression) : M ExecReturn :=
  match QBX.fmm_level_to_order self with
  | LtoFalse => raise (NotImplementedError no_direct_cost_msg)
  | _ =>
      exec_compute_potential_insn_fmm self insn bound_expr
        (drive_cost_model self)
  end.

End CostModelling.

(** ** Execution on the unregularized layer potential source *)

(** Python [l[a:b]] with integer bounds: a negative bound counts from the
    end, and both bounds are clipped to the list. *)
Definition py_slice_bound (n : nat) (x : Z) : nat :=
  if x <? 0 then Z.to_nat (Z.max (x + Z.of_nat n) 0)
  else Nat.min (Z.to_nat x) n.

Definition py_slice {A} (a b : Z) (l : list A) : list A :=
  drop (py_slice_bound (List.length l) a) (take (py_slice_bound (List.length l) b) l).

Module UnregularizedExecution.

(** [pytential.symbolic.primitives.DOFDescriptor], the [target_name] of an
    output. *)
Record DOFDescriptor : Type := {
  geometry : string;
  discr_stage : option string;
  granularity : option string
}.

#[global] Instance DOFDescriptor_eq_dec : EqDecision DOFDescriptor.
Proof. solve_decision. Defined.

#[global] Instance DOFDescriptor_countable : Countable DOFDescriptor :=
  inj_countable'
    (fun d => (geometry d, discr_stage d, granularity d))
    (fun t => match t with
              | (g, s, r) =>
                  {| geometry := g; discr_stage := s; granularity := r |}
              end)
    (fun d => match d with Build_DOFDescriptor _ _ _ => eq_refl end).

(** A geometry of the places: a [Discretization], or another target (such
    as a set of points). *)
Inductive TargetObject : Type :=
  | DiscretizationObject (d : Discretization)
  | PointsObject (d : Discretization).

(** [target_discr.ndofs] *)
Definition ndofs (t : TargetObject) : Z :=
  match t with
  | DiscretizationObject d | PointsObject d => nnodes d
  end.

Record Output : Type := {
  name : string;
  target_name : DOFDescriptor;
  qbx_forced_limit : option Z;
  kernel_index : nat
}.

Record Instruction : Type := {
  outputs : list Output;
  kernels : list Kernel
}.

Record BoundExpression : Type := {
  places_get_geometry : string -> TargetObject;
  places_get_discretization : string -> option string -> TargetObject
}.

(** A [_FMMGeometryData] object; [fmm_geometry_data] constructs a new one
    at every call. *)
Record _FMMGeometryData : Type := {
  lpot_source : Unregularized.UnregularizedLayerPotentialSource;
  target_discrs : list TargetObject;
  geo_debug : bool
}.

(** The fields of a [_TargetInfo] that the model keeps: the array
    [targets] is what the collaborator [assemble_targets] leaves on the
    device. *)
Record _TargetInfo : Type := {
  target_discr_starts : list Z;
  ntargets : Z
}.

(** The collaborators of the unregularized source. *)
Class Collaborators `{Values} : Type := {
  DOFArray : Type;
  Tree : Type;
  Traversal : Type;
  (** [flatten(waa * evaluate(insn.density))] *)
  evaluate_strengths : Instruction -> result (list Scalar);
  (** [flatten_if_needed(actx, evaluate(arg_expr))] for every kernel argument *)
  evaluate_kernel_arguments : Instruction -> result (gmap string (list Scalar));
  (** the point-to-point applier of [get_p2p] *)
  p2p :
    list Kernel -> TargetObject -> list Scalar -> gmap string (list Scalar) ->
    result (list (list Scalar));
  (** [meshmode.dof_array.unflatten] *)
  unflatten : Discretization -> list Scalar -> result DOFArray;
  get_fmm_kernel : list Kernel -> result Kernel;
  get_fmm_output_and_expansion_dtype : Kernel -> list Scalar -> result dtype;
  get_fmm_expansion_wrangler_extra_kwargs :
    list Kernel -> Tree -> Instruction ->
    result (gmap string (list Scalar) * gmap string (list Scalar));
  (** the allocation of [targets] and the runs of [copy_targets_kernel] *)
  assemble_targets : list TargetObject -> list Z -> Z -> result unit;
  (** [code_getter.build_tree], given the refine weights and the maximal
      leaf refine weight *)
  build_tree : _FMMGeometryData -> list Z -> Z -> result Tree;
  (** [code_getter.build_traversal] *)
  build_traversal : Tree -> result Traversal;
  (** [SumpyExpansionWranglerCodeContainer.get_wrangler] *)
  get_wrangler :
    QBXSumpyExpansionWranglerCodeContainer -> Tree -> dtype -> LevelToOrder ->
    gmap string (list Scalar) -> gmap string (list Scalar) ->
    result SumpyWrangler;
  (** [boxtree.fmm.drive_fmm] *)
  drive_fmm : Traversal -> SumpyWrangler -> list Scalar -> result (list (list Scalar))
}.

Section Execution.

Context `{Values} `{!Collaborators}.
Local Open Scope py_scope.

(** The value assigned to an output: a flat array, or the DOF array made
    from it when the target is a discretization. *)
Inductive Assigned : Type :=
  | Flat (values : list Scalar)
  | Unflattened (values : DOFArray).

(** The first loop of [_FMMGeometryData.target_info], from the current
    count on. *)
Fixpoint target_starts_from (ntargets_ : Z) (target_discrs_ : list TargetObject)
    : list Z * Z :=
  match target_discrs_ with
  | [] => ([], ntargets_)
  | target_discr :: rest =>
      let '(starts, total) :=
        target_starts_from (ntargets_ + ndofs target_discr) rest in
      (ntargets_ :: starts, total)
  end.

(** [_FMMGeometryData.target_info] *)
Definition target_info (geo_data : _FMMGeometryData) : result _TargetInfo :=
  let '(starts, ntargets_) := target_starts_from 0 (target_discrs geo_data) in
  let target_discr_starts_ := starts ++ [ntargets_] in
  rbind (assemble_targets (target_discrs geo_data) target_discr_starts_ ntargets_)
    (fun _ =>
       inr {| target_discr_starts := target_discr_starts_;
              ntargets := ntargets_ |}).

(** [cl.array.zeros(queue, n, dtype=np.int32)] followed by [a[:k] = 1]. *)
Definition ones_then_zeros (k n : Z) : result (list Z) :=
  if n <? 0 then inl (ValueError "negative dimensions are not allowed")
  else
    let ones := py_slice_bound (Z.to_nat n) k in
    inr (repeat 1 ones ++ repeat 0 (Z.to_nat n - ones)).

Definition MAX_LEAF_REFINE_WEIGHT : Z := 32.

(** [_FMMGeometryData.tree] *)
Definition tree (geo_data : _FMMGeometryData) : result Tree :=
  rbind (target_info geo_data) (fun target_info_ =>
  let nsources :=
    nnodes (Unregularized.density_discr (lpot_source geo_data)) in
  let nparticles := nsources + ntargets target_info_ in
  rbind (ones_then_zeros nsources nparticles) (fun refine_weights =>
  build_tree geo_data refine_weights MAX_LEAF_REFINE_WEIGHT)).

(** [_FMMGeometryData.traversal] *)
Definition traversal (geo_data : _FMMGeometryData) : result Traversal :=
  rbind (tree geo_data) build_traversal.

(** [UnregularizedLayerPotentialSource.fmm_geometry_data] *)
Definition fmm_geometry_data
    (self : Unregularized.UnregularizedLayerPotentialSource)
    (targets : list TargetObject) : _FMMGeometryData :=
  {| lpot_source := self; target_discrs := targets;
     geo_debug := Unregularized.debug self |}.

(** [UnregularizedLayerPotentialSource.expansion_wrangler_code_container];
    the sumpy container of this source has no QBX expansions and no FFT
    flag, which the shared record carries as the local expansion and
    [false]. *)
Definition expansion_wrangler_code_container
    (self : Unregularized.UnregularizedLayerPotentialSource)
    (fmm_kernel : Kernel) (out_kernels : list Kernel)
    : QBXSumpyExpansionWranglerCodeContainer :=
  {| sumpy_multipole_expansion_factory :=
       {| expn_factory := Unregularized.expansion_factory self;
          expn_kind := Multipole; expn_kernel := fmm_kernel |};
     sumpy_local_expansion_factory :=
       {| expn_factory := Unregularized.expansion_factory self;
          expn_kind := Local; expn_kernel := fmm_kernel |};
     sumpy_qbx_local_expansion_factory :=
       {| expn_factory := Unregularized.expansion_factory self;
          expn_kind := Local; expn_kernel := fmm_kernel |};
     sumpy_out_kernels := out_kernels;
     sumpy_use_fft := false |}.

(** [o.qbx_forced_limit not in (-1, 1)] *)
Definition limit_not_forced (l : option Z) : bool :=
  match l with
  | None => true
  | Some s => negb ((s =? -1) || (s =? 1))
  end.

(** The loop that gathers the unique target discretizations in
    [exec_compute_potential_insn_fmm], from the current dictionary and
    list. *)
Fixpoint gather_targets (bound_expr : BoundExpression) (os : list Output)
    (target_name_to_index : gmap DOFDescriptor nat) (targets : list TargetObject)
    : result (gmap DOFDescriptor nat * list TargetObject) :=
  match os with
  | [] => inr (target_name_to_index, targets)
  | o :: os' =>
      if negb (limit_not_forced (qbx_forced_limit o)) then inl AssertionError
      else
        match target_name_to_index !! target_name o with
        | Some _ => gather_targets bound_expr os' target_name_to_index targets
        | None =>
            gather_targets bound_expr os'
              (<[target_name o := List.length targets]> target_name_to_index)
              (targets ++
                 [places_get_geometry bound_expr (geometry (target_name o))])
        end
  end.

(** The slice made from the unpacked [starts[n:n+2]] of a Python list,
    applied to an array. *)
Definition target_slice (starts : list Z) (n : nat) (a : list Scalar)
    : result (list Scalar) :=
  match take 2 (drop n starts) with
  | [start; stop] => inr (py_slice start stop a)
  | [stop] => inr (py_slice 0 stop a)
  | _ => inl (TypeError "slice expected at least 1 argument, got 0")
  end.

(** [unflatten(actx, target_discr, result)] if the target is a
    [Discretization]. *)
Definition finish_result (target_discr : TargetObject) (values : list Scalar)
    : result Assigned :=
  match target_discr with
  | DiscretizationObject d =>
      rbind (unflatten d values) (fun a => inr (Unflattened a))
  | PointsObject _ => inr (Flat values)
  end.

(** The body of the loop that postprocesses the potentials of the FMM. *)
Definition fmm_output (target_name_to_index : gmap DOFDescriptor nat)
    (targets : list TargetObject) (starts : list Z)
    (all_potentials_on_every_tgt : list (list Scalar)) (o : Output)
    : result (string * Assigned) :=
  rbind (subscript target_name_to_index (target_name o)) (fun target_index =>
  rbind (index targets target_index) (fun target_discr =>
  rbind (index all_potentials_on_every_tgt (kernel_index o)) (fun potential =>
  rbind (target_slice starts target_index potential) (fun values =>
  rbind (finish_result target_discr values) (fun result_ =>
  inr (name o, result_)))))).

(** [UnregularizedLayerPotentialSource.exec_compute_potential_insn_fmm] *)
Definition exec_compute_potential_insn_fmm
    (self : Unregularized.UnregularizedLayerPotentialSource)
    (insn : Instruction) (bound_expr : BoundExpression)
    : M (list (string * Assigned)) :=
  gathered <- lift (gather_targets bound_expr (outputs insn) ∅ []) ;;
  let target_name_to_index := fst gathered in
  let targets := snd gathered in
  let geo_data := fmm_geometry_data self targets in
  flat_strengths <- lift (evaluate_strengths insn) ;;
  let out_kernels := kernels insn in
  fmm_kernel <- lift (get_fmm_kernel out_kernels) ;;
  output_and_expansion_dtype <-
    lift (get_fmm_output_and_expansion_dtype fmm_kernel flat_strengths) ;;
  tree_ <- lift (tree geo_data) ;;
  extra_kwargs <-
    lift (get_fmm_expansion_wrangler_extra_kwargs out_kernels tree_ insn) ;;
  wrangler <-
    lift (get_wrangler
            (expansion_wrangler_code_container self fmm_kernel out_kernels)
            tree_ output_and_expansion_dtype
            (Unregularized.fmm_level_to_order self)
            (snd extra_kwargs) (fst extra_kwargs)) ;;
  traversal_ <- lift (traversal geo_data) ;;
  log EvFmmDriver ;;;
  all_potentials_on_every_tgt <-
    lift (drive_fmm traversal_ wrangler flat_strengths) ;;
  target_info_ <- lift (target_info geo_data) ;;
  results <-
    lift (comprehension
            (fmm_output target_name_to_index targets
               (target_discr_starts target_info_) all_potentials_on_every_tgt)
            (outputs insn)) ;;
  ret results.

(** The body of the loop of [exec_compute_potential_insn_direct]. *)
Definition direct_output (insn : Instruction) (bound_expr : BoundExpression)
    (kernel_args : gmap string (list Scalar)) (flat_strengths : list Scalar)
    (o : Output) : M (string * Assigned) :=
  let target_discr :=
    places_get_discretization bound_expr (geometry (target_name o))
      (discr_stage (target_name o)) in
  log EvP2P ;;;
  output_for_each_kernel <-
    lift (p2p (kernels insn) target_discr flat_strengths kernel_args) ;;
  result_ <- lift (index output_for_each_kernel (kernel_index o)) ;;
  result_ <- lift (finish_result target_discr result_) ;;
  ret (name o, result_).

(** [UnregularizedLayerPotentialSource.exec_compute_potential_insn_direct] *)
Definition exec_compute_potential_insn_direct
    (self : Unregularized.UnregularizedLayerPotentialSource)
    (insn : Instruction) (bound_expr : BoundExpression)
    : M (list (string * Assigned)) :=
  kernel_args <- lift (evaluate_kernel_arguments insn) ;;
  flat_strengths <- lift (evaluate_strengths insn) ;;
  for_each (direct_output insn bound_expr kernel_args flat_strengths)
    (outputs insn).

(** [UnregularizedLayerPotentialSource.exec_compute_potential_insn]; both
    paths return their assignments with an empty dictionary of timing
    data. *)
Definition exec_compute_potential_insn
    (self : Unregularized.UnregularizedLayerPotentialSource)
    (insn : Instruction) (bound_expr : BoundExpression)
    (return_timing_data : bool) : M (list (string * Assigned)) :=
  match Unregularized.fmm_level_to_order self with
  | LtoFalse => exec_compute_potential_insn_direct self insn bound_expr
  | _ => exec_compute_potential_insn_fmm self insn bound_expr
  end.

End Execution.
End UnregularizedExecution.

(** ** The interaction lists of the fmmlib wrangler *)

(** [np.cumsum] *)
Fixpoint np_cumsum_from (acc : Z) (l : list Z) : list Z :=
  match l with
  | [] => []
  | x :: l' => (acc + x) :: np_cumsum_from (acc + x) l'
  end.

Definition np_cumsum (l : list Z) : list Z := np_cumsum_from 0 l.

(** [a[lo:hi] = values] for one-dimensional arrays: the shapes have to
    agree, except that a single value is broadcast. *)
Definition np_assign_slice {A} (a : list A) (lo hi : Z) (values : list A)
    : result (list A) :=
  let lo' := py_slice_bound (List.length a) lo in
  let hi' := py_slice_bound (List.length a) hi in
  let n := (hi' - lo')%nat in
  if bool_decide (List.length values = n) then
    inr (take lo' a ++ values ++ drop (lo' + n) a)
  else
    match values with
    | [v] => inr (take lo' a ++ repeat v n ++ drop (lo' + n) a)
    | _ => inl (ValueError "could not broadcast input array")
    end.

Module FMMLibP2QBXL.

(** What the preparation of the lists takes from the geometry data, the
    tree and the base class of the wrangler.  Integers are unbounded
    here: the counts are summed as Python and 64-bit integers. *)
Class Collaborators `{Values} : Type := {
  Centers : Type;
  (** [geo_data.traversal()], of which [neighbor_source_boxes_starts] and
      [neighbor_source_boxes_lists] are read *)
  neighbor_source_boxes : QBXFMMGeometryData -> result (list Z * list Z);
  (** [geo_data.qbx_center_to_target_box()] *)
  qbx_center_to_target_box : QBXFMMGeometryData -> result (list Z);
  (** [geo_data.centers()] *)
  qbx_centers : QBXFMMGeometryData -> result Centers;
  (** [geo_data.global_qbx_centers()] *)
  global_qbx_centers : QBXFMMGeometryData -> result (list Z);
  (** [self.tree.box_source_counts_nonchild] *)
  box_source_counts_nonchild : QBXFMMLibExpansionWrangler -> list Z;
  (** [self._get_source_slice(ibox)]: its start and stop *)
  get_source_slice : QBXFMMLibExpansionWrangler -> Z -> result (Z * Z);
  (** [np.empty(n, np.int32)] *)
  empty_int32 : nat -> list Z;
  (** [qbx_centers[:, geo_data.global_qbx_centers()]] *)
  take_centers : Centers -> list Z -> result Centers;
  (** [self.tree.nsources] *)
  tree_nsources : QBXFMMLibExpansionWrangler -> nat
}.

Record P2QBXLInfo `{Values} `{!Collaborators} : Type := {
  centers : Centers;
  center_source_starts : list Z;
  center_source_offsets : list Z;
  nsources_vec : list Z;
  rscale_vec : list Z;
  ngqbx_centers : nat
}.

Section Lists.

Context `{Values} `{!Collaborators}.
Local Open Scope res_scope.

(** [sum(self.tree.box_source_counts_nonchild[lists[isrc_box]]
    for isrc_box in range(isrc_box_start, isrc_box_stop))], from the
    current position on. *)
Fixpoint source_count (self : QBXFMMLibExpansionWrangler) (lists : list Z)
    (boxes : list Z) (total : Z) : result Z :=
  match boxes with
  | [] => inr total
  | isrc_box :: rest =>
      src_ibox <- np_getitem lists isrc_box ;;
      ns <- np_getitem (box_source_counts_nonchild self) src_ibox ;;
      source_count self lists rest (total + ns)
  end.

(** The first loop over the global centers: the entries appended to
    [center_source_counts]. *)
Fixpoint count_sources (self : QBXFMMLibExpansionWrangler)
    (qbx_center_to_target_box_ starts lists : list Z) (centers_ : list Z)
    : result (list Z) :=
  match centers_ with
  | [] => inr []
  | tgt_icenter :: rest =>
      itgt_box <- np_getitem qbx_center_to_target_box_ tgt_icenter ;;
      isrc_box_start <- np_getitem starts itgt_box ;;
      isrc_box_stop <- np_getitem starts (itgt_box + 1) ;;
      source_count_ <-
        source_count self lists (py_range isrc_box_start isrc_box_stop) 0 ;;
      counts <- count_sources self qbx_center_to_target_box_ starts lists rest ;;
      inr (source_count_ :: counts)
  end.

(** The inner loop of the second pass: the sources of the boxes of one
    center are entered at [isource]. *)
Fixpoint fill_boxes (self : QBXFMMLibExpansionWrangler) (lists : list Z)
    (boxes : list Z) (isource : Z) (center_source_offsets_ : list Z)
    : result (Z * list Z) :=
  match boxes with
  | [] => inr (isource, center_source_offsets_)
  | isrc_box :: rest =>
      src_ibox <- np_getitem lists isrc_box ;;
      src_pslice <- get_source_slice self src_ibox ;;
      ns <- np_getitem (box_source_counts_nonchild self) src_ibox ;;
      offsets <-
        np_assign_slice center_source_offsets_ isource (isource + ns)
          (py_range (fst src_pslice) (snd src_pslice)) ;;
      fill_boxes self lists rest (isource + ns) offsets
  end.

(** The second loop over the global centers, from the center number
    [itgt_center] on. *)
Fixpoint fill_centers (self : QBXFMMLibExpansionWrangler)
    (qbx_center_to_target_box_ starts lists center_source_starts_ : list Z)
    (itgt_center : nat) (centers_ : list Z) (isource : Z)
    (center_source_offsets_ : list Z) : result (list Z) :=
  match centers_ with
  | [] => inr center_source_offsets_
  | tgt_icenter :: rest =>
      expected <- index center_source_starts_ itgt_center ;;
      if negb (isource =? expected) then inl AssertionError else
      itgt_box <- np_getitem qbx_center_to_target_box_ tgt_icenter ;;
      isrc_box_start <- np_getitem starts itgt_box ;;
      isrc_box_stop <- np_getitem starts (itgt_box + 1) ;;
      filled <-
        fill_boxes self lists (py_range isrc_box_start isrc_box_stop) isource
          center_source_offsets_ ;;
      fill_centers self qbx_center_to_target_box_ starts lists
        center_source_starts_ (S itgt_center) rest (fst filled) (snd filled)
  end.

(** [QBXFMMLibExpansionWrangler._info_for_form_global_qbx_locals] *)
Definition _info_for_form_global_qbx_locals (self : QBXFMMLibExpansionWrangler)
    : result P2QBXLInfo :=
  let geo_data := w_geo_data self in
  traversal <- neighbor_source_boxes geo_data ;;
  let starts := fst traversal in
  let lists := snd traversal in
  qbx_center_to_target_box_ <- qbx_center_to_target_box geo_data ;;
  qbx_centers_ <- qbx_centers geo_data ;;
  global_qbx_centers_ <- global_qbx_centers geo_data ;;
  counts <-
    count_sources self qbx_center_to_target_box_ starts lists global_qbx_centers_ ;;
  let center_source_counts := 0 :: counts in
  let center_source_starts_ := np_cumsum center_source_counts in
  nsources_total <- np_getitem center_source_starts_ (-1) ;;
  if nsources_total <? 0
  then inl (ValueError "negative dimensions are not allowed") else
  let center_source_offsets_ := empty_int32 (Z.to_nat nsources_total) in
  center_source_offsets_ <-
    fill_centers self qbx_center_to_target_box_ starts lists
      center_source_starts_ 0 global_qbx_centers_ 0 center_source_offsets_ ;;
  centers_ <- take_centers qbx_centers_ global_qbx_centers_ ;;
  inr {| centers := centers_;
         center_source_starts := center_source_starts_;
         center_source_offsets := center_source_offsets_;
         nsources_vec := repeat 1 (tree_nsources self);
         rscale_vec := repeat 1 (List.length center_source_counts - 1);
         ngqbx_centers := List.length global_qbx_centers_ |}.

End Lists.
End FMMLibP2QBXL.

(** ** Translation of box locals to QBX locals by the fmmlib wrangler *)

Module FMMLibLocal.

(** Expansions with their addition, and what the translation takes from
    the geometry data, the tree and pyfmmlib. *)
Class Collaborators `{Values} : Type := {
  Expansion : Type;
  LocalExpansions : Type;
  Center : Type;
  zero_expansion : Expansion;
  add_expansion : Expansion -> Expansion -> Expansion;
  (** [geo_data.traversal().target_boxes] *)
  target_boxes : QBXFMMGeometryData -> result (list Z);
  (** [geo_data.qbx_center_to_target_box()] *)
  qbx_center_to_target_box : QBXFMMGeometryData -> result (list Z);
  (** [geo_data.centers()], by column *)
  qbx_centers : QBXFMMGeometryData -> result (list Center);
  (** [self.get_translation_routine] *)
  get_translation_routine : QBXFMMLibExpansionWrangler -> result unit;
  (** [self.tree.level_start_box_nrs] *)
  level_start_box_nrs : QBXFMMLibExpansionWrangler -> list Z;
  (** [self.local_expansions_view(local_exps, isrc_level)]: the number of
      the first box of the level (the view is not used) *)
  local_expansions_view :
    QBXFMMLibExpansionWrangler -> LocalExpansions -> nat -> result Z;
  (** the call of the translation routine on the level [isrc_level] with
      the order [nterms2], for the center [tgt_center] and the expansion
      and center of the box [src_ibox] *)
  locloc :
    QBXFMMLibExpansionWrangler -> LocalExpansions -> nat -> Z -> Center -> Z ->
    result Expansion
}.

Section Translation.

Context `{Values} `{!Substrate} `{!Collaborators}.
Local Open Scope res_scope.

(** [QBXFMMLibExpansionWrangler.qbx_local_expansion_zeros] *)
Definition qbx_local_expansion_zeros (self : QBXFMMLibExpansionWrangler)
    : list Expansion :=
  repeat zero_expansion (ncenters (w_geo_data self)).

(** The loop over the centers, on one level. *)
Fixpoint translate_centers (self : QBXFMMLibExpansionWrangler)
    (local_exps : LocalExpansions)
    (qbx_center_to_target_box_ target_boxes_ : list Z) (qbx_centers_ : list Center)
    (isrc_level : nat) (local_order lev_box_start lev_box_stop : Z)
    (tgt_icenters : list nat) (qbx_expansions : list Expansion)
    : result (list Expansion) :=
  match tgt_icenters with
  | [] => inr qbx_expansions
  | tgt_icenter :: rest =>
      isrc_box <- np_getitem qbx_center_to_target_box_ (Z.of_nat tgt_icenter) ;;
      tgt_center <- np_getitem qbx_centers_ (Z.of_nat tgt_icenter) ;;
      src_ibox <- np_getitem target_boxes_ isrc_box ;;
      let in_range := (lev_box_start <=? src_ibox) && (src_ibox <? lev_box_stop) in
      qbx_expansions' <-
        (if in_range then
           tmp_loc_exp <-
             locloc self local_exps isrc_level local_order tgt_center src_ibox ;;
           old <- index qbx_expansions tgt_icenter ;;
           inr (<[tgt_icenter := add_expansion old tmp_loc_exp]> qbx_expansions)
         else inr qbx_expansions) ;;
      translate_centers self local_exps qbx_center_to_target_box_ target_boxes_
        qbx_centers_ isrc_level local_order lev_box_start lev_box_stop rest
        qbx_expansions'
  end.

(** [lev_box_start, lev_box_stop =
     self.tree.level_start_box_nrs[isrc_level:isrc_level+2]] *)
Definition level_bounds (self : QBXFMMLibExpansionWrangler) (isrc_level : nat)
    : result (Z * Z) :=
  match take 2 (drop isrc_level (level_start_box_nrs self)) with
  | [lev_box_start; lev_box_stop] => inr (lev_box_start, lev_box_stop)
  | _ => inl (ValueError "not enough values to unpack (expected 2)")
  end.

(** The loop over the levels. *)
Fixpoint translate_levels (self : QBXFMMLibExpansionWrangler)
    (local_exps : LocalExpansions)
    (qbx_center_to_target_box_ target_boxes_ : list Z) (qbx_centers_ : list Center)
    (levels : list nat) (qbx_expansions : list Expansion)
    : result (list Expansion) :=
  match levels with
  | [] => inr qbx_expansions
  | isrc_level :: rest =>
      local_order <- index (w_level_orders self) isrc_level ;;
      bounds <- level_bounds self isrc_level ;;
      target_level_start_ibox <- local_expansions_view self local_exps isrc_level ;;
      if negb (target_level_start_ibox =? fst bounds) then inl AssertionError else
      qbx_expansions' <-
        translate_centers self local_exps qbx_center_to_target_box_ target_boxes_
          qbx_centers_ isrc_level local_order (fst bounds) (snd bounds)
          (seq 0 (ncenters (w_geo_data self))) qbx_expansions ;;
      translate_levels self local_exps qbx_center_to_target_box_ target_boxes_
        qbx_centers_ rest qbx_expansions'
  end.

(** [QBXFMMLibExpansionWrangler.translate_box_local_to_qbx_local] *)
Definition translate_box_local_to_qbx_local (self : QBXFMMLibExpansionWrangler)
    (local_exps : LocalExpansions) : result (list Expansion) :=
  let qbx_expansions := qbx_local_expansion_zeros self in
  let geo_data := w_geo_data self in
  if (ncenters geo_data =? 0)%nat then inr qbx_expansions else
  target_boxes_ <- target_boxes geo_data ;;
  qbx_center_to_target_box_ <- qbx_center_to_target_box geo_data ;;
  qbx_centers_ <- qbx_centers geo_data ;;
  _ <- get_translation_routine self ;;
  translate_levels self local_exps qbx_center_to_target_box_ target_boxes_
    qbx_centers_ (seq 0 (tree_nlevels geo_data)) qbx_expansions.

End Translation.
End FMMLibLocal.

(** ** Vocabulary of the statements *)

(** An override that [x or self.x] honours: one that is neither [None] nor
    falsy (zero, the empty string). *)
Definition given {A} `{Truthy A} (override : option A) : option A :=
  match override with
  | Some v => if truthy v then Some v else None
  | None => None
  end.

(** An override made through a [_not_provided] default. *)
Definition of_arg {A} (override : arg A) : option A :=
  match override with
  | provided v => Some v
  | not_provided => None
  end.

(** The copy carries the override if there is one, and the original value
    otherwise. *)
Definition carries {A} (override : option A) (original copied : A) : Prop :=
  match override with
  | Some v => copied = v
  | None => copied = original
  end.

(** The same for an attribute that may itself be [None]. *)
Definition carries_opt {A} (override : option A) (original copied : option A)
    : Prop :=
  match override with
  | Some v => copied = Some v
  | None => copied = original
  end.

(** The keyword arguments of a [copy] that overrides [cost_model] only. *)
Definition copy_with_cost_model (v : option CostModelT) : QBX.copy_args :=
  {| QBX.c_density_discr := None;
     QBX.c_fine_order := None;
     QBX.c_qbx_order := None;
     QBX.c_fmm_order := not_provided;
     QBX.c_fmm_level_to_order := not_provided;
     QBX.c_to_refined_connection := None;
     QBX.c_expansion_factory := None;
     QBX.c_target_association_tolerance := not_provided;
     QBX.c_expansions_in_tree_have_extent := not_provided;
     QBX.c_expansion_stick_out_factor := not_provided;
     QBX.c_max_leaf_refine_weight := None;
     QBX.c_box_extent_norm := None;
     QBX.c_from_sep_smaller_crit := None;
     QBX.c_tree_kind := None;
     QBX.c_use_target_specific_qbx := not_provided;
     QBX.c_geometry_data_inspector := None;
     QBX.c_cost_model := provided v;
     QBX.c_fmm_backend := None;
     QBX.c_use_fft := None;
     QBX.c_debug := not_provided;
     QBX.c_refined_for_global_qbx := not_provided;
     QBX.c_target_stick_out_factor := not_provided |}.

(** The keyword arguments of a [copy] that overrides [use_fft] only. *)
Definition copy_with_use_fft (v : bool) : QBX.copy_args :=
  {| QBX.c_density_discr := None;
     QBX.c_fine_order := None;
     QBX.c_qbx_order := None;
     QBX.c_fmm_order := not_provided;
     QBX.c_fmm_level_to_order := not_provided;
     QBX.c_to_refined_connection := None;
     QBX.c_expansion_factory := None;
     QBX.c_target_association_tolerance := not_provided;
     QBX.c_expansions_in_tree_have_extent := not_provided;
     QBX.c_expansion_stick_out_factor := not_provided;
     QBX.c_max_leaf_refine_weight := None;
     QBX.c_box_extent_norm := None;
     QBX.c_from_sep_smaller_crit := None;
     QBX.c_tree_kind := None;
     QBX.c_use_target_specific_qbx := not_provided;
     QBX.c_geometry_data_inspector := None;
     QBX.c_cost_model := not_provided;
     QBX.c_fmm_backend := None;
     QBX.c_use_fft := Some v;
     QBX.c_debug := not_provided;
     QBX.c_refined_for_global_qbx := not_provided;
     QBX.c_target_stick_out_factor := not_provided |}.

(** The deduplication key of an output. *)
Definition output_key (o : Output) : string * forced_limit :=
  (target_name o, qbx_forced_limit o).

(** The distinct elements of a list, each at its first occurrence. *)
Fixpoint first_occurrences {K} `{EqDecision K} (l : list K) : list K :=
  match l with
  | [] => []
  | k :: l' => k :: filter (fun k' => k' <> k) (first_occurrences l')
  end.

(** The list entry that a key stands for: the discretization of the target
    name, and the side. *)
Definition entry_of_key (bound_expr : BoundExpression)
    (k : string * forced_limit) : Discretization * Z :=
  (target_discr_of bound_expr (fst k), normalized_side (snd k)).

(** A dictionary that numbers the elements of a list by position. *)
Definition numbers_positions {K} `{Countable K} (m : gmap K nat) (ks : list K)
    : Prop :=
  forall k i, m !! k = Some i <-> ks !! i = Some k.

(** The number of targets that the association sent to a QBX center:
    the non-negative entries of the target-to-center array. *)
Definition associated_targets (tgt_to_qbx_center : list Z) : Z :=
  Z.of_nat (List.length (filter (fun c => 0 <= c) tgt_to_qbx_center)).

(** Every cached geometry object was constructed for the key it is stored
    under. *)
Definition cache_consistent (w : world) : Prop :=
  forall k g, geometry_cache w !! k = Some g ->
              geo_target_discrs_and_qbx_sides g = k.

(** A computation that maintains an invariant of the world, whether it
    returns or raises. *)
Definition maintains {A} (Inv : world -> Prop) (m : M A) : Prop :=
  forall w r w', Inv w -> m w = (r, w') -> Inv w'.

(** A kernel with one directional source derivative, if any, taken off. *)
Definition strip_source_derivative (k : Kernel) : Kernel :=
  match k with
  | DirectionalSourceDerivative inner_kernel _ => inner_kernel
  | _ => k
  end.

Definition is_helmholtz_3d (k : Kernel) : bool :=
  match k with
  | HelmholtzKernel kdim _ => kdim =? 3
  | _ => false
  end.

(** The 3D Helmholtz kernel, or an axis target derivative of it. *)
Definition helmholtz_3d_or_target_derivative (k : Kernel) : bool :=
  is_helmholtz_3d k
  || match k with
     | AxisTargetDerivative _ inner_kernel => is_helmholtz_3d inner_kernel
     | _ => false
     end.

(** The 3D Helmholtz kernel, possibly under a directional source derivative,
    or an axis target derivative of such a kernel. *)
Definition helmholtz_3d_layer_or_target_derivative (k : Kernel) : bool :=
  is_helmholtz_3d (strip_source_derivative k)
  || match k with
     | AxisTargetDerivative _ inner_kernel =>
         is_helmholtz_3d (strip_source_derivative inner_kernel)
     | _ => false
     end.

(** The positions, from [i] on, of the targets that have a center. *)
Fixpoint associated_positions_from (i : nat) (tgt_to_qbx_center : list Z)
    : list Z :=
  match tgt_to_qbx_center with
  | [] => []
  | c :: rest =>
      if 0 <=? c then Z.of_nat i :: associated_positions_from (S i) rest
      else associated_positions_from (S i) rest
  end.

Definition associated_positions (tgt_to_qbx_center : list Z) : list Z :=
  associated_positions_from 0 tgt_to_qbx_center.

(** The events of the direct path. *)
Definition direct_event (e : event) : Prop :=
  match e with
  | EvFmmDriver | EvInspector _ => False
  | _ => True
  end.

(** The names that a returned list of assignments assigns, in order. *)
Definition assigned_names `{Values} (r : ExecReturn) : list string :=
  match r with
  | ZeroPlaceholders assignments => map fst assignments
  | FmmPotentials assignments _ => map fst assignments
  | DirectPotentials assignments => map fst assignments
  end.

(** The world gained the events [evs], all of them satisfying [P]. *)
Definition gained (P : event -> Prop) (w0 w : world) : Prop :=
  exists evs, trace w = trace w0 ++ evs /\ Forall P evs.

(** A computation that, when it returns, returns a value satisfying [Q]. *)
Definition returns_only {A} (Q : A -> Prop) (m : M A) : Prop :=
  forall w a w', m w = (inr a, w') -> Q a.

(** The geometry that a target name of the unregularized source stands
    for. *)
Definition target_of_name (bound_expr : UnregularizedExecution.BoundExpression)
    (k : UnregularizedExecution.DOFDescriptor) : UnregularizedExecution.TargetObject :=
  UnregularizedExecution.places_get_geometry bound_expr
    (UnregularizedExecution.geometry k).

(** The number of degrees of freedom of a list of targets. *)
Fixpoint total_ndofs (ts : list UnregularizedExecution.TargetObject) : Z :=
  match ts with
  | [] => 0
  | t :: ts' => UnregularizedExecution.ndofs t + total_ndofs ts'
  end.

(** A list cut into consecutive segments of the given sizes. *)
Fixpoint split_by {A} (sizes : list nat) (l : list A) : list (list A) :=
  match sizes with
  | [] => []
  | n :: sizes' => take n l :: split_by sizes' (drop n l)
  end.

(** What the digest of the fmmlib wrangler records for one accepted output
    kernel: the name of its Helmholtz parameter, the entries it appends to
    [source_deriv_names] (one per call of [is_supported_helmknl]), and its
    entry of [outputs]. *)
Definition digest_of_kernel (k : Kernel)
    : option (string * list (option string) * list Z) :=
  match k with
  | HelmholtzKernel kdim n =>
      if kdim =? 3 then Some (n, [None], []) else None
  | DirectionalSourceDerivative (HelmholtzKernel kdim n) dir =>
      if kdim =? 3 then Some (n, [Some dir], []) else None
  | AxisTargetDerivative axis (HelmholtzKernel kdim n) =>
      if kdim =? 3 then Some (n, [None; None], [axis]) else None
  | AxisTargetDerivative axis
      (DirectionalSourceDerivative (HelmholtzKernel kdim n) dir) =>
      if kdim =? 3 then Some (n, [None; Some dir], [axis]) else None
  | _ => None
  end.

Definition is_axis_target_derivative (k : Kernel) : bool :=
  match k with
  | AxisTargetDerivative _ _ => true
  | _ => false
  end.

Section FmmlibEvaluationVocabulary.

Context `{Values} `{!FMMLibNumerics.Collaborators}.

(** Two lists of arrays that differ at most at the position that the index
    [output_slice] reads. *)
Definition unchanged_off (output_slice : Z) (output output' : list (list Scalar))
    : Prop :=
  Forall2 (fun a a' =>
             List.length a' = List.length a
             /\ forall t, np_position (List.length a) output_slice <> Some t ->
                          a' !! t = a !! t)
    output output'.

(** The entries at position [t] are zero in arrays of [n] entries. *)
Definition zero_at (n t : nat) (output : list (list Scalar)) : Prop :=
  Forall (fun a => List.length a = n /\ a !! t = Some FMMLibNumerics.zero) output.

End FmmlibEvaluationVocabulary.

(** The sum of a list of integers. *)
Definition sum_Z (l : list Z) : Z := foldr Z.add 0 l.

Section FmmlibInteractionListVocabulary.

Context `{Values} `{!FMMLibP2QBXL.Collaborators}.
Local Open Scope res_scope.

(** The source numbers of the boxes at the given positions of [lists],
    one box after the other. *)
Fixpoint sources_of_boxes (self : QBXFMMLibExpansionWrangler) (lists : list Z)
    (boxes : list Z) : result (list Z) :=
  match boxes with
  | [] => inr []
  | isrc_box :: rest =>
      src_ibox <- np_getitem lists isrc_box ;;
      src_pslice <- FMMLibP2QBXL.get_source_slice self src_ibox ;;
      sources <- sources_of_boxes self lists rest ;;
      inr (py_range (fst src_pslice) (snd src_pslice) ++ sources)
  end.

(** The source numbers of the neighbor source boxes of the target box of a
    center. *)
Definition sources_of_center (self : QBXFMMLibExpansionWrangler)
    (qbx_center_to_target_box starts lists : list Z) (tgt_icenter : Z)
    : result (list Z) :=
  itgt_box <- np_getitem qbx_center_to_target_box tgt_icenter ;;
  isrc_box_start <- np_getitem starts itgt_box ;;
  isrc_box_stop <- np_getitem starts (itgt_box + 1) ;;
  sources_of_boxes self lists (py_range isrc_box_start isrc_box_stop).

(** The slice of every box has as many sources as the tree counts for the
    box, which is what [_get_source_slice] of the base class returns. *)
Definition slices_match_counts (self : QBXFMMLibExpansionWrangler) : Prop :=
  forall b ns,
    np_getitem (FMMLibP2QBXL.box_source_counts_nonchild self) b = inr ns ->
    0 <= ns
    /\ exists start, FMMLibP2QBXL.get_source_slice self b = inr (start, start + ns).

End FmmlibInteractionListVocabulary.

Section FmmlibLocalVocabulary.

Context `{Values} `{!FMMLibLocal.Collaborators}.

(** The box lies on the level, by the level's first box and the next
    level's. *)
Definition on_level (self : QBXFMMLibExpansionWrangler) (src_ibox : Z)
    (isrc_level : nat) : bool :=
  match FMMLibLocal.level_bounds self isrc_level with
  | inr (lev_box_start, lev_box_stop) =>
      (lev_box_start <=? src_ibox) && (src_ibox <? lev_box_stop)
  | inl _ => false
  end.

(** What the translation routine returns for a center and its box on the
    given levels, in order. *)
Definition translated_from (self : QBXFMMLibExpansionWrangler)
    (local_exps : FMMLibLocal.LocalExpansions) (tgt_center : FMMLibLocal.Center)
    (src_ibox : Z) (levels : list nat)
    (translated : list FMMLibLocal.Expansion) : Prop :=
  Forall2
    (fun isrc_level tmp_loc_exp =>
       exists local_order,
         w_level_orders self !! isrc_level = Some local_order
         /\ FMMLibLocal.locloc self local_exps isrc_level local_order tgt_center
              src_ibox = inr tmp_loc_exp)
    (filter (fun isrc_level => on_level self src_ibox isrc_level = true) levels)
    translated.

End FmmlibLocalVocabulary.

(** ** Example inputs *)

Definition circle : Discretization :=
  {| discr_id := 0; ambient_dim := 2; dim := 1; real_dtype := float64;
     nnodes := 4 |}.

Definition probe_points : Discretization :=
  {| discr_id := 1; ambient_dim := 2; dim := 0; real_dtype := float64;
     nnodes := 3 |}.

(** [QBXLayerPotentialSource(circle, fine_order=4, qbx_order=2, fmm_order=5)] *)
Definition example_init_args : QBX.init_args :=
  {| QBX.i_density_discr := circle;
     QBX.i_fine_order := Some 4;
     QBX.i_qbx_order := Some 2;
     QBX.i_fmm_order := OrderInt 5;
     QBX.i_fmm_level_to_order := None;
     QBX.i_to_refined_connection := None;
     QBX.i_expansion_factory := None;
     QBX.i_target_association_tolerance := not_provided;
     QBX.i_debug := true;
     QBX.i_refined_for_global_qbx := false;
     QBX.i_expansions_in_tree_have_extent := true;
     QBX.i_expansion_stick_out_factor := 1 # 2;
     QBX.i_well_sep_is_n_away := 2;
     QBX.i_max_leaf_refine_weight := None;
     QBX.i_box_extent_norm := None;
     QBX.i_from_sep_smaller_crit := None;
     QBX.i_from_sep_smaller_min_nsources_cumul := None;
     QBX.i_tree_kind := Some "adaptive";
     QBX.i_use_target_specific_qbx := None;
     QBX.i_geometry_data_inspector := None;
     QBX.i_cost_model := None;
     QBX.i_fmm_backend := "sumpy";
     QBX.i_use_fft := true;
     QBX.i_target_stick_out_factor := not_provided |}.

(** The source that [example_init_args] constructs. *)
Definition example_source : QBX.QBXLayerPotentialSource :=
  {| QBX.density_discr := circle;
     QBX.fine_order := 4;
     QBX.qbx_order := 2;
     QBX.fmm_level_to_order := LtoFixed (OrderInt 5);
     QBX.target_association_tolerance := Some (1000 # 4503599627370496);
     QBX.fmm_backend := "sumpy";
     QBX.use_fft := true;
     QBX._to_refined_connection := None;
     QBX.expansion_factory := DefaultExpansionFactory;
     QBX.debug := true;
     QBX._refined_for_global_qbx := false;
     QBX._expansions_in_tree_have_extent := true;
     QBX._expansion_stick_out_factor := 1 # 2;
     QBX._well_sep_is_n_away := 2;
     QBX._max_leaf_refine_weight := 64;
     QBX._box_extent_norm := "l2";
     QBX._from_sep_smaller_crit := "precise_linf";
     QBX._from_sep_smaller_min_nsources_cumul := 15;
     QBX._tree_kind := Some "adaptive";
     QBX._use_target_specific_qbx := None;
     QBX.geometry_data_inspector := None;
     QBX.cost_model := Some CostModel |}.

Definition far_points : Discretization :=
  {| discr_id := 2; ambient_dim := 2; dim := 0; real_dtype := float64;
     nnodes := 2 |}.

(** Places with the source "circle" and the point sets "probe" and "far". *)
Definition example_bound_expr : BoundExpression :=
  {| places_get_geometry := fun target_name =>
       if String.eqb target_name "far" then TargetGeometry far_points
       else if String.eqb target_name "probe" then TargetGeometry probe_points
       else LayerPotentialSource circle;
     get_discretization := fun target_name =>
       if String.eqb target_name "far" then far_points
       else if String.eqb target_name "probe" then probe_points
       else circle |}.

Definition example_values : Values :=
  {| Scalar := Z; Extra := unit; SumpyWrangler := unit |}.

(** Collaborators for a circle with two expansion centers: the association
    fails for one of the two points of "far", and leaves one of the three
    points of "probe" without center. *)
Definition example_substrate : @Substrate example_values :=
  @Build_Substrate example_values
    (* target_state_FAILED *) (-2)
    (* user_target_to_center *)
    (fun g =>
       if bool_decide (far_points ∈ map fst (geo_target_discrs_and_qbx_sides g))
       then inr [-1; -1; 0; -2]
       else inr [-1; -1; 0; -1; 1])
    (* ncenters *) (fun _ => 2%nat)
    (* target_discr_starts *) (fun _ => [0; 3]%nat)
    (* tree_nlevels *) (fun _ => 1%nat)
    (* evaluate_strengths *) (fun _ => inr [1; 1; 1; 1])
    (* evaluate_kernel_arguments *) (fun _ => inr ∅)
    (* get_fmm_kernel *)
    (fun ks =>
       match ks with
       | k :: _ => inr k
       | [] => inl (ValueError "no kernels")
       end)
    (* get_fmm_output_and_expansion_dtype *) (fun _ _ => inr float64)
    (* get_fmm_expansion_wrangler_extra_kwargs *) (fun _ _ _ => inr (∅, ∅))
    (* sumpy_get_wrangler *) (fun _ _ => inr tt)
    (* drive_fmm *) (fun _ _ _ => inr ([[10; 20; 30]], tt))
    (* lpot_applier *) (fun _ _ _ _ _ => inr [[7; 7; 7; 7]])
    (* p2p *) (fun _ _ _ _ => inr [[1; 2; 3]])
    (* lpot_applier_on_tgt_subset *) (fun _ _ _ _ _ _ _ out => inr out)
    (* empty_int32 *) (fun n => repeat 0 n).

Definition example_driver : @FmmDriver example_values :=
  fun wrangler strengths _ _ _ =>
    @drive_fmm example_values example_substrate wrangler strengths false.

Definition laplace_2d : Kernel := LaplaceKernel 2.

Definition example_output (name_ target_name_ : string) (limit : option Z)
    : Output :=
  {| name := name_; target_name := target_name_; qbx_forced_limit := limit;
     kernel_index := 0 |}.

(** One potential on "probe", asked for without and with limits. *)
Definition probe_insn : Instruction :=
  {| outputs := [example_output "u" "probe" None;
                 example_output "v" "probe" (Some 0);
                 example_output "w" "probe" None];
     kernels := [laplace_2d] |}.

Definition far_insn : Instruction :=
  {| outputs := [example_output "u" "far" None]; kernels := [laplace_2d] |}.

Definition forced_probe_insn : Instruction :=
  {| outputs := [example_output "u" "circle" (Some 1);
                 example_output "v" "probe" (Some 1)];
     kernels := [laplace_2d] |}.

(** [example_source] with an inspection hook that vetoes every run. *)
Definition vetoed_source : QBX.QBXLayerPotentialSource :=
  {| QBX.density_discr := circle;
     QBX.fine_order := 4;
     QBX.qbx_order := 2;
     QBX.fmm_level_to_order := LtoFixed (OrderInt 5);
     QBX.target_association_tolerance := Some (1000 # 4503599627370496);
     QBX.fmm_backend := "sumpy";
     QBX.use_fft := true;
     QBX._to_refined_connection := None;
     QBX.expansion_factory := DefaultExpansionFactory;
     QBX.debug := true;
     QBX._refined_for_global_qbx := false;
     QBX._expansions_in_tree_have_extent := true;
     QBX._expansion_stick_out_factor := 1 # 2;
     QBX._well_sep_is_n_away := 2;
     QBX._max_leaf_refine_weight := 64;
     QBX._box_extent_norm := "l2";
     QBX._from_sep_smaller_crit := "precise_linf";
     QBX._from_sep_smaller_min_nsources_cumul := 15;
     QBX._tree_kind := Some "adaptive";
     QBX._use_target_specific_qbx := None;
     QBX.geometry_data_inspector := Some (fun _ _ _ => false);
     QBX.cost_model := Some CostModel |}.

(** [example_source] with an unknown backend. *)
Definition misconfigured_source : QBX.QBXLayerPotentialSource :=
  {| QBX.density_discr := circle;
     QBX.fine_order := 4;
     QBX.qbx_order := 2;
     QBX.fmm_level_to_order := LtoFixed (OrderInt 5);
     QBX.target_association_tolerance := Some (1000 # 4503599627370496);
     QBX.fmm_backend := "fmmlib3d";
     QBX.use_fft := false;
     QBX._to_refined_connection := None;
     QBX.expansion_factory := DefaultExpansionFactory;
     QBX.debug := true;
     QBX._refined_for_global_qbx := false;
     QBX._expansions_in_tree_have_extent := true;
     QBX._expansion_stick_out_factor := 1 # 2;
     QBX._well_sep_is_n_away := 2;
     QBX._max_leaf_refine_weight := 64;
     QBX._box_extent_norm := "l2";
     QBX._from_sep_smaller_crit := "precise_linf";
     QBX._from_sep_smaller_min_nsources_cumul := 15;
     QBX._tree_kind := Some "adaptive";
     QBX._use_target_specific_qbx := None;
     QBX.geometry_data_inspector := None;
     QBX.cost_model := Some CostModel |}.

Definition helmholtz_3d : Kernel := HelmholtzKernel 3 "k".

(** The double layer kernel of the 3D Helmholtz equation. *)
Definition helmholtz_3d_double_layer : Kernel :=
  DirectionalSourceDerivative helmholtz_3d "dsource_vec".

Definition example_fmmlib_code (ks : list Kernel)
    : QBXFMMLibExpansionWranglerCodeContainer :=
  {| multipole_expansion_factory :=
       {| expn_factory := DefaultExpansionFactory; expn_kind := Multipole;
          expn_kernel := helmholtz_3d |};
     local_expansion_factory :=
       {| expn_factory := DefaultExpansionFactory; expn_kind := Local;
          expn_kernel := helmholtz_3d |};
     qbx_local_expansion_factory :=
       {| expn_factory := DefaultExpansionFactory; expn_kind := Local;
          expn_kernel := helmholtz_3d |};
     out_kernels := ks |}.

Definition example_geo_data : QBXFMMGeometryData :=
  {| geo_id := 0;
     geo_target_discrs_and_qbx_sides := [(probe_points, 0)];
     geo_target_association_tolerance := Some (1000 # 4503599627370496);
     geo_tree_kind := Some "adaptive";
     geo_debug := true |}.

(** [QBXLayerPotentialSource(circle, 4, qbx_order=2, fmm_order=5,
    fmm_level_to_order=f)] *)
Definition conflicting_init_args : QBX.init_args :=
  {| QBX.i_density_discr := circle;
     QBX.i_fine_order := Some 4;
     QBX.i_qbx_order := Some 2;
     QBX.i_fmm_order := OrderInt 5;
     QBX.i_fmm_level_to_order := Some (LtoCallable (fun _ level => 5 + level));
     QBX.i_to_refined_connection := None;
     QBX.i_expansion_factory := None;
     QBX.i_target_association_tolerance := not_provided;
     QBX.i_debug := true;
     QBX.i_refined_for_global_qbx := false;
     QBX.i_expansions_in_tree_have_extent := true;
     QBX.i_expansion_stick_out_factor := 1 # 2;
     QBX.i_well_sep_is_n_away := 2;
     QBX.i_max_leaf_refine_weight := None;
     QBX.i_box_extent_norm := None;
     QBX.i_from_sep_smaller_crit := None;
     QBX.i_from_sep_smaller_min_nsources_cumul := None;
     QBX.i_tree_kind := Some "adaptive";
     QBX.i_use_target_specific_qbx := None;
     QBX.i_geometry_data_inspector := None;
     QBX.i_cost_model := None;
     QBX.i_fmm_backend := "sumpy";
     QBX.i_use_fft := false;
     QBX.i_target_stick_out_factor := not_provided |}.


(** [copy(fmm_order=5, fmm_level_to_order=f)] *)
Definition conflicting_copy_args : QBX.copy_args :=
  {| QBX.c_density_discr := None;
     QBX.c_fine_order := None;
     QBX.c_qbx_order := None;
     QBX.c_fmm_order := provided (OrderInt 5);
     QBX.c_fmm_level_to_order :=
       provided (Some (LtoCallable (fun _ level => 5 + level)));
     QBX.c_to_refined_connection := None;
     QBX.c_expansion_factory := None;
     QBX.c_target_association_tolerance := not_provided;
     QBX.c_expansions_in_tree_have_extent := not_provided;
     QBX.c_expansion_stick_out_factor := not_provided;
     QBX.c_max_leaf_refine_weight := None;
     QBX.c_box_extent_norm := None;
     QBX.c_from_sep_smaller_crit := None;
     QBX.c_tree_kind := None;
     QBX.c_use_target_specific_qbx := not_provided;
     QBX.c_geometry_data_inspector := None;
     QBX.c_cost_model := not_provided;
     QBX.c_fmm_backend := None;
     QBX.c_use_fft := None;
     QBX.c_debug := not_provided;
     QBX.c_refined_for_global_qbx := not_provided;
     QBX.c_target_stick_out_factor := not_provided |}.

(** [example_source] with the fmmlib backend. *)
Definition fmmlib_source : QBX.QBXLayerPotentialSource :=
  {| QBX.density_discr := circle;
     QBX.fine_order := 4;
     QBX.qbx_order := 2;
     QBX.fmm_level_to_order := LtoFixed (OrderInt 5);
     QBX.target_association_tolerance := Some (1000 # 4503599627370496);
     QBX.fmm_backend := "fmmlib";
     QBX.use_fft := false;
     QBX._to_refined_connection := None;
     QBX.expansion_factory := DefaultExpansionFactory;
     QBX.debug := true;
     QBX._refined_for_global_qbx := false;
     QBX._expansions_in_tree_have_extent := true;
     QBX._expansion_stick_out_factor := 1 # 2;
     QBX._well_sep_is_n_away := 2;
     QBX._max_leaf_refine_weight := 64;
     QBX._box_extent_norm := "l2";
     QBX._from_sep_smaller_crit := "precise_linf";
     QBX._from_sep_smaller_min_nsources_cumul := 15;
     QBX._tree_kind := Some "adaptive";
     QBX._use_target_specific_qbx := None;
     QBX.geometry_data_inspector := None;
     QBX.cost_model := Some CostModel |}.

(** Collaborators for which the association gives no target a center. *)
Definition unassociated_substrate : @Substrate example_values :=
  @Build_Substrate example_values
    (* target_state_FAILED *) (-2)
    (* user_target_to_center *) (fun _ => inr [-1; -1; -1; -1])
    (* ncenters *) (fun _ => 2%nat)
    (* target_discr_starts *) (fun _ => [0; 2]%nat)
    (* tree_nlevels *) (fun _ => 1%nat)
    (* evaluate_strengths *) (fun _ => inr [1; 1; 1; 1])
    (* evaluate_kernel_arguments *) (fun _ => inr ∅)
    (* get_fmm_kernel *)
    (fun ks =>
       match ks with
       | k :: _ => inr k
       | [] => inl (ValueError "no kernels")
       end)
    (* get_fmm_output_and_expansion_dtype *) (fun _ _ => inr float64)
    (* get_fmm_expansion_wrangler_extra_kwargs *) (fun _ _ _ => inr (∅, ∅))
    (* sumpy_get_wrangler *) (fun _ _ => inr tt)
    (* drive_fmm *) (fun _ _ _ => inr ([[10; 20]], tt))
    (* lpot_applier *) (fun _ _ _ _ _ => inr [[7; 7; 7; 7]])
    (* p2p *) (fun _ _ _ _ => inr [[1; 2]])
    (* lpot_applier_on_tgt_subset *) (fun _ _ _ _ _ _ _ out => inr out)
    (* empty_int32 *) (fun n => repeat 0 n).

(** A wrangler of the fmmlib backend for the single layer potential and
    its derivative along the first axis. *)
Definition example_fmmlib_kernels : list Kernel :=
  [helmholtz_3d; AxisTargetDerivative 0 helmholtz_3d].

Definition example_fmmlib_wrangler : @QBXFMMLibExpansionWrangler example_values :=
  @Build_QBXFMMLibExpansionWrangler example_values
    (* w_code *) (example_fmmlib_code example_fmmlib_kernels)
    (* w_geo_data *) example_geo_data
    (* w_qbx_order *) 2
    (* w_outputs *) [[]; [0]]
    (* w_level_orders *) [5]
    (* w_helmholtz_k *) [2]
    (* w_dipole_vec *) None
    (* w_dipoles_already_reordered *) true
    (* w_nterms *) 5
    (* w_ifgrad *) true.

(** An unregularized source on the circle, with a fixed FMM order and
    set to direct evaluation. *)
Definition example_unregularized_source
    : Unregularized.UnregularizedLayerPotentialSource :=
  {| Unregularized.density_discr := circle;
     Unregularized.debug := true;
     Unregularized.fmm_level_to_order := LtoFixed (OrderInt 5);
     Unregularized.expansion_factory := DefaultExpansionFactory |}.

Definition direct_unregularized_source
    : Unregularized.UnregularizedLayerPotentialSource :=
  {| Unregularized.density_discr := circle;
     Unregularized.debug := true;
     Unregularized.fmm_level_to_order := LtoFalse;
     Unregularized.expansion_factory := DefaultExpansionFactory |}.

(** Places with the discretization "circle" and the point set "probe". *)
Definition example_unregularized_places : UnregularizedExecution.BoundExpression :=
  {| UnregularizedExecution.places_get_geometry := fun geometry_ =>
       if String.eqb geometry_ "probe"
       then UnregularizedExecution.PointsObject probe_points
       else UnregularizedExecution.DiscretizationObject circle;
     UnregularizedExecution.places_get_discretization := fun geometry_ _ =>
       if String.eqb geometry_ "probe"
       then UnregularizedExecution.PointsObject probe_points
       else UnregularizedExecution.DiscretizationObject circle |}.

Definition example_collaborators
    : @UnregularizedExecution.Collaborators example_values :=
  @UnregularizedExecution.Build_Collaborators example_values
    (* DOFArray *) (list Z)
    (* Tree *) unit
    (* Traversal *) unit
    (* evaluate_strengths *) (fun _ => inr [1; 1; 1; 1])
    (* evaluate_kernel_arguments *) (fun _ => inr ∅)
    (* p2p *)
    (fun _ target _ _ =>
       inr [repeat 1 (Z.to_nat (UnregularizedExecution.ndofs target))])
    (* unflatten *)
    (fun d values =>
       if Z.of_nat (List.length values) =? nnodes d then inr values
       else inl (ValueError "array has the wrong size"))
    (* get_fmm_kernel *)
    (fun ks =>
       match ks with
       | k :: _ => inr k
       | [] => inl (ValueError "no kernels")
       end)
    (* get_fmm_output_and_expansion_dtype *) (fun _ _ => inr float64)
    (* get_fmm_expansion_wrangler_extra_kwargs *) (fun _ _ _ => inr (∅, ∅))
    (* assemble_targets *) (fun _ _ _ => inr tt)
    (* build_tree *) (fun _ _ _ => inr tt)
    (* build_traversal *) (fun _ => inr tt)
    (* get_wrangler *) (fun _ _ _ _ _ _ => inr tt)
    (* drive_fmm *) (fun _ _ _ => inr [[11; 12; 13; 21; 22; 23; 24]]).

Definition unregularized_output (name_ geometry_ : string) (limit : option Z)
    : UnregularizedExecution.Output :=
  {| UnregularizedExecution.name := name_;
     UnregularizedExecution.target_name :=
       {| UnregularizedExecution.geometry := geometry_;
          UnregularizedExecution.discr_stage := None;
          UnregularizedExecution.granularity := None |};
     UnregularizedExecution.qbx_forced_limit := limit;
     UnregularizedExecution.kernel_index := 0 |}.

Definition unregularized_insn : UnregularizedExecution.Instruction :=
  {| UnregularizedExecution.outputs :=
       [unregularized_output "u" "probe" None;
        unregularized_output "v" "circle" None;
        unregularized_output "w" "probe" (Some 2)];
     UnregularizedExecution.kernels := [laplace_2d] |}.

Definition forced_unregularized_insn : UnregularizedExecution.Instruction :=
  {| UnregularizedExecution.outputs :=
       [unregularized_output "u" "probe" None;
        unregularized_output "v" "circle" (Some 1)];
     UnregularizedExecution.kernels := [laplace_2d] |}.

Definition example_unregularized_geo_data : UnregularizedExecution._FMMGeometryData :=
  {| UnregularizedExecution.lpot_source := example_unregularized_source;
     UnregularizedExecution.target_discrs :=
       [UnregularizedExecution.PointsObject probe_points;
        UnregularizedExecution.DiscretizationObject circle];
     UnregularizedExecution.geo_debug := true |}.

(** What the two paths assign for [unregularized_insn] with
    [example_collaborators]. *)
Definition unregularized_fmm_results
    : list (string * @UnregularizedExecution.Assigned example_values
                       example_collaborators) :=
  [("u", @UnregularizedExecution.Flat example_values example_collaborators
           [11; 12; 13]);
   ("v", @UnregularizedExecution.Unflattened example_values
           example_collaborators [21; 22; 23; 24]);
   ("w", @UnregularizedExecution.Flat example_values example_collaborators
           [11; 12; 13])].

Definition unregularized_direct_results
    : list (string * @UnregularizedExecution.Assigned example_values
                       example_collaborators) :=
  [("u", @UnregularizedExecution.Flat example_values example_collaborators
           [1; 1; 1]);
   ("v", @UnregularizedExecution.Unflattened example_values
           example_collaborators [1; 1; 1; 1]);
   ("w", @UnregularizedExecution.Flat example_values example_collaborators
           [1; 1; 1])].

(** A cost model that returns nothing of interest, on a wrangler whose
    zero arrays have three entries. *)
Definition example_cost_collaborators : @CostCollaborators example_values :=
  @Build_CostCollaborators example_values
    (* apply_cost_model *) (fun _ _ _ _ _ => inr tt)
    (* full_output_zeros *) (fun _ => inr [[0; 0; 0]])
    (* finalize_potentials *) (fun _ potential => inr potential).

Definition cost_model_results : list (string * list Z) :=
  [("u", [0; 0; 0]); ("v", [0; 0; 0]); ("w", [0; 0; 0])].

(** Three targets, of which the first global center owns the last and the
    second the first; every evaluation gives the potential 5 and the
    gradient (1, 2, 3). *)
Definition example_evaluation : @FMMLibNumerics.Collaborators example_values :=
  @FMMLibNumerics.Build_Collaborators example_values
    (* Expansions *) unit
    (* zero *) 0
    (* add *) Z.add
    (* is_zero *) (fun g => g =? 0)
    (* tree_ntargets *) (fun _ => 3%nat)
    (* center_to_tree_targets *) (fun _ => inr ([0; 1; 2], [2; 0]))
    (* global_qbx_centers *) (fun _ => inr [0; 1])
    (* evaluation_setup *) (fun _ => inr tt)
    (* taeval *)
    (fun _ _ _ _ => inr (5, @FMMLibNumerics.GradArray example_values [1; 2; 3])).

(** Two boxes, with two sources and one source; three centers in the
    target boxes 0, 1 and 1, of which the first and the last are global
    in the geometry data 0; the geometry data 1 names a center that does
    not exist. *)
Definition example_lists : @FMMLibP2QBXL.Collaborators example_values :=
  @FMMLibP2QBXL.Build_Collaborators example_values
    (* Centers *) unit
    (* neighbor_source_boxes *) (fun _ => inr ([0; 1; 3], [0; 1; 0]))
    (* qbx_center_to_target_box *) (fun _ => inr [0; 1; 1])
    (* qbx_centers *) (fun _ => inr tt)
    (* global_qbx_centers *)
    (fun g => if (geo_id g =? 0)%nat then inr [0; 2] else inr [7])
    (* box_source_counts_nonchild *) (fun _ => [2; 1])
    (* get_source_slice *)
    (fun _ b => if (b =? 0) || (b =? -2) then inr (0, 2) else inr (2, 3))
    (* empty_int32 *) (fun n => repeat 0 n)
    (* take_centers *) (fun _ _ => inr tt)
    (* tree_nsources *) (fun _ => 3%nat).

Definition example_info : @FMMLibP2QBXL.P2QBXLInfo example_values example_lists :=
  @FMMLibP2QBXL.Build_P2QBXLInfo example_values example_lists
    (* centers *) tt
    (* center_source_starts *) [0; 2; 5]
    (* center_source_offsets *) [0; 1; 2; 0; 1]
    (* nsources_vec *) [1; 1; 1]
    (* rscale_vec *) [1; 1]
    (* ngqbx_centers *) 2%nat.

Definition stale_geo_data : QBXFMMGeometryData :=
  {| geo_id := 1;
     geo_target_discrs_and_qbx_sides := [(probe_points, 0)];
     geo_target_association_tolerance := Some (1000 # 4503599627370496);
     geo_tree_kind := Some "adaptive";
     geo_debug := true |}.

Definition stale_fmmlib_wrangler : @QBXFMMLibExpansionWrangler example_values :=
  @Build_QBXFMMLibExpansionWrangler example_values
    (* w_code *) (example_fmmlib_code example_fmmlib_kernels)
    (* w_geo_data *) stale_geo_data
    (* w_qbx_order *) 2
    (* w_outputs *) [[]; [0]]
    (* w_level_orders *) [5]
    (* w_helmholtz_k *) [2]
    (* w_dipole_vec *) None
    (* w_dipoles_already_reordered *) true
    (* w_nterms *) 5
    (* w_ifgrad *) true.

(** One level with the boxes 0 and 1, the target boxes of the two centers;
    expansions are numbers, and a translation from the box [b] gives
    [10 + b]. *)
Definition example_translation : @FMMLibLocal.Collaborators example_values :=
  @FMMLibLocal.Build_Collaborators example_values
    (* Expansion *) Z
    (* LocalExpansions *) unit
    (* Center *) unit
    (* zero_expansion *) 0
    (* add_expansion *) Z.add
    (* target_boxes *) (fun _ => inr [0; 1])
    (* qbx_center_to_target_box *) (fun _ => inr [0; 1])
    (* qbx_centers *) (fun _ => inr [tt; tt])
    (* get_translation_routine *) (fun _ => inr tt)
    (* level_start_box_nrs *) (fun _ => [0; 2])
    (* local_expansions_view *) (fun _ _ _ => inr 0)
    (* locloc *) (fun _ _ _ _ _ src_ibox => inr (10 + src_ibox)).

(** * Properties *)

(** ** Construction and copy *)


(** C4: a construction, or a copy, that supplies both a fixed [fmm_order] and
    an [fmm_level_to_order] raises during argument processing: no source
    object results, for the QBX source (constructor and [copy]) and for the
    unregularized source (whose [copy] has no [fmm_order] argument). *)
Theorem conflicting_orders_rejected :
  (forall (a : QBX.init_args) (n : Z) (f : LevelToOrder),
      QBX.i_fmm_order a = OrderInt n ->
      QBX.i_fmm_level_to_order a = Some f ->
      is_error (QBX.__init__ a))
  /\ (forall (self : QBX.QBXLayerPotentialSource) (c : QBX.copy_args) (n : Z)
        (f : option LevelToOrder),
      QBX.c_fmm_order c = provided (OrderInt n) ->
      QBX.c_fmm_level_to_order c = provided f ->
      is_error (QBX.copy self c))
  /\ (forall (d : Discretization) (n : Z) (f : LevelToOrder)
        (expansion_factory : option ExpansionFactory) (debug : bool),
      Unregularized.__init__ d (OrderInt n) (Some f) expansion_factory debug
      = inl (TypeError QBX.both_orders_msg)).
Proof.
  split; [|split].
  - intros a n f Ho Hf. unfold QBX.__init__.
    destruct (QBX.i_fine_order a); [|exact I].
    destruct (QBX.i_qbx_order a); [|exact I].
    destruct (QBX.init_tolerance_arg _ _); [exact I|].
    simpl. rewrite Ho, Hf. exact I.
  - intros self c n f Ho Hf. unfold QBX.copy.
    destruct (QBX.copy_tolerance_arg _ _ _); [exact I|].
    simpl. rewrite Ho, Hf. exact I.
  - reflexivity.
Qed.


Example example_source_constructed :
  QBX.__init__ example_init_args = inr example_source.
Proof. reflexivity. Qed.

(** A constructed source stores a tolerance and a cost model. *)
Lemma constructed_source_inv (a : QBX.init_args) (s : QBX.QBXLayerPotentialSource) :
  QBX.__init__ a = inr s ->
  (exists t, QBX.target_association_tolerance s = Some t)
  /\ (exists m, QBX.cost_model s = Some m).
Proof.
  unfold QBX.__init__.
  destruct (QBX.i_fine_order a); [|discriminate].
  destruct (QBX.i_qbx_order a); [|discriminate].
  destruct (QBX.init_tolerance_arg _ _) as [e|[|[t|]]]; simpl; try discriminate;
    destruct (QBX.i_fmm_order a), (QBX.i_fmm_level_to_order a);
    intros Hs; try discriminate; injection Hs as <-; simpl; eauto.
Qed.

(** The slip at [use_fft=use_fft or self.use_fft]: a copy cannot switch the
    FFT off, unlike the boolean attributes handled with [_not_provided]. *)
Example copy_use_fft_false_is_ignored :
  QBX.use_fft example_source = true
  /\ QBX.copy example_source (copy_with_use_fft false) = inr example_source.
Proof. split; reflexivity. Qed.

(** C8, as stated, fails: [cost_model=None] is accepted as an override by
    [copy] (its default is [_not_provided]), yet the copy does not carry
    [None] but the default cost model that the constructor substitutes. *)
Lemma copy_override_not_always_carried :
  ~ (forall (self s' : QBX.QBXLayerPotentialSource) (v : option CostModelT),
        QBX.copy self (copy_with_cost_model v) = inr s' ->
        QBX.cost_model s' = v).
Proof.
  intros Hclaim.
  specialize (Hclaim example_source example_source None eq_refl).
  discriminate Hclaim.
Qed.

(** C8 (amended): for a constructed source, [copy()] without arguments
    returns a source equal to the original in every attribute, and in any
    successful copy every attribute is either the original's or the
    override's: an override counts when it is not the argument's default
    and, for the attributes merged with [or], when it is truthy;
    [cost_model=None] selects the default cost model, a fixed [fmm_order]
    replaces the level-to-order function, and [_well_sep_is_n_away] and
    [_from_sep_smaller_min_nsources_cumul] cannot be overridden.  For
    [use_fft] only the override [True] is covered. *)
Theorem copy_keeps_or_overrides_every_field :
  forall (a : QBX.init_args) (self : QBX.QBXLayerPotentialSource),
    QBX.__init__ a = inr self ->
    QBX.copy self QBX.copy_defaults = inr self
    /\ forall (c : QBX.copy_args) (s' : QBX.QBXLayerPotentialSource),
        QBX.copy self c = inr s' ->
        carries (QBX.c_density_discr c) (QBX.density_discr self) (QBX.density_discr s')
        /\ carries (QBX.c_fine_order c) (QBX.fine_order self) (QBX.fine_order s')
        /\ carries (QBX.c_qbx_order c) (QBX.qbx_order self) (QBX.qbx_order s')
        /\ match QBX.c_fmm_order c, QBX.c_fmm_level_to_order c with
           | not_provided, not_provided =>
               QBX.fmm_level_to_order s' = QBX.fmm_level_to_order self
           | not_provided, provided (Some f) => QBX.fmm_level_to_order s' = f
           | not_provided, provided None =>
               QBX.fmm_level_to_order s' = LtoFixed OrderNone
           | provided OrderFalse, _ => QBX.fmm_level_to_order s' = LtoFalse
           | provided o, _ => QBX.fmm_level_to_order s' = LtoFixed o
           end
        /\ match QBX.c_target_stick_out_factor c with
           | provided f => QBX.target_association_tolerance s' = f
           | not_provided =>
               carries (of_arg (QBX.c_target_association_tolerance c))
                 (QBX.target_association_tolerance self)
                 (QBX.target_association_tolerance s')
           end
        /\ carries (given (QBX.c_fmm_backend c)) (QBX.fmm_backend self)
             (QBX.fmm_backend s')
        /\ (QBX.c_use_fft c = None -> QBX.use_fft s' = QBX.use_fft self)
        /\ (QBX.c_use_fft c = Some true -> QBX.use_fft s' = true)
        /\ carries_opt (QBX.c_to_refined_connection c)
             (QBX._to_refined_connection self) (QBX._to_refined_connection s')
        /\ carries (QBX.c_expansion_factory c) (QBX.expansion_factory self)
             (QBX.expansion_factory s')
        /\ carries (of_arg (QBX.c_debug c)) (QBX.debug self) (QBX.debug s')
        /\ carries (of_arg (QBX.c_refined_for_global_qbx c))
             (QBX._refined_for_global_qbx self) (QBX._refined_for_global_qbx s')
        /\ carries (of_arg (QBX.c_expansions_in_tree_have_extent c))
             (QBX._expansions_in_tree_have_extent self)
             (QBX._expansions_in_tree_have_extent s')
        /\ carries (of_arg (QBX.c_expansion_stick_out_factor c))
             (QBX._expansion_stick_out_factor self)
             (QBX._expansion_stick_out_factor s')
        /\ QBX._well_sep_is_n_away s' = QBX._well_sep_is_n_away self
        /\ carries (given (QBX.c_max_leaf_refine_weight c))
             (QBX._max_leaf_refine_weight self) (QBX._max_leaf_refine_weight s')
        /\ carries (given (QBX.c_box_extent_norm c)) (QBX._box_extent_norm self)
             (QBX._box_extent_norm s')
        /\ carries (given (QBX.c_from_sep_smaller_crit c))
             (QBX._from_sep_smaller_crit self) (QBX._from_sep_smaller_crit s')
        /\ QBX._from_sep_smaller_min_nsources_cumul s'
           = QBX._from_sep_smaller_min_nsources_cumul self
        /\ carries_opt (given (QBX.c_tree_kind c)) (QBX._tree_kind self)
             (QBX._tree_kind s')
        /\ carries (of_arg (QBX.c_use_target_specific_qbx c))
             (QBX._use_target_specific_qbx self) (QBX._use_target_specific_qbx s')
        /\ carries_opt (QBX.c_geometry_data_inspector c)
             (QBX.geometry_data_inspector self) (QBX.geometry_data_inspector s')
        /\ match QBX.c_cost_model c with
           | not_provided => QBX.cost_model s' = QBX.cost_model self
           | provided (Some m) => QBX.cost_model s' = Some m
           | provided None => QBX.cost_model s' = Some CostModel
           end.
Proof.
  intros a self Hinit.
  destruct (constructed_source_inv a self Hinit) as [[t Ht] [m Hm]].
  split.
  - destruct self; simpl in *; subst. reflexivity.
  - intros c s'. unfold QBX.copy.
    destruct (QBX.copy_tolerance_arg self _ _) as [e|tol] eqn:Htol; [discriminate|].
    destruct (QBX.copy_order_kwargs self _ _) as [e|kw] eqn:Hkw; [discriminate|].
    unfold QBX.__init__. cbn [rbind QBX.i_fine_order QBX.i_qbx_order
      QBX.i_target_association_tolerance QBX.i_target_stick_out_factor
      QBX.init_tolerance_arg QBX.i_fmm_order QBX.i_fmm_level_to_order].
    destruct tol as [tol|]; [|destruct (fst kw), (snd kw); discriminate].
    assert (Hres : forall r : QBX.QBXLayerPotentialSource,
               match fst kw, snd kw with
               | (OrderFalse | OrderInt _), Some _ =>
                   inl (TypeError QBX.both_orders_msg)
               | _, _ => inr r
               end = inr s' ->
               r = s' /\ (fst kw = OrderNone \/ snd kw = None)).
    { intros r. destruct (fst kw), (snd kw); intros Hr; try discriminate;
        injection Hr as <-; auto. }
    intros Hs. apply Hres in Hs as [<- Hord]. clear Hres.
    cbn [QBX.density_discr QBX.fine_order QBX.qbx_order QBX.fmm_level_to_order
         QBX.target_association_tolerance QBX.fmm_backend QBX.use_fft
         QBX._to_refined_connection QBX.expansion_factory QBX.debug
         QBX._refined_for_global_qbx QBX._expansions_in_tree_have_extent
         QBX._expansion_stick_out_factor QBX._well_sep_is_n_away
         QBX._max_leaf_refine_weight QBX._box_extent_norm
         QBX._from_sep_smaller_crit QBX._from_sep_smaller_min_nsources_cumul
         QBX._tree_kind QBX._use_target_specific_qbx
         QBX.geometry_data_inspector QBX.cost_model
         QBX.i_density_discr QBX.i_to_refined_connection QBX.i_expansion_factory
         QBX.i_debug QBX.i_refined_for_global_qbx
         QBX.i_expansions_in_tree_have_extent QBX.i_expansion_stick_out_factor
         QBX.i_well_sep_is_n_away QBX.i_max_leaf_refine_weight
         QBX.i_box_extent_norm QBX.i_from_sep_smaller_crit
         QBX.i_from_sep_smaller_min_nsources_cumul QBX.i_tree_kind
         QBX.i_use_target_specific_qbx QBX.i_geometry_data_inspector
         QBX.i_cost_model QBX.i_fmm_backend QBX.i_use_fft if_not_None].
    repeat split.
    + destruct (QBX.c_density_discr c); reflexivity.
    + destruct (QBX.c_fine_order c); reflexivity.
    + destruct (QBX.c_qbx_order c); reflexivity.
    + unfold QBX.copy_order_kwargs in Hkw.
      destruct (QBX.c_fmm_order c) as [|o], (QBX.c_fmm_level_to_order c) as [|[f|]];
        try discriminate; injection Hkw as <-; try reflexivity;
        destruct o; reflexivity.
    + unfold QBX.copy_tolerance_arg in Htol.
      destruct (QBX.c_target_stick_out_factor c),
        (QBX.c_target_association_tolerance c);
        try discriminate; injection Htol as ->; simpl; congruence.
    + unfold given, or_attr. destruct (QBX.c_fmm_backend c) as [b|]; simpl; [|done].
      destruct (truthy b); reflexivity.
    + intros ->. reflexivity.
    + intros ->. reflexivity.
    + unfold py_or. destruct (QBX.c_to_refined_connection c); reflexivity.
    + destruct (QBX.c_expansion_factory c); reflexivity.
    + destruct (QBX.c_debug c); reflexivity.
    + destruct (QBX.c_refined_for_global_qbx c); reflexivity.
    + destruct (QBX.c_expansions_in_tree_have_extent c); reflexivity.
    + destruct (QBX.c_expansion_stick_out_factor c); reflexivity.
    + unfold given, or_attr. destruct (QBX.c_max_leaf_refine_weight c) as [b|];
        simpl; [|done]. destruct (truthy b); reflexivity.
    + unfold given, or_attr. destruct (QBX.c_box_extent_norm c) as [b|];
        simpl; [|done]. destruct (truthy b); reflexivity.
    + unfold given, or_attr. destruct (QBX.c_from_sep_smaller_crit c) as [b|];
        simpl; [|done]. destruct (truthy b); reflexivity.
    + unfold given, py_or. destruct (QBX.c_tree_kind c) as [[|ch b]|]; reflexivity.
    + destruct (QBX.c_use_target_specific_qbx c); reflexivity.
    + unfold py_or. destruct (QBX.c_geometry_data_inspector c); reflexivity.
    + destruct (QBX.c_cost_model c) as [|[cm|]]; simpl; try reflexivity.
      rewrite Hm. reflexivity.
Qed.

(** ** Gathering the targets of an instruction *)

Section FirstOccurrences.

Context {K : Type} `{Countable K}.

Lemma first_occurrences_elem_of (l : list K) (k : K) :
  k ∈ first_occurrences l <-> k ∈ l.
Proof.
  induction l as [|x l IH]; simpl; [reflexivity|].
  rewrite !elem_of_cons, list_elem_of_filter, IH.
  destruct (decide (k = x)); tauto.
Qed.

Lemma first_occurrences_NoDup (l : list K) : NoDup (first_occurrences l).
Proof.
  induction l as [|x l IH]; simpl; constructor.
  - rewrite list_elem_of_filter. intros [Hne _]. by apply Hne.
  - by apply NoDup_filter.
Qed.

Lemma filter_not_seen_known (ks l : list K) (k : K) :
  k ∈ ks ->
  filter (fun k' => k' ∉ ks) (filter (fun k' => k' <> k) l)
  = filter (fun k' => k' ∉ ks) l.
Proof.
  intros Hk. rewrite list_filter_filter. apply list_filter_iff.
  intros k'. split; [tauto|]. intros Hk'. split; [done|]. congruence.
Qed.

Lemma filter_not_seen_snoc (ks l : list K) (k : K) :
  filter (fun k' => k' ∉ ks ++ [k]) l
  = filter (fun k' => k' ∉ ks) (filter (fun k' => k' <> k) l).
Proof.
  rewrite list_filter_filter. apply list_filter_iff.
  intros k'. rewrite elem_of_app, list_elem_of_singleton. tauto.
Qed.

Lemma numbers_positions_elem_of (m : gmap K nat) (ks : list K) (k : K) :
  numbers_positions m ks -> (is_Some (m !! k) <-> k ∈ ks).
Proof.
  intros Hm. rewrite list_elem_of_lookup. unfold is_Some.
  split; intros [i Hi]; exists i; by apply Hm.
Qed.

Lemma numbers_positions_snoc (m : gmap K nat) (ks : list K) (k : K) :
  numbers_positions m ks -> k ∉ ks ->
  numbers_positions (<[k := List.length ks]> m) (ks ++ [k]).
Proof.
  intros Hm Hk k' i. destruct (decide (k' = k)) as [->|Hne].
  - rewrite lookup_insert_eq. split.
    + intros [= <-]. rewrite lookup_app_r by lia.
      by rewrite Nat.sub_diag.
    + intros Hi. apply lookup_snoc_Some in Hi as [[_ Hi]|[-> _]]; [|done].
      exfalso. apply Hk. by eapply list_elem_of_lookup_2.
  - rewrite lookup_insert_ne by done. split.
    + intros Hi. apply lookup_app_l_Some. by apply Hm.
    + intros Hi. apply Hm.
      apply lookup_snoc_Some in Hi as [[_ Hi]|[_ ?]]; [done|congruence].
Qed.

End FirstOccurrences.

(** The loop invariant of [gather_targets]: the dictionary numbers the keys
    seen so far, and the list holds their entries in that order. *)
Lemma gather_targets_spec (bound_expr : BoundExpression) (os : list Output) :
  forall (m : gmap (string * forced_limit) nat) (ks : list (string * forced_limit)),
    numbers_positions m ks ->
    let ks' :=
      ks ++ filter (fun k => k ∉ ks) (first_occurrences (map output_key os)) in
    numbers_positions
      (fst (gather_targets bound_expr os m (map (entry_of_key bound_expr) ks))) ks'
    /\ snd (gather_targets bound_expr os m (map (entry_of_key bound_expr) ks))
       = map (entry_of_key bound_expr) ks'.
Proof.
  induction os as [|o os IH]; intros m ks Hm; simpl.
  - rewrite filter_nil, app_nil_r. done.
  - fold (output_key o).
    destruct (m !! output_key o) as [i|] eqn:Hlook.
    + assert (Hin : output_key o ∈ ks).
      { apply (numbers_positions_elem_of m ks _ Hm); eauto. }
      rewrite filter_cons_False by tauto.
      rewrite filter_not_seen_known by done.
      by apply IH.
    + assert (Hnin : output_key o ∉ ks).
      { intros Hin. apply (numbers_positions_elem_of m ks _ Hm) in Hin as [j Hj].
        congruence. }
      rewrite filter_cons_True by done.
      rewrite <- filter_not_seen_snoc.
      rewrite length_map.
      replace (map (entry_of_key bound_expr) ks ++
                 [(target_discr_of bound_expr (target_name o),
                   normalized_side (qbx_forced_limit o))])
        with (map (entry_of_key bound_expr) (ks ++ [output_key o]))
        by (rewrite map_app; reflexivity).
      replace (ks ++ output_key o ::
                 filter (fun k' => k' ∉ ks ++ [output_key o])
                   (first_occurrences (map output_key os)))
        with ((ks ++ [output_key o]) ++
                 filter (fun k' => k' ∉ ks ++ [output_key o])
                   (first_occurrences (map output_key os)))
        by (rewrite <- app_assoc; reflexivity).
      apply IH. by apply numbers_positions_snoc.
Qed.

Lemma lookup_map_Some {A B} (f : A -> B) (l : list A) (i : nat) (a : A) :
  l !! i = Some a -> map f l !! i = Some (f a).
Proof.
  revert i. induction l as [|x l IH]; intros [|i]; simpl; try done.
  - by intros [= ->].
  - apply IH.
Qed.

(** What [get_target_discrs_and_qbx_sides] returns, in terms of the first
    occurrences of the keys of the outputs. *)
Lemma get_target_discrs_and_qbx_sides_spec :
  forall (insn : Instruction) (bound_expr : BoundExpression),
    let numbering := fst (get_target_discrs_and_qbx_sides insn bound_expr) in
    let discrs := snd (get_target_discrs_and_qbx_sides insn bound_expr) in
    let keys := first_occurrences (map output_key (outputs insn)) in
    discrs = map (entry_of_key bound_expr) keys
    /\ NoDup keys
    /\ (forall k, k ∈ keys <-> exists o, o ∈ outputs insn /\ output_key o = k)
    /\ numbers_positions numbering keys
    /\ (forall o, o ∈ outputs insn ->
          exists i, numbering !! output_key o = Some i
                    /\ keys !! i = Some (output_key o)
                    /\ discrs !! i = Some (entry_of_key bound_expr (output_key o))).
Proof.
  intros insn bound_expr numbering discrs keys.
  assert (Hempty : numbers_positions (∅ : gmap (string * forced_limit) nat) []).
  { intros k i. rewrite lookup_empty, lookup_nil. done. }
  assert (Hkeys : filter (fun k => k ∉ [])
                    (first_occurrences (map output_key (outputs insn))) = keys).
  { subst keys. generalize (first_occurrences (map output_key (outputs insn))).
    intros l. induction l as [|x l IHl]; [done|].
    rewrite filter_cons_True by apply not_elem_of_nil. by rewrite IHl. }
  pose proof (gather_targets_spec bound_expr (outputs insn) ∅ [] Hempty) as Hspec.
  cbv zeta in Hspec.
  change (map (entry_of_key bound_expr) []) with (@nil (Discretization * Z)) in Hspec.
  rewrite app_nil_l, Hkeys in Hspec.
  destruct Hspec as [Hnum Hlist].
  assert (Hmem : forall k, k ∈ keys <-> exists o, o ∈ outputs insn /\ output_key o = k).
  { intros k. subst keys. rewrite first_occurrences_elem_of.
    split.
    - intros Hk. apply list_elem_of_In, in_map_iff in Hk as (o & Ho1 & Ho2).
      exists o. split; [by apply list_elem_of_In|done].
    - intros (o & Ho1 & Ho2). apply list_elem_of_In, in_map_iff.
      exists o. split; [done|by apply list_elem_of_In]. }
  split; [exact Hlist|]. split; [apply first_occurrences_NoDup|].
  split; [exact Hmem|]. split; [exact Hnum|].
  intros o Ho.
  assert (Hin : output_key o ∈ keys) by (apply Hmem; eauto).
  apply list_elem_of_lookup_1 in Hin as [i Hi].
  exists i. split; [by apply Hnum|]. split; [done|].
  unfold discrs, get_target_discrs_and_qbx_sides. rewrite Hlist.
  by apply lookup_map_Some.
Qed.

(** C6: the list of target discretizations holds exactly one entry per
    distinct (target name, forced limit) key of the outputs, in the order in
    which the keys first occur, and the dictionary sends the key of every
    output to the position of its entry. *)
Theorem target_discrs_one_entry_per_key :
  forall (insn : Instruction) (bound_expr : BoundExpression),
    let numbering := fst (get_target_discrs_and_qbx_sides insn bound_expr) in
    let discrs := snd (get_target_discrs_and_qbx_sides insn bound_expr) in
    let keys := first_occurrences (map output_key (outputs insn)) in
    discrs = map (entry_of_key bound_expr) keys
    /\ NoDup keys
    /\ (forall k, k ∈ keys <-> exists o, o ∈ outputs insn /\ output_key o = k)
    /\ numbers_positions numbering keys
    /\ (forall o, o ∈ outputs insn ->
          exists i, numbering !! output_key o = Some i
                    /\ keys !! i = Some (output_key o)
                    /\ discrs !! i = Some (entry_of_key bound_expr (output_key o))).
Proof. exact get_target_discrs_and_qbx_sides_spec. Qed.

(** ** The memoised geometry *)

Section ExecutionFacts.

Context `{Values} `{!Substrate}.

Lemma qbx_fmm_geometry_data_hit (self : QBX.QBXLayerPotentialSource)
    (key : target_discrs_and_sides) (w : world) (g : QBXFMMGeometryData) :
  geometry_cache w !! key = Some g ->
  qbx_fmm_geometry_data self key w = (inr g, w).
Proof. intros Hc. unfold qbx_fmm_geometry_data. by rewrite Hc. Qed.

(** The accessor always returns; afterwards the key is cached, and no entry
    present before has changed. *)
Lemma qbx_fmm_geometry_data_returns (self : QBX.QBXLayerPotentialSource)
    (key : target_discrs_and_sides) (w : world) :
  exists g w',
    qbx_fmm_geometry_data self key w = (inr g, w')
    /\ geometry_cache w' !! key = Some g
    /\ (forall k' g', geometry_cache w !! k' = Some g' ->
                      geometry_cache w' !! k' = Some g').
Proof.
  unfold qbx_fmm_geometry_data.
  destruct (geometry_cache w !! key) as [g|] eqn:Hc.
  - exists g, w. auto.
  - eexists _, _. split; [reflexivity|]. simpl. split.
    + apply lookup_insert_eq.
    + intros k' g' Hk'. rewrite lookup_insert_ne; [done|]. congruence.
Qed.

Lemma geometry_requests_returns (self : QBX.QBXLayerPotentialSource)
    (keys : list target_discrs_and_sides) :
  forall w, exists gs w',
    geometry_requests self keys w = (inr gs, w')
    /\ (forall k' g', geometry_cache w !! k' = Some g' ->
                      geometry_cache w' !! k' = Some g').
Proof.
  induction keys as [|k keys IH]; intros w; simpl.
  - exists [], w. auto.
  - destruct (qbx_fmm_geometry_data_returns self k w) as (g & w1 & Hg & _ & Hmono1).
    destruct (IH w1) as (gs & w2 & Hgs & Hmono2).
    exists (g :: gs), w2. unfold bind. rewrite Hg, Hgs. auto.
Qed.

(** C5: a second request with an equal key, whatever other requests were
    made on the source in between, returns the very geometry object that the
    first request returned, and leaves the source as it was: nothing is
    constructed or stored for a repeated key. *)
Theorem qbx_fmm_geometry_data_memoized :
  forall (self : QBX.QBXLayerPotentialSource) (key : target_discrs_and_sides)
         (between : list target_discrs_and_sides) (w : world),
  exists (g : QBXFMMGeometryData) (w1 : world) (gs : list QBXFMMGeometryData)
         (w2 : world),
    qbx_fmm_geometry_data self key w = (inr g, w1)
    /\ geometry_requests self between w1 = (inr gs, w2)
    /\ qbx_fmm_geometry_data self key w2 = (inr g, w2).
Proof.
  intros self key between w.
  destruct (qbx_fmm_geometry_data_returns self key w) as (g & w1 & Hg & Hc & _).
  destruct (geometry_requests_returns self between w1) as (gs & w2 & Hgs & Hmono).
  exists g, w1, gs, w2. repeat split; [done..|].
  apply qbx_fmm_geometry_data_hit. by apply Hmono.
Qed.

(** Two geometry objects constructed by the accessor are distinct objects:
    every construction takes a fresh identity. *)
Lemma qbx_fmm_geometry_data_fresh (self : QBX.QBXLayerPotentialSource)
    (key : target_discrs_and_sides) (w : world) :
  geometry_cache w !! key = None ->
  exists g w',
    qbx_fmm_geometry_data self key w = (inr g, w')
    /\ geo_id g = next_geo_id w
    /\ next_geo_id w' = S (next_geo_id w)
    /\ trace w' = trace w ++ [EvGeometryBuilt key].
Proof.
  intros Hc. unfold qbx_fmm_geometry_data. rewrite Hc.
  eexists _, _. repeat split; reflexivity.
Qed.

(** The accessor never calls into the numerical collaborators. *)
Lemma qbx_fmm_geometry_data_trace (self : QBX.QBXLayerPotentialSource)
    (key : target_discrs_and_sides) (w w' : world) (r : result QBXFMMGeometryData)
    (e : event) :
  qbx_fmm_geometry_data self key w = (r, w') ->
  e ∈ trace w' -> e ∈ trace w \/ e = EvGeometryBuilt key.
Proof.
  unfold qbx_fmm_geometry_data.
  destruct (geometry_cache w !! key); intros [= <- <-]; simpl; [auto|].
  rewrite elem_of_app, list_elem_of_singleton. auto.
Qed.

(** ** FMM-based execution *)

(** C1: when the target association of the geometry of the request holds a
    [FAILED] target, the FMM path raises; the source is left as the geometry
    accessor left it, so that neither the inspection hook nor the FMM driver
    was called, and no assignment is returned. *)
Theorem failed_targets_abort_fmm :
  forall (self : QBX.QBXLayerPotentialSource) (insn : Instruction)
         (bound_expr : BoundExpression) (fmm_driver : FmmDriver) (w w1 : world)
         (geo_data : QBXFMMGeometryData) (targets_to_centers : list Z),
    qbx_fmm_geometry_data self
      (snd (get_target_discrs_and_qbx_sides insn bound_expr)) w
    = (inr geo_data, w1) ->
    user_target_to_center geo_data = inr targets_to_centers ->
    target_state_FAILED ∈ targets_to_centers ->
    exists e,
      exec_compute_potential_insn_fmm self insn bound_expr fmm_driver w
      = (inl e, w1)
      /\ (EvFmmDriver ∈ trace w1 -> EvFmmDriver ∈ trace w).
Proof.
  intros self insn bound_expr fmm_driver w w1 geo_data utc Hgeo Hutc Hfailed.
  assert (Hex : existsb (Z.eqb target_state_FAILED) utc = true).
  { apply existsb_exists. exists target_state_FAILED.
    split; [by apply list_elem_of_In|apply Z.eqb_refl]. }
  assert (Htrace : EvFmmDriver ∈ trace w1 -> EvFmmDriver ∈ trace w).
  { intros Hin. by destruct (qbx_fmm_geometry_data_trace _ _ _ _ _ _ Hgeo Hin). }
  unfold exec_compute_potential_insn_fmm, bind, lift, raise.
  rewrite Hgeo.
  destruct (evaluate_strengths insn) as [e|strengths]; [eauto|].
  destruct (get_fmm_kernel (kernels insn)) as [e|fmm_kernel]; [eauto|].
  destruct (get_fmm_output_and_expansion_dtype fmm_kernel strengths) as [e|dt];
    [eauto|].
  destruct (get_fmm_expansion_wrangler_extra_kwargs _ _ _) as [e|kw]; [eauto|].
  destruct (expansion_wrangler_code_container _ _ _) as [e|code]; [eauto|].
  destruct (get_wrangler _ _ _) as [e|wrangler]; [eauto|].
  rewrite Hutc, Hex. eauto.
Qed.

End ExecutionFacts.

Section InspectionHook.

Context `{Values} `{!Substrate}.

(** C7: with the hook configured and returning false on the geometry of the
    request, the FMM path returns the placeholder 0 for each output of the
    instruction, in order, once the steps before the hook succeed (the
    wrangler is obtained and the association holds no failed target); the
    only call recorded after the geometry accessor is then that of the hook.
    In every case the run either returns these placeholders or raises before
    the hook is reached: it never returns potentials and never calls the
    driver. *)
Theorem inspector_veto_returns_zero_placeholders :
  forall (self : QBX.QBXLayerPotentialSource) (insn : Instruction)
         (bound_expr : BoundExpression) (fmm_driver : FmmDriver) (w w1 : world)
         (inspector : Inspector) (geo_data : QBXFMMGeometryData),
    QBX.geometry_data_inspector self = Some inspector ->
    qbx_fmm_geometry_data self
      (snd (get_target_discrs_and_qbx_sides insn bound_expr)) w
    = (inr geo_data, w1) ->
    inspector insn bound_expr geo_data = false ->
    let placeholders :=
      ZeroPlaceholders (map (fun o => (name o, 0)) (outputs insn)) in
    let after_hook :=
      {| geometry_cache := geometry_cache w1;
         next_geo_id := next_geo_id w1;
         trace := trace w1 ++ [EvInspector false] |} in
    (forall (strengths : list Scalar) (fmm_kernel : Kernel) (dt : dtype)
            (extra_kwargs : gmap string (list Scalar) * gmap string (list Scalar))
            (code : CodeContainer) (wrangler : Wrangler)
            (targets_to_centers : list Z),
        evaluate_strengths insn = inr strengths ->
        get_fmm_kernel (kernels insn) = inr fmm_kernel ->
        get_fmm_output_and_expansion_dtype fmm_kernel strengths = inr dt ->
        get_fmm_expansion_wrangler_extra_kwargs (kernels insn) geo_data insn
        = inr extra_kwargs ->
        expansion_wrangler_code_container self fmm_kernel (kernels insn)
        = inr code ->
        get_wrangler code (get_wrangler_arg_names self)
          {| gw_geo_data := geo_data;
             gw_dtype := dt;
             gw_qbx_order := QBX.qbx_order self;
             gw_fmm_level_to_order := QBX.fmm_level_to_order self;
             gw_source_extra_kwargs := snd extra_kwargs;
             gw_kernel_extra_kwargs := fst extra_kwargs;
             gw_use_target_specific_qbx := QBX._use_target_specific_qbx self;
             gw_use_fft :=
               if String.eqb (QBX.fmm_backend self) "sumpy"
               then Some (QBX.use_fft self) else None |}
        = inr wrangler ->
        user_target_to_center geo_data = inr targets_to_centers ->
        target_state_FAILED ∉ targets_to_centers ->
        exec_compute_potential_insn_fmm self insn bound_expr fmm_driver w
        = (inr placeholders, after_hook))
    /\ (exec_compute_potential_insn_fmm self insn bound_expr fmm_driver w
        = (inr placeholders, after_hook)
        \/ exists e,
             exec_compute_potential_insn_fmm self insn bound_expr fmm_driver w
             = (inl e, w1)).
Proof.
  intros self insn bound_expr fmm_driver w w1 inspector geo_data
    Hinsp Hgeo Hveto placeholders after_hook.
  split.
  - intros strengths fmm_kernel dt extra_kwargs code wrangler utc
      Hstr Hknl Hdt Hkw Hcode Hwr Hutc Hok.
    assert (Hex : existsb (Z.eqb target_state_FAILED) utc = false).
    { apply not_true_is_false. intros Hex.
      apply existsb_exists in Hex as (x & Hx & Heq).
      apply Z.eqb_eq in Heq as <-. apply Hok. by apply list_elem_of_In. }
    unfold exec_compute_potential_insn_fmm, bind, lift, raise, log, ret.
    rewrite Hgeo, Hstr, Hknl, Hdt, Hkw, Hcode, Hwr, Hutc, Hex, Hinsp, Hveto.
    reflexivity.
  - unfold exec_compute_potential_insn_fmm, bind, lift, raise, log, ret.
    rewrite Hgeo.
    destruct (evaluate_strengths insn) as [e|strengths]; [eauto|].
    destruct (get_fmm_kernel (kernels insn)) as [e|fmm_kernel]; [eauto|].
    destruct (get_fmm_output_and_expansion_dtype fmm_kernel strengths) as [e|dt];
      [eauto|].
    destruct (get_fmm_expansion_wrangler_extra_kwargs _ _ _) as [e|kw]; [eauto|].
    destruct (expansion_wrangler_code_container _ _ _) as [e|code]; [eauto|].
    destruct (get_wrangler _ _ _) as [e|wrangler]; [eauto|].
    destruct (user_target_to_center geo_data) as [e|utc]; [eauto|].
    destruct (existsb _ utc); [eauto|].
    rewrite Hinsp, Hveto. left. reflexivity.
Qed.

(** In the FMM path of this source the fmmlib code container is always
    handed the keyword [_use_target_specific_qbx], which its [get_wrangler]
    does not take. *)
Lemma fmmlib_get_wrangler_rejects_keyword
    (self : QBX.QBXLayerPotentialSource)
    (c : QBXFMMLibExpansionWranglerCodeContainer) (args : get_wrangler_args) :
  get_wrangler (FMMLibContainer c) (get_wrangler_arg_names self) args
  = inl (TypeError (unexpected_keyword_msg "_use_target_specific_qbx")).
Proof.
  unfold get_wrangler, get_wrangler_arg_names.
  destruct (String.eqb (QBX.fmm_backend self) "sumpy"); reflexivity.
Qed.

End InspectionHook.

(** ** Direct execution *)

Section Maintains.

Context {A B : Type} (Inv : world -> Prop).

Lemma maintains_ret (a : A) : maintains Inv (ret a).
Proof. by intros w r w' HI [= <- <-]. Qed.

Lemma maintains_raise (e : exn) : maintains Inv (raise (A := A) e).
Proof. by intros w r w' HI [= <- <-]. Qed.

Lemma maintains_lift (x : result A) : maintains Inv (lift x).
Proof. by intros w r w' HI [= <- <-]. Qed.

Lemma maintains_bind (m : M A) (k : A -> M B) :
  maintains Inv m -> (forall a, maintains Inv (k a)) -> maintains Inv (bind m k).
Proof.
  intros Hm Hk w r w' HI. unfold bind.
  destruct (m w) as [[e|a] w1] eqn:Hmw.
  - intros [= <- <-]. by eapply Hm.
  - intros Hka. eapply Hk; [|exact Hka]. by eapply Hm.
Qed.

(** In a loop whose body maintains the invariant, an element on which the
    body raises makes the loop raise. *)
Lemma for_each_raises (f : A -> M B) (l : list A) (a : A) :
  a ∈ l ->
  (forall x, maintains Inv (f x)) ->
  (forall w, Inv w -> is_error (fst (f a w))) ->
  forall w, Inv w -> is_error (fst (for_each f l w)).
Proof.
  intros Hin Hf Ha. induction l as [|x l IH]; intros w HI.
  - by apply elem_of_nil in Hin.
  - simpl. unfold bind at 1.
    destruct (f x w) as [[e|b] w1] eqn:Hfx; [exact I|].
    apply elem_of_cons in Hin as [->|Hin].
    + specialize (Ha w HI). by rewrite Hfx in Ha.
    + assert (HI1 : Inv w1) by (by eapply Hf).
      specialize (IH Hin w1 HI1). unfold bind.
      destruct (for_each f l w1) as [[e|bs] w2]; [exact I|destruct IH].
Qed.

End Maintains.

Lemma maintains_log (e : event) : maintains cache_consistent (log e).
Proof. intros w r w' HI [= <- <-]. exact HI. Qed.

Lemma cache_consistent_initial : cache_consistent initial_world.
Proof. intros k g. simpl. by rewrite lookup_empty. Qed.

(** The count that the scan kernel writes: on a non-empty array, the number
    of associated targets; on an empty one the count buffer keeps what it
    held. *)
Lemma qbx_target_numberer_from_count (tgt : list Z) :
  forall (N i : nat) (prev_item : Z) (numbers : list Z) (count : Z),
    N = (i + List.length tgt)%nat ->
    snd (qbx_target_numberer_from N i prev_item tgt numbers count)
    = match tgt with
      | [] => count
      | _ :: _ => prev_item + associated_targets tgt
      end.
Proof.
  induction tgt as [|c rest IH]; intros N i prev_item numbers count HN;
    [reflexivity|].
  simpl. rewrite IH by (simpl in HN; lia).
  unfold associated_targets. rewrite filter_cons.
  destruct rest as [|c' rest'].
  - simpl in HN. replace (Nat.eqb (i + 1) N) with true
      by (symmetry; apply Nat.eqb_eq; lia).
    rewrite filter_nil. destruct (0 <=? c) eqn:Hc.
    + apply Z.leb_le in Hc. rewrite decide_True by done. simpl. lia.
    + apply Z.leb_gt in Hc. rewrite decide_False by lia. simpl. lia.
  - fold (associated_targets (c' :: rest')).
    destruct (0 <=? c) eqn:Hc.
    + apply Z.leb_le in Hc. rewrite decide_True by done.
      unfold associated_targets. simpl List.length. lia.
    + apply Z.leb_gt in Hc. rewrite decide_False by lia.
      unfold associated_targets. lia.
Qed.

Lemma qbx_target_numberer_count (tgt numbers : list Z) (count : Z) :
  tgt <> [] ->
  snd (qbx_target_numberer tgt numbers count) = associated_targets tgt.
Proof.
  intros Hne. unfold qbx_target_numberer.
  rewrite qbx_target_numberer_from_count by reflexivity.
  destruct tgt; [done|lia].
Qed.

Section DirectFacts.

Context `{Values} `{!Substrate}.

Lemma maintains_qbx_fmm_geometry_data (self : QBX.QBXLayerPotentialSource)
    (key : target_discrs_and_sides) :
  maintains cache_consistent (qbx_fmm_geometry_data self key).
Proof.
  intros w r w' HI. unfold qbx_fmm_geometry_data.
  destruct (geometry_cache w !! key) as [g|] eqn:Hc; intros [= <- <-]; [done|].
  intros k g. simpl. destruct (decide (key = k)) as [<-|Hne].
  - rewrite lookup_insert_eq. by intros [= <-].
  - rewrite lookup_insert_ne by done. apply HI.
Qed.

(** What the accessor returns was constructed for the requested key. *)
Lemma qbx_fmm_geometry_data_key (self : QBX.QBXLayerPotentialSource)
    (key : target_discrs_and_sides) (w w' : world) (g : QBXFMMGeometryData) :
  cache_consistent w ->
  qbx_fmm_geometry_data self key w = (inr g, w') ->
  geo_target_discrs_and_qbx_sides g = key.
Proof.
  intros HI. unfold qbx_fmm_geometry_data.
  destruct (geometry_cache w !! key) as [g0|] eqn:Hc; intros [= <- <-];
    [by apply HI|reflexivity].
Qed.

Lemma maintains_direct_output (self : QBX.QBXLayerPotentialSource)
    (insn : Instruction) (bound_expr : BoundExpression)
    (kernel_args : gmap string (list Scalar)) (strengths : list Scalar)
    (o : Output) :
  maintains cache_consistent
    (direct_output self insn bound_expr kernel_args strengths o).
Proof.
  unfold direct_output.
  repeat first
    [ apply maintains_ret | apply maintains_raise | apply maintains_lift
    | apply maintains_log | apply maintains_qbx_fmm_geometry_data
    | apply maintains_bind; [|intros ?]
    | match goal with
      | |- maintains _ (if ?b then _ else _) => destruct b
      | |- maintains _ (match ?x with Some _ => _ | None => _ end) => destruct x
      end ].
Qed.

(** The loop body on an output with a forced side whose targets are not all
    associated: unless a collaborator raises first, it raises the error of
    the unsatisfied forced limit. *)
Lemma direct_output_forced_limit (self : QBX.QBXLayerPotentialSource)
    (insn : Instruction) (bound_expr : BoundExpression)
    (kernel_args : gmap string (list Scalar)) (strengths : list Scalar)
    (o : Output) (side : Z) (w : world) :
  let target_discr := get_discretization bound_expr (target_name o) in
  cache_consistent w ->
  qbx_forced_limit o = Some side -> Z.abs side = 1 ->
  target_discr <> QBX.density_discr self ->
  (forall geo_data targets_to_centers,
      geo_target_discrs_and_qbx_sides geo_data = [(target_discr, side)] ->
      user_target_to_center geo_data = inr targets_to_centers ->
      Z.of_nat (List.length (drop (ncenters geo_data) targets_to_centers))
      = nnodes target_discr
      /\ associated_targets (drop (ncenters geo_data) targets_to_centers)
         < nnodes target_discr) ->
  exists e w',
    direct_output self insn bound_expr kernel_args strengths o w = (inl e, w')
    /\ ((exists out, p2p (kernels insn) target_discr strengths kernel_args = inr out)
        -> (forall g, is_error (user_target_to_center g) -> False)
        -> e = RuntimeError no_matching_center_msg).
Proof.
  intros target_discr HI Hside Habs Hnotself Hgeo.
  unfold direct_output. fold target_discr.
  unfold discr_is. rewrite bool_decide_eq_false_2 by congruence.
  unfold bind at 1. unfold log at 1. unfold bind at 1. unfold lift at 1.
  destruct (p2p (kernels insn) target_discr strengths kernel_args)
    as [e|out] eqn:Hp2p.
  { eexists _, _. split; [reflexivity|]. intros [out' ?]; discriminate. }
  rewrite Hside. simpl normalized_side.
  unfold bind at 1.
  match goal with
  | |- context [qbx_fmm_geometry_data self ?k ?w0] =>
      destruct (qbx_fmm_geometry_data_returns self k w0) as (g & w1 & Hg & _);
      assert (HI0 : cache_consistent w0) by exact HI;
      pose proof (qbx_fmm_geometry_data_key self k w0 w1 g HI0 Hg) as Hkey;
      rewrite Hg
  end.
  unfold bind at 1. unfold lift at 1.
  destruct (user_target_to_center g) as [e|utc] eqn:Hutc.
  { eexists _, _. split; [reflexivity|]. intros _ Hno. exfalso.
    apply (Hno g). by rewrite Hutc. }
  destruct (Hgeo g utc Hkey Hutc) as [Hlen Hassoc].
  assert (Hne : drop (ncenters g) utc <> []).
  { intros Hnil. rewrite Hnil in Hlen, Hassoc.
    unfold associated_targets in Hassoc. simpl in Hlen, Hassoc. lia. }
  rewrite qbx_target_numberer_count by exact Hne.
  unfold forced_limit_unsatisfied. rewrite Habs.
  replace (associated_targets (drop (ncenters g) utc) <? nnodes target_discr)
    with true by (symmetry; apply Z.ltb_lt; exact Hassoc).
  simpl. unfold raise. eexists _, _. split; reflexivity.
Qed.

(** C2: in the direct path, an output that forces a side ([abs] of its
    forced limit is 1), whose target discretization is not the density
    discretization of the source, and for which fewer targets are associated
    to a QBX center than the target discretization has nodes, makes the
    evaluation raise: no value is returned for the instruction. *)
Theorem forced_limit_unsatisfied_raises_direct :
  forall (self : QBX.QBXLayerPotentialSource) (insn : Instruction)
         (bound_expr : BoundExpression) (return_timing_data : bool) (w : world)
         (o : Output) (side : Z),
    let target_discr := get_discretization bound_expr (target_name o) in
    cache_consistent w ->
    o ∈ outputs insn ->
    qbx_forced_limit o = Some side -> Z.abs side = 1 ->
    target_discr <> QBX.density_discr self ->
    (forall geo_data targets_to_centers,
        geo_target_discrs_and_qbx_sides geo_data = [(target_discr, side)] ->
        user_target_to_center geo_data = inr targets_to_centers ->
        Z.of_nat (List.length (drop (ncenters geo_data) targets_to_centers))
        = nnodes target_discr
        /\ associated_targets (drop (ncenters geo_data) targets_to_centers)
           < nnodes target_discr) ->
    is_error
      (fst (exec_compute_potential_insn_direct self insn bound_expr
              return_timing_data w)).
Proof.
  intros self insn bound_expr rtd w o side target_discr HI Hin Hside Habs
    Hnotself Hgeo.
  unfold exec_compute_potential_insn_direct, bind at 1, lift at 1.
  destruct (evaluate_kernel_arguments insn) as [e|kernel_args]; [exact I|].
  unfold bind at 1, lift at 1.
  destruct (evaluate_strengths insn) as [e|strengths]; [exact I|].
  pose proof (for_each_raises cache_consistent
                (direct_output self insn bound_expr kernel_args strengths)
                (outputs insn) o Hin
                (maintains_direct_output self insn bound_expr kernel_args strengths))
    as Hloop.
  assert (Herr : is_error
                   (fst (for_each
                           (direct_output self insn bound_expr kernel_args strengths)
                           (outputs insn) w))).
  { apply Hloop; [|exact HI]. intros w0 HI0.
    destruct (direct_output_forced_limit self insn bound_expr kernel_args
                strengths o side w0 HI0 Hside Habs Hnotself Hgeo)
      as (e & w1 & -> & _).
    exact I. }
  unfold bind.
  destruct (for_each _ (outputs insn) w) as [[e|rs] w']; [exact I|destruct Herr].
Qed.

End DirectFacts.

(** ** The side of an output without forced limit *)

Section UnforcedLimit.

Context `{Values} `{!Substrate}.

(** The loop body of the direct path on an output without forced limit and
    off the source: the geometry is requested for the side 0, and when the
    collaborators return, so does the body, however few targets are
    associated. *)
Lemma direct_output_unforced (self : QBX.QBXLayerPotentialSource)
    (insn : Instruction) (bound_expr : BoundExpression)
    (kernel_args : gmap string (list Scalar)) (strengths : list Scalar)
    (o : Output) (w : world) (out : list (list Scalar)) :
  let target_discr := get_discretization bound_expr (target_name o) in
  qbx_forced_limit o = None ->
  target_discr <> QBX.density_discr self ->
  p2p (kernels insn) target_discr strengths kernel_args = inr out ->
  is_Some (out !! kernel_index o) ->
  (forall g, exists targets_to_centers,
      user_target_to_center g = inr targets_to_centers) ->
  (forall g numbers center_numbers out0, exists out',
      lpot_applier_on_tgt_subset (kernels insn) target_discr g strengths numbers
        center_numbers kernel_args out0 = inr out'
      /\ is_Some (out' !! kernel_index o)) ->
  exists value w',
    direct_output self insn bound_expr kernel_args strengths o w
    = (inr (name o, value), w')
    /\ is_Some (geometry_cache w' !! [(target_discr, 0)])
    /\ (forall k, k <> [(target_discr, 0)] ->
                  geometry_cache w' !! k = geometry_cache w !! k).
Proof.
  intros target_discr Hnone Hnotself Hp2p [v0 Hv0] Hutc Hsubset.
  unfold direct_output. fold target_discr.
  unfold discr_is. rewrite bool_decide_eq_false_2 by congruence.
  unfold bind at 1. unfold log at 1. unfold bind at 1. unfold lift at 1.
  rewrite Hp2p, Hnone. simpl normalized_side.
  unfold bind at 1.
  set (w0 := {| geometry_cache := geometry_cache w; next_geo_id := next_geo_id w;
                trace := trace w ++ [EvP2P] |}).
  assert (Hcache : exists g w1,
             qbx_fmm_geometry_data self [(target_discr, 0)] w0 = (inr g, w1)
             /\ geometry_cache w1 !! [(target_discr, 0)] = Some g
             /\ (forall k, k <> [(target_discr, 0)] ->
                           geometry_cache w1 !! k = geometry_cache w !! k)).
  { unfold qbx_fmm_geometry_data.
    destruct (geometry_cache w0 !! [(target_discr, 0)]) as [g|] eqn:Hc.
    - exists g, w0. auto.
    - eexists _, _. split; [reflexivity|]. simpl. split.
      + apply lookup_insert_eq.
      + intros k Hk. by rewrite lookup_insert_ne. }
  destruct Hcache as (g & w1 & -> & Hstored & Hothers).
  unfold bind at 1. unfold lift at 1.
  destruct (Hutc g) as [utc ->].
  unfold forced_limit_unsatisfied.
  set (numbered := qbx_target_numberer _ _ _).
  destruct (truthy (snd numbered)).
  - destruct (Hsubset g (slice_to (snd numbered) (fst numbered))
                (take_indices (drop (ncenters g) utc)
                   (slice_to (snd numbered) (fst numbered))) out)
      as (out' & Hout' & [v Hv]).
    unfold bind, log, lift, ret, index. rewrite Hout', Hv.
    eexists _, _. split; [reflexivity|]. simpl. split; [by eexists|exact Hothers].
  - unfold bind, lift, ret, index. rewrite Hv0.
    eexists _, _. split; [reflexivity|]. split; [by eexists|exact Hothers].
Qed.

(** C10: an output whose forced limit is [None] has the side 0 in the list
    gathered for the FMM path, at the position its key [(target name, None)]
    is numbered with; the key keeps [None], so that an output of the same
    target with the limit 0 gets an entry of its own, equal to the first;
    and in the direct path, off the source, the geometry is requested for
    the side 0 while the test of the forced limit, made on [None], rejects
    nothing. *)
Theorem unforced_limit_is_side_zero :
  (forall (insn : Instruction) (bound_expr : BoundExpression) (o : Output),
      o ∈ outputs insn -> qbx_forced_limit o = None ->
      exists i,
        fst (get_target_discrs_and_qbx_sides insn bound_expr)
          !! (target_name o, None) = Some i
        /\ snd (get_target_discrs_and_qbx_sides insn bound_expr) !! i
           = Some (target_discr_of bound_expr (target_name o), 0))
  /\ (forall (insn : Instruction) (bound_expr : BoundExpression) (o o' : Output),
      o ∈ outputs insn -> o' ∈ outputs insn ->
      target_name o' = target_name o ->
      qbx_forced_limit o = None -> qbx_forced_limit o' = Some 0 ->
      exists i j,
        i <> j
        /\ fst (get_target_discrs_and_qbx_sides insn bound_expr)
             !! output_key o = Some i
        /\ fst (get_target_discrs_and_qbx_sides insn bound_expr)
             !! output_key o' = Some j
        /\ snd (get_target_discrs_and_qbx_sides insn bound_expr) !! i
           = snd (get_target_discrs_and_qbx_sides insn bound_expr) !! j)
  /\ (forall (self : QBX.QBXLayerPotentialSource) (insn : Instruction)
        (bound_expr : BoundExpression) (kernel_args : gmap string (list Scalar))
        (strengths : list Scalar) (o : Output) (w : world)
        (out : list (list Scalar)),
      let target_discr := get_discretization bound_expr (target_name o) in
      qbx_forced_limit o = None ->
      target_discr <> QBX.density_discr self ->
      p2p (kernels insn) target_discr strengths kernel_args = inr out ->
      is_Some (out !! kernel_index o) ->
      (forall g, exists targets_to_centers,
          user_target_to_center g = inr targets_to_centers) ->
      (forall g numbers center_numbers out0, exists out',
          lpot_applier_on_tgt_subset (kernels insn) target_discr g strengths
            numbers center_numbers kernel_args out0 = inr out'
          /\ is_Some (out' !! kernel_index o)) ->
      exists value w',
        direct_output self insn bound_expr kernel_args strengths o w
        = (inr (name o, value), w')
        /\ is_Some (geometry_cache w' !! [(target_discr, 0)])
        /\ (forall k, k <> [(target_discr, 0)] ->
                      geometry_cache w' !! k = geometry_cache w !! k))
  /\ (forall (qbx_tgt_count nnodes_ : Z),
      forced_limit_unsatisfied None qbx_tgt_count nnodes_ = false).
Proof.
  split; [|split; [|split]].
  - intros insn bound_expr o Hin Hnone.
    destruct (get_target_discrs_and_qbx_sides_spec insn bound_expr)
      as (_ & _ & _ & _ & Hout).
    destruct (Hout o Hin) as (i & Hi & _ & Hentry).
    exists i. unfold output_key, entry_of_key in *. rewrite Hnone in *. auto.
  - intros insn bound_expr o o' Hin Hin' Hname Hnone Hzero.
    destruct (get_target_discrs_and_qbx_sides_spec insn bound_expr)
      as (_ & _ & _ & Hnum & Hout).
    destruct (Hout o Hin) as (i & Hi & Hki & Hentry).
    destruct (Hout o' Hin') as (j & Hj & Hkj & Hentry').
    exists i, j. repeat split; [|done..|].
    + intros <-. rewrite Hki in Hkj. unfold output_key in Hkj.
      rewrite Hnone, Hzero in Hkj. discriminate.
    + rewrite Hentry, Hentry'. unfold entry_of_key, output_key. simpl.
      by rewrite Hname, Hnone, Hzero.
  - exact direct_output_unforced.
  - reflexivity.
Qed.

End UnforcedLimit.

(** ** Wrangler selection *)

Section WranglerFacts.

Context `{Values} `{!Substrate}.

Lemma is_supported_helmknl_fst (k : Kernel) (d : FMMLib.digest) :
  fst (FMMLib.is_supported_helmknl k d) = is_helmholtz_3d (strip_source_derivative k).
Proof.
  unfold FMMLib.is_supported_helmknl.
  destruct k as [kd kn|kd|kn kd|ax inner|inner dv]; simpl; try reflexivity.
  - destruct (kd =? 3); reflexivity.
  - destruct inner as [kd kn| | | |]; simpl; try reflexivity.
    destruct (kd =? 3); reflexivity.
Qed.

(** One step of the digest: an accepted kernel continues the loop, any other
    raises. *)
Lemma digest_out_kernels_cons (k : Kernel) (ks : list Kernel) (d : FMMLib.digest) :
  if helmholtz_3d_layer_or_target_derivative k
  then exists d', FMMLib.digest_out_kernels (k :: ks) d
                  = FMMLib.digest_out_kernels ks d'
  else FMMLib.digest_out_kernels (k :: ks) d
       = inl (NotImplementedError FMMLib.unsupported_kernel_msg).
Proof.
  unfold helmholtz_3d_layer_or_target_derivative. simpl FMMLib.digest_out_kernels.
  pose proof (is_supported_helmknl_fst k d) as Hk.
  destruct (FMMLib.is_supported_helmknl k d) as [b d1]. simpl in Hk. subst b.
  destruct (is_helmholtz_3d (strip_source_derivative k)); simpl; [eauto|].
  destruct k as [kd kn|kd|kn kd|ax inner|inner dv]; try reflexivity.
  pose proof (is_supported_helmknl_fst inner d1) as Hi.
  destruct (FMMLib.is_supported_helmknl inner d1) as [b d2]. simpl in Hi. subst b.
  destruct (is_helmholtz_3d (strip_source_derivative inner)); eauto.
Qed.

Lemma digest_out_kernels_unsupported (ks : list Kernel) :
  forall (d : FMMLib.digest) (k : Kernel),
    k ∈ ks -> helmholtz_3d_layer_or_target_derivative k = false ->
    FMMLib.digest_out_kernels ks d
    = inl (NotImplementedError FMMLib.unsupported_kernel_msg).
Proof.
  induction ks as [|k0 ks IH]; intros d k Hin Hk.
  - by apply elem_of_nil in Hin.
  - pose proof (digest_out_kernels_cons k0 ks d) as Hstep.
    destruct (helmholtz_3d_layer_or_target_derivative k0) eqn:Hk0.
    + destruct Hstep as [d' ->].
      apply elem_of_cons in Hin as [->|Hin]; [congruence|]. by eapply IH.
    + exact Hstep.
Qed.

(** C3 (amended): the fmmlib wrangler refuses, with [NotImplementedError],
    every list of output kernels one of which is neither the 3D Helmholtz
    kernel, bare or under a directional source derivative, nor an axis
    target derivative of such a kernel; and selecting the code container
    with a backend other than "sumpy" and "fmmlib" raises [ValueError]. *)
Theorem unsupported_kernel_or_backend_rejected :
  (forall (code : QBXFMMLibExpansionWranglerCodeContainer)
          (geo_data : QBXFMMGeometryData) (dt : dtype) (qbx_order : Z)
          (fmm_level_to_order : Z -> result Z)
          (source_extra_kwargs : gmap string (list Scalar))
          (kernel_extra_kwargs : option (gmap string (list Scalar)))
          (k : Kernel),
      k ∈ out_kernels code ->
      helmholtz_3d_layer_or_target_derivative k = false ->
      FMMLib.__init__ code geo_data dt qbx_order fmm_level_to_order
        source_extra_kwargs kernel_extra_kwargs
      = inl (NotImplementedError FMMLib.unsupported_kernel_msg))
  /\ (forall (self : QBX.QBXLayerPotentialSource) (fmm_kernel : Kernel)
        (out_kernels : list Kernel),
      QBX.fmm_backend self <> "sumpy" ->
      QBX.fmm_backend self <> "fmmlib" ->
      expansion_wrangler_code_container self fmm_kernel out_kernels
      = inl (ValueError (invalid_backend_msg (QBX.fmm_backend self)))).
Proof.
  split.
  - intros code geo_data dt qbx_order f skw kkw k Hin Hk.
    unfold FMMLib.__init__.
    by rewrite (digest_out_kernels_unsupported _ FMMLib.empty_digest k Hin Hk).
  - intros self fmm_kernel ks Hsumpy Hfmmlib.
    unfold expansion_wrangler_code_container.
    apply String.eqb_neq in Hsumpy, Hfmmlib. by rewrite Hsumpy, Hfmmlib.
Qed.

End WranglerFacts.

(** ** The statements at the example inputs *)

(** C3, as stated, fails: the double layer kernel of the 3D Helmholtz
    equation is neither the 3D Helmholtz kernel nor an axis target derivative
    of it, and the fmmlib wrangler is constructed for it. *)
Lemma fmmlib_accepts_double_layer_kernel :
  helmholtz_3d_double_layer
    ∈ out_kernels (example_fmmlib_code [helmholtz_3d_double_layer])
  /\ helmholtz_3d_or_target_derivative helmholtz_3d_double_layer = false
  /\ ~ is_error
         (@FMMLib.__init__ example_values example_substrate
            (example_fmmlib_code [helmholtz_3d_double_layer]) example_geo_data
            float64 2 (fun _ => inr 5)
            {[ "dsource_vec" := [1; 0; 0] ]} (Some {[ "k" := [2] ]})).
Proof.
  split; [apply list_elem_of_here|]. split; [reflexivity|].
  vm_compute. tauto.
Qed.

(** An axis target derivative of the double layer kernel passes the digest
    but not the constructor: the refused first test of the loop has already
    recorded "no source derivative" for it. *)
Example fmmlib_target_derivative_of_double_layer :
  @FMMLib.__init__ example_values example_substrate
    (example_fmmlib_code [AxisTargetDerivative 0 helmholtz_3d_double_layer])
    example_geo_data float64 2 (fun _ => inr 5)
    {[ "dsource_vec" := [1; 0; 0] ]} (Some {[ "k" := [2] ]})
  = inl (ValueError
           "not all kernels passed are the same inwhether they represent a source derivative").
Proof. vm_compute. reflexivity. Qed.

Lemma unsupported_kernel_or_backend_rejected_witness :
  @FMMLib.__init__ example_values example_substrate
    (example_fmmlib_code [helmholtz_3d; laplace_2d]) example_geo_data
    float64 2 (fun _ => inr 5) ∅ (Some ∅)
  = inl (NotImplementedError FMMLib.unsupported_kernel_msg)
  /\ expansion_wrangler_code_container misconfigured_source helmholtz_3d
       [helmholtz_3d]
     = inl (ValueError (invalid_backend_msg "fmmlib3d")).
Proof.
  destruct (@unsupported_kernel_or_backend_rejected example_values
              example_substrate) as [Hkernel Hbackend].
  split.
  - apply (Hkernel _ _ _ _ _ _ _ laplace_2d).
    + apply list_elem_of_further, list_elem_of_here.
    + reflexivity.
  - apply (Hbackend misconfigured_source); intros E; discriminate E.
Defined.

Lemma conflicting_orders_rejected_witness :
  is_error (QBX.__init__ conflicting_init_args)
  /\ is_error (QBX.copy example_source conflicting_copy_args)
  /\ is_error
       (Unregularized.__init__ circle (OrderInt 5)
          (Some (LtoCallable (fun _ level => 5 + level))) None true).
Proof.
  destruct conflicting_orders_rejected as (Hinit & Hcopy & Hunreg).
  split; [|split].
  - apply (Hinit conflicting_init_args 5 (LtoCallable (fun _ level => 5 + level)));
      reflexivity.
  - apply (Hcopy example_source conflicting_copy_args 5
             (Some (LtoCallable (fun _ level => 5 + level)))); reflexivity.
  - rewrite Hunreg. exact I.
Defined.


Lemma copy_keeps_or_overrides_every_field_witness :
  QBX.__init__ example_init_args = inr example_source
  /\ QBX.copy example_source QBX.copy_defaults = inr example_source.
Proof.
  split; [reflexivity|].
  apply (copy_keeps_or_overrides_every_field example_init_args example_source).
  reflexivity.
Defined.

Lemma target_discrs_one_entry_per_key_witness :
  snd (get_target_discrs_and_qbx_sides probe_insn example_bound_expr)
  = [(probe_points, 0); (probe_points, 0)]
  /\ exists i,
       fst (get_target_discrs_and_qbx_sides probe_insn example_bound_expr)
         !! ("probe", None) = Some i
       /\ first_occurrences (map output_key (outputs probe_insn)) !! i
          = Some ("probe", None).
Proof.
  destruct (target_discrs_one_entry_per_key probe_insn example_bound_expr)
    as (Hlist & _ & _ & _ & Hout).
  split; [exact Hlist|].
  destruct (Hout (example_output "w" "probe" None)) as (i & Hi & Hk & _).
  - do 2 apply list_elem_of_further. apply list_elem_of_here.
  - exists i. split; [exact Hi|exact Hk].
Defined.

Lemma failed_targets_abort_fmm_witness :
  exists e w1,
    @exec_compute_potential_insn_fmm example_values example_substrate
      example_source far_insn example_bound_expr example_driver initial_world
    = (inl e, w1)
    /\ trace w1 = [EvGeometryBuilt [(far_points, 0)]].
Proof.
  edestruct (@failed_targets_abort_fmm example_values example_substrate
               example_source far_insn example_bound_expr example_driver
               initial_world) as (e & He & _).
  - reflexivity.
  - reflexivity.
  - do 3 apply list_elem_of_further. apply list_elem_of_here.
  - exists e. eexists. split; [exact He|reflexivity].
Defined.

Lemma inspector_veto_returns_zero_placeholders_witness :
  fst (@exec_compute_potential_insn_fmm example_values example_substrate
         vetoed_source probe_insn example_bound_expr example_driver
         initial_world)
  = inr (ZeroPlaceholders [("u", 0); ("v", 0); ("w", 0)]).
Proof.
  edestruct (@inspector_veto_returns_zero_placeholders example_values
               example_substrate vetoed_source probe_insn example_bound_expr
               example_driver initial_world) as [Hreturns _];
    [reflexivity..|].
  erewrite Hreturns; [reflexivity|reflexivity..|].
  intros Hin.
  repeat (apply elem_of_cons in Hin as [Hin|Hin]; [discriminate Hin|]).
  by apply elem_of_nil in Hin.
Defined.

Lemma forced_limit_unsatisfied_raises_direct_witness :
  is_error
    (fst (@exec_compute_potential_insn_direct example_values example_substrate
            example_source forced_probe_insn example_bound_expr false
            initial_world)).
Proof.
  apply (@forced_limit_unsatisfied_raises_direct example_values
           example_substrate example_source forced_probe_insn example_bound_expr
           false initial_world (example_output "v" "probe" (Some 1)) 1).
  - exact cache_consistent_initial.
  - apply list_elem_of_further, list_elem_of_here.
  - reflexivity.
  - reflexivity.
  - intros E. discriminate E.
  - intros g utc Hkey. simpl. rewrite Hkey. vm_compute.
    intros [= <-]. split; reflexivity.
Defined.

Lemma unforced_limit_is_side_zero_witness :
  exists i,
    fst (get_target_discrs_and_qbx_sides probe_insn example_bound_expr)
      !! ("probe", None) = Some i
    /\ snd (get_target_discrs_and_qbx_sides probe_insn example_bound_expr) !! i
       = Some (probe_points, 0).
Proof.
  apply (proj1 (@unforced_limit_is_side_zero example_values example_substrate)
           probe_insn example_bound_expr (example_output "u" "probe" None)).
  - apply list_elem_of_here.
  - reflexivity.
Defined.

(** * Further properties of the modelled code *)

(** ** The numbering of the associated targets *)

Lemma associated_positions_from_elem_of (tgt : list Z) :
  forall (i : nat) (p : Z),
    p ∈ associated_positions_from i tgt
    <-> exists j c, p = Z.of_nat (i + j) /\ tgt !! j = Some c /\ 0 <= c.
Proof.
  induction tgt as [|c rest IH]; intros i p; simpl.
  - split; [intros Hp; by apply elem_of_nil in Hp|].
    intros (j & c & _ & Hj & _). by rewrite lookup_nil in Hj.
  - assert (Hrest : p ∈ associated_positions_from (S i) rest
                    <-> exists j c', p = Z.of_nat (i + S j) /\ rest !! j = Some c'
                                     /\ 0 <= c').
    { rewrite IH. split; intros (j & c' & Hp & Hj & Hc); exists j, c';
        (split; [rewrite Hp; f_equal; lia|done]). }
    destruct (0 <=? c) eqn:Hc.
    + apply Z.leb_le in Hc. rewrite elem_of_cons, Hrest. split.
      * intros [->|(j & c' & Hp & Hj & Hc')].
        -- exists 0%nat, c. rewrite Nat.add_0_r. done.
        -- exists (S j), c'. done.
      * intros ([|j] & c' & Hp & Hj & Hc').
        -- left. rewrite Hp. f_equal. lia.
        -- right. exists j, c'. done.
    + apply Z.leb_gt in Hc. rewrite Hrest. split.
      * intros (j & c' & Hp & Hj & Hc'). exists (S j), c'. done.
      * intros ([|j] & c' & Hp & Hj & Hc').
        -- simpl in Hj. injection Hj as <-. lia.
        -- exists j, c'. done.
Qed.

Lemma associated_positions_from_sorted (tgt : list Z) :
  forall (i : nat),
    StronglySorted Z.lt (associated_positions_from i tgt)
    /\ Forall (fun p => Z.of_nat i <= p) (associated_positions_from i tgt).
Proof.
  induction tgt as [|c rest IH]; intros i; simpl.
  - split; constructor.
  - destruct (IH (S i)) as [Hs Hge].
    assert (Hge' : Forall (fun p => Z.of_nat i <= p)
                     (associated_positions_from (S i) rest)).
    { eapply Forall_impl; [exact Hge|]. intros p Hp. simpl in Hp. lia. }
    destruct (0 <=? c).
    + split.
      * constructor; [exact Hs|].
        eapply Forall_impl; [exact Hge|]. intros p Hp. simpl in Hp. lia.
      * constructor; [lia|exact Hge'].
    + split; [exact Hs|exact Hge'].
Qed.

Lemma associated_targets_positions (tgt : list Z) (i : nat) :
  associated_targets tgt
  = Z.of_nat (List.length (associated_positions_from i tgt)).
Proof.
  unfold associated_targets. revert i.
  induction tgt as [|c rest IH]; intros i; simpl; [reflexivity|].
  rewrite filter_cons. destruct (0 <=? c) eqn:Hc.
  - apply Z.leb_le in Hc. rewrite decide_True by done. simpl.
    f_equal. f_equal. apply Nat2Z.inj, IH.
  - apply Z.leb_gt in Hc. rewrite decide_False by lia. apply IH.
Qed.

Lemma take_indices_associated_positions_from (before tgt : list Z) :
  take_indices (before ++ tgt)
    (associated_positions_from (List.length before) tgt)
  = filter (fun c => 0 <= c) tgt.
Proof.
  revert before. induction tgt as [|c rest IH]; intros before; simpl;
    [reflexivity|].
  rewrite filter_cons.
  assert (Hrest : take_indices (before ++ c :: rest)
                    (associated_positions_from (S (List.length before)) rest)
                  = filter (fun c0 => 0 <= c0) rest).
  { specialize (IH (before ++ [c])).
    rewrite <- app_assoc, length_app in IH. simpl in IH.
    rewrite Nat.add_1_r in IH. exact IH. }
  destruct (0 <=? c) eqn:Hc.
  - apply Z.leb_le in Hc. rewrite decide_True by done.
    unfold take_indices in *. simpl. rewrite Hrest. f_equal.
    rewrite Nat2Z.id. rewrite app_nth2 by lia. by rewrite Nat.sub_diag.
  - apply Z.leb_gt in Hc. rewrite decide_False by lia. exact Hrest.
Qed.

(** The invariant of the scan: the numbers written so far are the positions
    found so far, and the buffer keeps its length. *)
Lemma qbx_target_numberer_from_numbers (tgt : list Z) :
  forall (N i : nat) (numbers : list Z) (count : Z) (found : list Z),
    N = (i + List.length tgt)%nat ->
    List.length numbers = N ->
    (List.length found <= i)%nat ->
    take (List.length found) numbers = found ->
    let r :=
      qbx_target_numberer_from N i (Z.of_nat (List.length found)) tgt numbers
        count in
    List.length (fst r) = N
    /\ take (List.length found + List.length (associated_positions_from i tgt))
         (fst r)
       = found ++ associated_positions_from i tgt.
Proof.
  induction tgt as [|c rest IH]; intros N i numbers count found HN Hlen Hfound Htake.
  - simpl. rewrite Nat.add_0_r, app_nil_r. done.
  - simpl in HN. cbn [qbx_target_numberer_from associated_positions_from].
    destruct (0 <=? c) eqn:Hc.
    + replace (Z.of_nat (List.length found) + 1 =? Z.of_nat (List.length found))
        with false by (symmetry; apply Z.eqb_neq; lia).
      replace (Z.to_nat (Z.of_nat (List.length found) + 1 - 1))
        with (List.length found) by lia.
      replace (Z.of_nat (List.length found) + 1)
        with (Z.of_nat (List.length (found ++ [Z.of_nat i])))
        by (rewrite length_app; simpl; lia).
      set (numbers' := <[List.length found := Z.of_nat i]> numbers).
      assert (Htake' : take (List.length (found ++ [Z.of_nat i])) numbers'
                       = found ++ [Z.of_nat i]).
      { rewrite length_app. simpl. subst numbers'.
        rewrite Nat.add_1_r.
        assert (Hlt : (List.length found < List.length numbers)%nat) by lia.
        destruct (lookup_lt_is_Some_2 numbers _ Hlt) as [x Hx].
        rewrite (take_S_r _ _ (Z.of_nat i)).
        - rewrite take_insert_ge by lia. by rewrite Htake.
        - by apply list_lookup_insert_eq. }
      destruct (IH N (S i) numbers'
                  (if Nat.eqb (i + 1) N then Z.of_nat (List.length (found ++ [Z.of_nat i]))
                   else count)
                  (found ++ [Z.of_nat i])) as [Hl Ht].
      * lia.
      * subst numbers'. by rewrite length_insert.
      * rewrite length_app. simpl. lia.
      * exact Htake'.
      * split; [exact Hl|].
        rewrite length_app in Ht. simpl in Ht.
        simpl List.length. rewrite <- app_assoc in Ht. simpl in Ht.
        rewrite <- Ht. f_equal; [lia|].
        rewrite length_app. reflexivity.
    + rewrite Z.add_0_r, Z.eqb_refl.
      destruct (IH N (S i) numbers
                  (if Nat.eqb (i + 1) N then Z.of_nat (List.length found) else count)
                  found) as [Hl Ht]; try done; lia.
Qed.

(** What the scan kernel leaves in its buffers. *)
Lemma qbx_target_numberer_spec :
  forall (tgt_to_qbx_center qbx_tgt_number : list Z) (count : Z),
    List.length qbx_tgt_number = List.length tgt_to_qbx_center ->
    let numbered := qbx_target_numberer tgt_to_qbx_center qbx_tgt_number count in
    let qbx_tgt_numbers := slice_to (snd numbered) (fst numbered) in
    qbx_tgt_numbers = associated_positions tgt_to_qbx_center
    /\ StronglySorted Z.lt qbx_tgt_numbers
    /\ (forall i : nat,
          Z.of_nat i ∈ qbx_tgt_numbers
          <-> exists c, tgt_to_qbx_center !! i = Some c /\ 0 <= c)
    /\ take_indices tgt_to_qbx_center qbx_tgt_numbers
       = filter (fun c => 0 <= c) tgt_to_qbx_center.
Proof.
  intros tgt numbers count Hlen numbered qbx_tgt_numbers.
  assert (Heq : qbx_tgt_numbers = associated_positions tgt).
  { subst qbx_tgt_numbers numbered. unfold associated_positions.
    destruct tgt as [|c rest].
    - destruct numbers; [|discriminate]. unfold slice_to, qbx_target_numberer.
      cbn [qbx_target_numberer_from fst snd].
      destruct (0 <=? count); apply take_nil.
    - rewrite qbx_target_numberer_count by done.
      rewrite (associated_targets_positions _ 0).
      unfold slice_to.
      replace (0 <=? Z.of_nat _) with true by (symmetry; apply Z.leb_le; lia).
      rewrite Nat2Z.id. unfold qbx_target_numberer.
      destruct (qbx_target_numberer_from_numbers (c :: rest)
                  (List.length (c :: rest)) 0 numbers count [])
        as [_ Ht]; try done; simpl; lia. }
  rewrite Heq. split; [reflexivity|]. split; [|split].
  - apply associated_positions_from_sorted.
  - intros i. unfold associated_positions.
    rewrite associated_positions_from_elem_of. split.
    + intros (j & c & Hp & Hj & Hc). simpl in Hp.
      apply Nat2Z.inj in Hp as ->. eauto.
    + intros (c & Hj & Hc). exists i, c. done.
  - apply (take_indices_associated_positions_from [] tgt).
Qed.

(** X1: after the scan kernel of [get_qbx_target_numberer] has run on a
    target-to-center array, with a number buffer of the same length, the
    first [count] numbers are the positions of the targets that have a
    center, each once and in increasing order, and indexing the array with
    them gives the centers of these targets in order. *)
Theorem qbx_target_numberer_numbers_associated_targets :
  forall (tgt_to_qbx_center qbx_tgt_number : list Z) (count : Z),
    List.length qbx_tgt_number = List.length tgt_to_qbx_center ->
    let numbered := qbx_target_numberer tgt_to_qbx_center qbx_tgt_number count in
    let qbx_tgt_numbers := slice_to (snd numbered) (fst numbered) in
    qbx_tgt_numbers = associated_positions tgt_to_qbx_center
    /\ StronglySorted Z.lt qbx_tgt_numbers
    /\ (forall i : nat,
          Z.of_nat i ∈ qbx_tgt_numbers
          <-> exists c, tgt_to_qbx_center !! i = Some c /\ 0 <= c)
    /\ take_indices tgt_to_qbx_center qbx_tgt_numbers
       = filter (fun c => 0 <= c) tgt_to_qbx_center.
Proof. exact qbx_target_numberer_spec. Qed.

(** ** Direct execution off the source *)

Section DirectOffSource.

Context `{Values} `{!Substrate}.

(** The run of the loop body on an output off the source, up to the
    correction: the point-to-point sum, the geometry of the target for the
    normalised side, and the numbering of the associated targets. *)
Lemma direct_output_off_source (self : QBX.QBXLayerPotentialSource)
    (insn : Instruction) (bound_expr : BoundExpression)
    (kernel_args : gmap string (list Scalar)) (strengths : list Scalar)
    (o : Output) (w : world) (out : list (list Scalar))
    (targets_to_centers : list Z) (ncenters_ : nat) :
  let target_discr := get_discretization bound_expr (target_name o) in
  let key := [(target_discr, normalized_side (qbx_forced_limit o))] in
  let tgt_to_qbx_center := drop ncenters_ targets_to_centers in
  cache_consistent w ->
  target_discr <> QBX.density_discr self ->
  p2p (kernels insn) target_discr strengths kernel_args = inr out ->
  (forall g, geo_target_discrs_and_qbx_sides g = key ->
             user_target_to_center g = inr targets_to_centers
             /\ ncenters g = ncenters_) ->
  (forall n, List.length (empty_int32 n) = n) ->
  tgt_to_qbx_center <> [] ->
  forced_limit_unsatisfied (qbx_forced_limit o)
    (associated_targets tgt_to_qbx_center) (nnodes target_discr) = false ->
  exists g w1,
    geo_target_discrs_and_qbx_sides g = key
    /\ qbx_fmm_geometry_data self key
         {| geometry_cache := geometry_cache w; next_geo_id := next_geo_id w;
            trace := trace w ++ [EvP2P] |} = (inr g, w1)
    /\ direct_output self insn bound_expr kernel_args strengths o w
       = bind
           (if truthy (associated_targets tgt_to_qbx_center) then
              bind (log EvLpotApplierOnTgtSubset) (fun _ =>
              lift (lpot_applier_on_tgt_subset (kernels insn) target_discr g
                      strengths (associated_positions tgt_to_qbx_center)
                      (filter (fun c => 0 <= c) tgt_to_qbx_center) kernel_args
                      out))
            else ret out)
           (fun output_for_each_kernel =>
              bind (lift (index output_for_each_kernel (kernel_index o)))
                (fun value => ret (name o, value)))
           w1.
Proof.
  intros target_discr key tgt HI Hnotself Hp2p Hgeo Halloc Hne Hcheck.
  set (w0 := {| geometry_cache := geometry_cache w; next_geo_id := next_geo_id w;
                trace := trace w ++ [EvP2P] |}).
  destruct (qbx_fmm_geometry_data_returns self key w0) as (g & w1 & Hg & _).
  assert (HI0 : cache_consistent w0) by exact HI.
  pose proof (qbx_fmm_geometry_data_key self key w0 w1 g HI0 Hg) as Hkey.
  destruct (Hgeo g Hkey) as [Hutc Hnc].
  exists g, w1. split; [exact Hkey|]. split; [exact Hg|].
  unfold direct_output. fold target_discr.
  unfold discr_is. rewrite bool_decide_eq_false_2 by congruence.
  unfold bind at 1. unfold log at 1. unfold bind at 1. unfold lift at 1.
  rewrite Hp2p. fold key. unfold bind at 1. fold w0. rewrite Hg.
  unfold bind at 1. unfold lift at 1. rewrite Hutc, Hnc. fold tgt.
  destruct (qbx_target_numberer_spec tgt (empty_int32 (List.length tgt))
              (hd 0 (empty_int32 1)) (Halloc _)) as (Hnums & _ & _ & Hcenters).
  cbv zeta in Hnums, Hcenters.
  rewrite Hcenters, Hnums.
  rewrite qbx_target_numberer_count by exact Hne.
  rewrite Hcheck. reflexivity.
Qed.

End DirectOffSource.

Section DirectOffSourceCorrection.

Context `{Values} `{!Substrate}.

Lemma forced_limit_unsatisfied_false (l : option Z) (count nnodes_ : Z) :
  (forall s, l = Some s -> Z.abs s = 1 -> nnodes_ <= count) ->
  forced_limit_unsatisfied l count nnodes_ = false.
Proof.
  intros Hl. unfold forced_limit_unsatisfied. destruct l as [s|]; [|reflexivity].
  destruct (Z.abs s =? 1) eqn:Habs; [|reflexivity].
  apply Z.eqb_eq in Habs. simpl. apply Z.ltb_ge. by apply (Hl s).
Qed.

(** X2: in the direct path, for an output off the source whose targets
    have no QBX center at all (and whose side is not forced), the corrected
    applier is not called and the output is the value of the point-to-point
    sum for its kernel. *)
Theorem direct_off_source_without_centers :
  forall (self : QBX.QBXLayerPotentialSource) (insn : Instruction)
         (bound_expr : BoundExpression) (kernel_args : gmap string (list Scalar))
         (strengths : list Scalar) (o : Output) (w : world)
         (out : list (list Scalar)) (targets_to_centers : list Z)
         (ncenters_ : nat) (value : list Scalar),
    let target_discr := get_discretization bound_expr (target_name o) in
    let key := [(target_discr, normalized_side (qbx_forced_limit o))] in
    let tgt_to_qbx_center := drop ncenters_ targets_to_centers in
    cache_consistent w ->
    target_discr <> QBX.density_discr self ->
    p2p (kernels insn) target_discr strengths kernel_args = inr out ->
    out !! kernel_index o = Some value ->
    (forall g, geo_target_discrs_and_qbx_sides g = key ->
               user_target_to_center g = inr targets_to_centers
               /\ ncenters g = ncenters_) ->
    (forall n, List.length (empty_int32 n) = n) ->
    tgt_to_qbx_center <> [] ->
    associated_targets tgt_to_qbx_center = 0 ->
    (forall s, qbx_forced_limit o = Some s -> Z.abs s <> 1) ->
    exists w',
      direct_output self insn bound_expr kernel_args strengths o w
      = (inr (name o, value), w')
      /\ (EvLpotApplierOnTgtSubset ∈ trace w'
          -> EvLpotApplierOnTgtSubset ∈ trace w).
Proof.
  intros self insn bound_expr kernel_args strengths o w out utc nc value
    target_discr key tgt HI Hnotself Hp2p Hvalue Hgeo Halloc Hne Hzero Hfree.
  destruct (direct_output_off_source self insn bound_expr kernel_args strengths
              o w out utc nc HI Hnotself Hp2p Hgeo Halloc Hne)
    as (g & w1 & _ & Hg & Hrun).
  { apply forced_limit_unsatisfied_false. intros s Hs Habs.
    by destruct (Hfree s Hs). }
  fold target_discr tgt in Hrun. rewrite Hrun, Hzero.
  unfold bind, ret, lift, index. cbn [truthy Z_truthy Z.eqb negb].
  rewrite Hvalue. exists w1. split; [reflexivity|].
  intros Hin.
  destruct (qbx_fmm_geometry_data_trace _ _ _ _ _ _ Hg Hin) as [Hin'|?];
    [|discriminate].
  simpl in Hin'. apply elem_of_app in Hin' as [?|Hin']; [done|].
  apply list_elem_of_singleton in Hin'. discriminate.
Qed.

(** X3: in the direct path, for an output off the source some of whose
    targets have a QBX center (all of them, if a side is forced), the
    corrected applier is called once, on exactly the positions of the
    targets that have a center and on the centers of these targets, in
    order, and the output is what it leaves in the array of the output's
    kernel. *)
Theorem direct_off_source_corrects_associated_targets :
  forall (self : QBX.QBXLayerPotentialSource) (insn : Instruction)
         (bound_expr : BoundExpression) (kernel_args : gmap string (list Scalar))
         (strengths : list Scalar) (o : Output) (w : world)
         (out out' : list (list Scalar)) (targets_to_centers : list Z)
         (ncenters_ : nat) (value : list Scalar),
    let target_discr := get_discretization bound_expr (target_name o) in
    let key := [(target_discr, normalized_side (qbx_forced_limit o))] in
    let tgt_to_qbx_center := drop ncenters_ targets_to_centers in
    cache_consistent w ->
    target_discr <> QBX.density_discr self ->
    p2p (kernels insn) target_discr strengths kernel_args = inr out ->
    (forall g, geo_target_discrs_and_qbx_sides g = key ->
               user_target_to_center g = inr targets_to_centers
               /\ ncenters g = ncenters_) ->
    (forall n, List.length (empty_int32 n) = n) ->
    0 < associated_targets tgt_to_qbx_center ->
    (forall s, qbx_forced_limit o = Some s -> Z.abs s = 1 ->
               nnodes target_discr <= associated_targets tgt_to_qbx_center) ->
    (forall g, geo_target_discrs_and_qbx_sides g = key ->
               lpot_applier_on_tgt_subset (kernels insn) target_discr g strengths
                 (associated_positions tgt_to_qbx_center)
                 (filter (fun c => 0 <= c) tgt_to_qbx_center) kernel_args out
               = inr out') ->
    out' !! kernel_index o = Some value ->
    exists w',
      direct_output self insn bound_expr kernel_args strengths o w
      = (inr (name o, value), w')
      /\ trace w'
         = trace (snd (qbx_fmm_geometry_data self key
                         {| geometry_cache := geometry_cache w;
                            next_geo_id := next_geo_id w;
                            trace := trace w ++ [EvP2P] |}))
           ++ [EvLpotApplierOnTgtSubset].
Proof.
  intros self insn bound_expr kernel_args strengths o w out out' utc nc value
    target_discr key tgt HI Hnotself Hp2p Hgeo Halloc Hpos Hforced Hsubset Hvalue.
  assert (Hne : tgt <> []).
  { intros Hnil. rewrite Hnil in Hpos. unfold associated_targets in Hpos.
    simpl in Hpos. lia. }
  destruct (direct_output_off_source self insn bound_expr kernel_args strengths
              o w out utc nc HI Hnotself Hp2p Hgeo Halloc Hne)
    as (g & w1 & Hkey & Hg & Hrun).
  { by apply forced_limit_unsatisfied_false. }
  fold target_discr key tgt in Hrun, Hg, Hkey. rewrite Hrun, Hg.
  replace (truthy (associated_targets tgt)) with true.
  2:{ unfold truthy, Z_truthy. symmetry. apply negb_true_iff, Z.eqb_neq. lia. }
  unfold bind, ret, lift, log, index. rewrite (Hsubset g Hkey), Hvalue.
  eexists. split; reflexivity.
Qed.

End DirectOffSourceCorrection.

(** ** Self-evaluation, events and names of the direct path *)

Section DirectSelf.

Context `{Values} `{!Substrate}.

(** X4: in the direct path, an output on the source's own density
    discretization must force a side: without forced limit, or with the
    limit 0, the assertion fails; with a limit other than -1 and +1 the
    lookup of the centers fails; and with -1 or +1 the layer potential
    applier is called with the centers of that side, and no geometry is
    requested.  In the failing cases no collaborator was called. *)
Theorem direct_self_evaluation :
  forall (self : QBX.QBXLayerPotentialSource) (insn : Instruction)
         (bound_expr : BoundExpression) (kernel_args : gmap string (list Scalar))
         (strengths : list Scalar) (o : Output) (w : world),
    get_discretization bound_expr (target_name o) = QBX.density_discr self ->
    (qbx_forced_limit o = None \/ qbx_forced_limit o = Some 0 ->
     direct_output self insn bound_expr kernel_args strengths o w
     = (inl AssertionError, w))
    /\ (forall s, qbx_forced_limit o = Some s -> s <> 0 -> Z.abs s <> 1 ->
          direct_output self insn bound_expr kernel_args strengths o w
          = (inl KeyError, w))
    /\ (forall s out value,
          qbx_forced_limit o = Some s -> Z.abs s = 1 ->
          lpot_applier (kernels insn) (QBX.density_discr self) s strengths
            kernel_args = inr out ->
          out !! kernel_index o = Some value ->
          direct_output self insn bound_expr kernel_args strengths o w
          = (inr (name o, value),
             {| geometry_cache := geometry_cache w;
                next_geo_id := next_geo_id w;
                trace := trace w ++ [EvLpotApplier] |})).
Proof.
  intros self insn bound_expr kernel_args strengths o w Hself.
  unfold direct_output, discr_is. rewrite Hself.
  rewrite bool_decide_eq_true_2 by reflexivity.
  split; [|split].
  - intros [->| ->]; reflexivity.
  - intros s -> Hs Habs.
    replace (0 <? Z.abs s) with true by (symmetry; apply Z.ltb_lt; lia).
    unfold bind, lift, centers_subscript. cbn [negb].
    replace (s =? -1) with false by (symmetry; apply Z.eqb_neq; lia).
    replace (s =? 1) with false by (symmetry; apply Z.eqb_neq; lia).
    reflexivity.
  - intros s out value -> Habs Happly Hvalue.
    replace (0 <? Z.abs s) with true by (symmetry; apply Z.ltb_lt; lia).
    unfold bind, lift, log, ret, centers_subscript, index. cbn [negb].
    replace ((s =? -1) || (s =? 1)) with true.
    2:{ symmetry. apply orb_true_iff. rewrite !Z.eqb_eq. lia. }
    rewrite Happly, Hvalue. reflexivity.
Qed.

Lemma gained_refl (P : event -> Prop) (w : world) : gained P w w.
Proof. exists []. by rewrite app_nil_r. Qed.

Lemma maintains_gained_log (P : event -> Prop) (w0 : world) (e : event) :
  P e -> maintains (gained P w0) (log e).
Proof.
  intros HP w r w' (evs & Ht & HF) [= <- <-]. exists (evs ++ [e]). simpl.
  rewrite Ht, app_assoc. split; [done|].
  apply Forall_app. split; [done|]. by constructor.
Qed.

Lemma maintains_gained_geometry (P : event -> Prop) (w0 : world)
    (self : QBX.QBXLayerPotentialSource) (key : target_discrs_and_sides) :
  P (EvGeometryBuilt key) ->
  maintains (gained P w0) (qbx_fmm_geometry_data self key).
Proof.
  intros HP w r w' (evs & Ht & HF). unfold qbx_fmm_geometry_data.
  destruct (geometry_cache w !! key); intros [= <- <-]; [by exists evs|].
  exists (evs ++ [EvGeometryBuilt key]). simpl.
  rewrite Ht, app_assoc. split; [done|].
  apply Forall_app. split; [done|]. by constructor.
Qed.

Lemma maintains_for_each {A B} (Inv : world -> Prop) (f : A -> M B) (l : list A) :
  (forall a, maintains Inv (f a)) -> maintains Inv (for_each f l).
Proof.
  intros Hf. induction l as [|a l IH]; simpl.
  - apply maintains_ret.
  - apply maintains_bind; [apply Hf|]. intros b.
    apply maintains_bind; [exact IH|]. intros bs. apply maintains_ret.
Qed.

(** The events of the loop body of the direct path. *)
Lemma maintains_gained_direct_output (w0 : world)
    (self : QBX.QBXLayerPotentialSource) (insn : Instruction)
    (bound_expr : BoundExpression) (kernel_args : gmap string (list Scalar))
    (strengths : list Scalar) (o : Output) :
  maintains (gained direct_event w0)
    (direct_output self insn bound_expr kernel_args strengths o).
Proof.
  unfold direct_output.
  repeat first
    [ apply maintains_ret | apply maintains_raise | apply maintains_lift
    | apply maintains_gained_log; exact I
    | apply maintains_gained_geometry; exact I
    | apply maintains_bind; [|intros ?]
    | match goal with
      | |- maintains _ (if ?b then _ else _) => destruct b
      | |- maintains _ (match ?x with Some _ => _ | None => _ end) => destruct x
      end ].
Qed.

(** X5: whatever the direct path does and however it ends, it never
    consults the geometry inspection hook and never calls an FMM driver:
    the calls it adds to the record are point-to-point sums, layer potential
    appliers and constructions of geometry. *)
Theorem direct_path_events :
  forall (self : QBX.QBXLayerPotentialSource) (insn : Instruction)
         (bound_expr : BoundExpression) (return_timing_data : bool)
         (w w' : world) (r : result ExecReturn),
    exec_compute_potential_insn_direct self insn bound_expr return_timing_data w
    = (r, w') ->
    exists evs,
      trace w' = trace w ++ evs
      /\ Forall direct_event evs
      /\ (EvFmmDriver ∉ evs)
      /\ (forall b, EvInspector b ∉ evs).
Proof.
  intros self insn bound_expr rtd w w' r Hrun.
  assert (Hm : maintains (gained direct_event w)
                 (exec_compute_potential_insn_direct self insn bound_expr rtd)).
  { unfold exec_compute_potential_insn_direct.
    apply maintains_bind; [apply maintains_lift|]. intros kernel_args.
    apply maintains_bind; [apply maintains_lift|]. intros strengths.
    apply maintains_bind; [|intros ?; apply maintains_ret].
    apply maintains_for_each. intros o. apply maintains_gained_direct_output. }
  destruct (Hm w r w' (gained_refl _ w) Hrun) as (evs & Ht & HF).
  exists evs. split; [exact Ht|]. split; [exact HF|].
  rewrite Forall_forall in HF. split.
  - intros Hin. exact (HF _ Hin).
  - intros b Hin. exact (HF _ Hin).
Qed.

End DirectSelf.

(** ** Assignments of the FMM path *)

Section ReturnsOnly.

Context {A B : Type}.

Lemma returns_only_ret (Q : A -> Prop) (a : A) : Q a -> returns_only Q (ret a).
Proof. by intros HQ w a' w' [= <- <-]. Qed.

Lemma returns_only_raise (Q : A -> Prop) (e : exn) :
  returns_only Q (raise (A := A) e).
Proof. intros w a w' [=]. Qed.

Lemma returns_only_bind (Q : B -> Prop) (m : M A) (k : A -> M B) :
  (forall a, returns_only Q (k a)) -> returns_only Q (bind m k).
Proof.
  intros Hk w b w'. unfold bind. destruct (m w) as [[e|a] w1]; [intros [=]|].
  apply Hk.
Qed.

Lemma comprehension_Forall2 (f : A -> result B) (l : list A) :
  forall bs, comprehension f l = inr bs -> Forall2 (fun a b => f a = inr b) l bs.
Proof.
  induction l as [|a l IH]; simpl; intros bs.
  - intros [= <-]. constructor.
  - destruct (f a) as [e|b] eqn:Hfa; [discriminate|].
    destruct (comprehension f l) as [e|bs']; [discriminate|].
    intros [= <-]. constructor; [done|]. by apply IH.
Qed.

Lemma for_each_Forall2 (f : A -> M B) (l : list A) :
  forall w bs w',
    for_each f l w = (inr bs, w') ->
    Forall2 (fun a b => exists w1 w2, f a w1 = (inr b, w2)) l bs.
Proof.
  induction l as [|a l IH]; simpl; intros w bs w'.
  - intros [= <- <-]. constructor.
  - unfold bind at 1. destruct (f a w) as [[e|b] w1] eqn:Hfa; [discriminate|].
    unfold bind at 1. destruct (for_each f l w1) as [[e|bs'] w2] eqn:Hl;
      [discriminate|].
    intros [= <- <-]. constructor; [eauto|]. by eapply IH.
Qed.

End ReturnsOnly.

Section FmmAssignments.

Context `{Values} `{!Substrate}.

Lemma fmm_output_inv (geo_data : QBXFMMGeometryData)
    (numbering : gmap (string * forced_limit) nat)
    (potentials : list (list Scalar)) (o : Output) (p : string * list Scalar) :
  fmm_output geo_data numbering potentials o = inr p ->
  exists n potential,
    numbering !! output_key o = Some n
    /\ potentials !! kernel_index o = Some potential
    /\ target_slice (target_discr_starts geo_data) n potential = inr (snd p)
    /\ fst p = name o.
Proof.
  unfold fmm_output, subscript, index, rbind. fold (output_key o).
  destruct (numbering !! output_key o) as [n|]; [|discriminate].
  destruct (potentials !! kernel_index o) as [potential|]; [|discriminate].
  destruct (target_slice _ n potential) as [e|values] eqn:Hs; [discriminate|].
  intros [= <-]. exists n, potential. done.
Qed.

(** How a run of the FMM path ends: the calls it recorded after the
    geometry accessor, by result. *)
Lemma exec_compute_potential_insn_fmm_inv (self : QBX.QBXLayerPotentialSource)
    (insn : Instruction) (bound_expr : BoundExpression) (fmm_driver : FmmDriver)
    (w w' : world) (r : result ExecReturn) :
  exec_compute_potential_insn_fmm self insn bound_expr fmm_driver w = (r, w') ->
  exists geo_data w1 evs,
    qbx_fmm_geometry_data self
      (snd (get_target_discrs_and_qbx_sides insn bound_expr)) w
    = (inr geo_data, w1)
    /\ trace w' = trace w1 ++ evs
    /\ geometry_cache w' = geometry_cache w1
    /\ match r with
       | inl _ =>
           evs = [] \/ evs = [EvFmmDriver]
           \/ evs = [EvInspector true; EvFmmDriver]
       | inr (ZeroPlaceholders assignments) =>
           evs = [EvInspector false]
           /\ assignments = map (fun o => (name o, 0)) (outputs insn)
       | inr (FmmPotentials assignments extra_outputs) =>
           (evs = [EvFmmDriver] \/ evs = [EvInspector true; EvFmmDriver])
           /\ exists wrangler strengths fmm_kernel kernel_extra_kwargs potentials,
                fmm_driver wrangler strengths geo_data fmm_kernel
                  kernel_extra_kwargs = inr (potentials, extra_outputs)
                /\ comprehension
                     (fmm_output geo_data
                        (fst (get_target_discrs_and_qbx_sides insn bound_expr))
                        potentials)
                     (outputs insn) = inr assignments
       | inr (DirectPotentials _) => False
       end.
Proof.
  destruct (qbx_fmm_geometry_data_returns self
              (snd (get_target_discrs_and_qbx_sides insn bound_expr)) w)
    as (geo_data & w1 & Hgeo & _).
  intros Hrun. exists geo_data, w1.
  assert (Hearly : forall e, (r, w') = (inl e, w1) ->
            exists evs, (inr geo_data, w1) = (inr (A := exn) geo_data, w1)
              /\ trace w' = trace w1 ++ evs
              /\ geometry_cache w' = geometry_cache w1
              /\ match r with
                 | inl _ => evs = [] \/ evs = [EvFmmDriver]
                            \/ evs = [EvInspector true; EvFmmDriver]
                 | inr _ => False
                 end).
  { intros e [= -> ->]. exists []. rewrite app_nil_r. auto. }
  revert Hrun.
  unfold exec_compute_potential_insn_fmm, bind at 1. rewrite Hgeo.
  unfold bind at 1, lift at 1.
  destruct (evaluate_strengths insn) as [e|strengths];
    [intros Hr; symmetry in Hr; destruct (Hearly e Hr) as (evs & _ & ? & ? & Hm);
     exists evs; destruct r; [auto|destruct Hm]|].
  unfold bind at 1, lift at 1.
  destruct (get_fmm_kernel (kernels insn)) as [e|fmm_kernel];
    [intros Hr; symmetry in Hr; destruct (Hearly e Hr) as (evs & _ & ? & ? & Hm);
     exists evs; destruct r; [auto|destruct Hm]|].
  unfold bind at 1, lift at 1.
  destruct (get_fmm_output_and_expansion_dtype fmm_kernel strengths) as [e|dt];
    [intros Hr; symmetry in Hr; destruct (Hearly e Hr) as (evs & _ & ? & ? & Hm);
     exists evs; destruct r; [auto|destruct Hm]|].
  unfold bind at 1, lift at 1.
  destruct (get_fmm_expansion_wrangler_extra_kwargs _ _ _) as [e|kw];
    [intros Hr; symmetry in Hr; destruct (Hearly e Hr) as (evs & _ & ? & ? & Hm);
     exists evs; destruct r; [auto|destruct Hm]|].
  unfold bind at 1, lift at 1.
  destruct (expansion_wrangler_code_container _ _ _) as [e|code];
    [intros Hr; symmetry in Hr; destruct (Hearly e Hr) as (evs & _ & ? & ? & Hm);
     exists evs; destruct r; [auto|destruct Hm]|].
  unfold bind at 1, lift at 1.
  destruct (get_wrangler _ _ _) as [e|wrangler];
    [intros Hr; symmetry in Hr; destruct (Hearly e Hr) as (evs & _ & ? & ? & Hm);
     exists evs; destruct r; [auto|destruct Hm]|].
  unfold bind at 1, lift at 1.
  destruct (user_target_to_center geo_data) as [e|utc];
    [intros Hr; symmetry in Hr; destruct (Hearly e Hr) as (evs & _ & ? & ? & Hm);
     exists evs; destruct r; [auto|destruct Hm]|].
  destruct (existsb _ utc);
    [unfold raise; intros Hr; symmetry in Hr;
     destruct (Hearly _ Hr) as (evs & _ & ? & ? & Hm);
     exists evs; destruct r; [auto|destruct Hm]|].
  clear Hearly.
  assert (Hdrive : forall w2 pre,
            trace w2 = trace w1 ++ pre ->
            geometry_cache w2 = geometry_cache w1 ->
            (pre = [] \/ pre = [EvInspector true]) ->
            bind (log EvFmmDriver) (fun _ =>
              bind (lift (fmm_driver wrangler strengths geo_data fmm_kernel (fst kw)))
                (fun driven =>
                   bind (lift (comprehension
                                 (fmm_output geo_data
                                    (fst (get_target_discrs_and_qbx_sides insn
                                            bound_expr))
                                    (fst driven))
                                 (outputs insn)))
                     (fun result_ => ret (FmmPotentials result_ (snd driven))))) w2
            = (r, w') ->
            exists evs,
              (inr geo_data, w1) = (inr (A := exn) geo_data, w1)
              /\ trace w' = trace w1 ++ evs
              /\ geometry_cache w' = geometry_cache w1
              /\ match r with
                 | inl _ => evs = [] \/ evs = [EvFmmDriver]
                            \/ evs = [EvInspector true; EvFmmDriver]
                 | inr (ZeroPlaceholders assignments) =>
                     evs = [EvInspector false]
                     /\ assignments = map (fun o => (name o, 0)) (outputs insn)
                 | inr (FmmPotentials assignments extra_outputs) =>
                     (evs = [EvFmmDriver] \/ evs = [EvInspector true; EvFmmDriver])
                     /\ exists wrangler strengths fmm_kernel kernel_extra_kwargs
                               potentials,
                          fmm_driver wrangler strengths geo_data fmm_kernel
                            kernel_extra_kwargs = inr (potentials, extra_outputs)
                          /\ comprehension
                               (fmm_output geo_data
                                  (fst (get_target_discrs_and_qbx_sides insn
                                          bound_expr))
                                  potentials)
                               (outputs insn) = inr assignments
                 | inr (DirectPotentials _) => False
                 end).
  { intros w2 pre Ht Hc Hpre. unfold bind, log, lift, ret.
    assert (Hevs : pre ++ [EvFmmDriver] = [EvFmmDriver]
                   \/ pre ++ [EvFmmDriver] = [EvInspector true; EvFmmDriver]).
    { destruct Hpre as [-> | ->]; auto. }
    destruct (fmm_driver wrangler strengths geo_data fmm_kernel (fst kw))
      as [e|[potentials extra]] eqn:Hdrv.
    - intros [= <- <-]. exists (pre ++ [EvFmmDriver]). simpl.
      rewrite Ht, app_assoc. repeat split; auto; tauto.
    - simpl fst. simpl snd.
      destruct (comprehension _ (outputs insn)) as [e|rs] eqn:Hcomp.
      + intros [= <- <-]. exists (pre ++ [EvFmmDriver]). simpl.
        rewrite Ht, app_assoc. repeat split; auto; tauto.
      + intros [= <- <-]. exists (pre ++ [EvFmmDriver]). simpl.
        rewrite Ht, app_assoc. repeat split; auto.
        exists wrangler, strengths, fmm_kernel, (fst kw), potentials. auto. }
  destruct (QBX.geometry_data_inspector self) as [inspector|].
  - unfold bind at 1, log at 1.
    destruct (inspector insn bound_expr geo_data) eqn:Hinsp; cbn [negb].
    + intros Hr.
      eapply (Hdrive _ [EvInspector true]) in Hr;
        [|reflexivity|reflexivity|right; reflexivity].
      destruct Hr as (evs & _ & Hrest).
      exists evs. split; [reflexivity|exact Hrest].
    + unfold ret. intros [= <- <-]. exists [EvInspector false]. simpl. auto.
  - intros Hr.
    eapply (Hdrive w1 []) in Hr;
      [|by rewrite app_nil_r|reflexivity|left; reflexivity].
    destruct Hr as (evs & _ & Hrest).
    exists evs. split; [reflexivity|exact Hrest].
Qed.

End FmmAssignments.

Section FmmPathFacts.

Context `{Values} `{!Substrate}.

(** X6: a run of the FMM path calls the FMM driver at most once, and the
    inspection hook at most once and before the driver.  When it returns
    potentials, the driver ran exactly once, [extra_outputs] is what the
    driver returned, and the assignments are made, output by output, from
    the one array of potentials the driver returned; when it returns the
    placeholders, only the hook was called.  It never returns the result of
    the direct path. *)
Theorem fmm_path_runs_driver_once :
  forall (self : QBX.QBXLayerPotentialSource) (insn : Instruction)
         (bound_expr : BoundExpression) (fmm_driver : FmmDriver)
         (w w' : world) (r : result ExecReturn),
    exec_compute_potential_insn_fmm self insn bound_expr fmm_driver w = (r, w') ->
    exists geo_data w1 evs,
      qbx_fmm_geometry_data self
        (snd (get_target_discrs_and_qbx_sides insn bound_expr)) w
      = (inr geo_data, w1)
      /\ trace w' = trace w1 ++ evs
      /\ geometry_cache w' = geometry_cache w1
      /\ match r with
         | inl _ =>
             evs = [] \/ evs = [EvFmmDriver]
             \/ evs = [EvInspector true; EvFmmDriver]
         | inr (ZeroPlaceholders assignments) =>
             evs = [EvInspector false]
             /\ assignments = map (fun o => (name o, 0)) (outputs insn)
         | inr (FmmPotentials assignments extra_outputs) =>
             (evs = [EvFmmDriver] \/ evs = [EvInspector true; EvFmmDriver])
             /\ exists wrangler strengths fmm_kernel kernel_extra_kwargs potentials,
                  fmm_driver wrangler strengths geo_data fmm_kernel
                    kernel_extra_kwargs = inr (potentials, extra_outputs)
                  /\ comprehension
                       (fmm_output geo_data
                          (fst (get_target_discrs_and_qbx_sides insn bound_expr))
                          potentials)
                       (outputs insn) = inr assignments
         | inr (DirectPotentials _) => False
         end.
Proof. exact exec_compute_potential_insn_fmm_inv. Qed.

(** X7: in the result of the FMM path, two outputs that name the same
    target with the same forced limit and the same kernel are assigned
    equal values: both are the same slice of the same array of potentials. *)
Theorem fmm_outputs_sharing_key_share_values :
  forall (self : QBX.QBXLayerPotentialSource) (insn : Instruction)
         (bound_expr : BoundExpression) (fmm_driver : FmmDriver)
         (w w' : world) (assignments : list (string * list Scalar))
         (extra_outputs : Extra) (i j : nat) (o o' : Output)
         (p p' : string * list Scalar),
    exec_compute_potential_insn_fmm self insn bound_expr fmm_driver w
    = (inr (FmmPotentials assignments extra_outputs), w') ->
    outputs insn !! i = Some o -> outputs insn !! j = Some o' ->
    target_name o = target_name o' ->
    qbx_forced_limit o = qbx_forced_limit o' ->
    kernel_index o = kernel_index o' ->
    assignments !! i = Some p -> assignments !! j = Some p' ->
    fst p = name o /\ fst p' = name o' /\ snd p = snd p'.
Proof.
  intros self insn bound_expr fmm_driver w w' assignments extra i j o o' p p'
    Hrun Hi Hj Hname Hlimit Hknl Hp Hp'.
  destruct (exec_compute_potential_insn_fmm_inv _ _ _ _ _ _ _ Hrun)
    as (geo_data & w1 & evs & _ & _ & _ & _ & Hdriven).
  destruct Hdriven as (wrangler & strengths & k & kw & potentials & _ & Hcomp).
  apply comprehension_Forall2 in Hcomp.
  pose proof (Forall2_lookup_lr _ _ _ _ _ _ Hcomp Hi Hp) as Ho.
  pose proof (Forall2_lookup_lr _ _ _ _ _ _ Hcomp Hj Hp') as Ho'.
  apply fmm_output_inv in Ho as (n & pot & Hn & Hpot & Hslice & Hfst).
  apply fmm_output_inv in Ho' as (n' & pot' & Hn' & Hpot' & Hslice' & Hfst').
  split; [exact Hfst|]. split; [exact Hfst'|].
  assert (Hkey : output_key o = output_key o').
  { unfold output_key. by rewrite Hname, Hlimit. }
  rewrite Hkey, Hn' in Hn. injection Hn as <-.
  rewrite Hknl, Hpot' in Hpot. injection Hpot as <-.
  rewrite Hslice' in Hslice. by injection Hslice.
Qed.

(** X8: a source whose backend is "fmmlib" cannot run the FMM path: the
    keyword arguments that the path hands to [get_wrangler] include
    [_use_target_specific_qbx], which the fmmlib code container does not
    take, so that the run raises after the geometry accessor, without a call
    of the hook or of the driver; the exception is that [TypeError] unless a
    collaborator raised before. *)
Theorem fmmlib_backend_never_reaches_driver :
  forall (self : QBX.QBXLayerPotentialSource) (insn : Instruction)
         (bound_expr : BoundExpression) (fmm_driver : FmmDriver) (w : world),
    QBX.fmm_backend self = "fmmlib" ->
    exists e,
      exec_compute_potential_insn_fmm self insn bound_expr fmm_driver w
      = (inl e,
         snd (qbx_fmm_geometry_data self
                (snd (get_target_discrs_and_qbx_sides insn bound_expr)) w))
      /\ (forall strengths fmm_kernel dt kw geo_data,
            evaluate_strengths insn = inr strengths ->
            get_fmm_kernel (kernels insn) = inr fmm_kernel ->
            get_fmm_output_and_expansion_dtype fmm_kernel strengths = inr dt ->
            get_fmm_expansion_wrangler_extra_kwargs (kernels insn) geo_data insn
            = inr kw ->
            fst (qbx_fmm_geometry_data self
                   (snd (get_target_discrs_and_qbx_sides insn bound_expr)) w)
            = inr geo_data ->
            e = TypeError (unexpected_keyword_msg "_use_target_specific_qbx")).
Proof.
  intros self insn bound_expr fmm_driver w Hbackend.
  destruct (qbx_fmm_geometry_data_returns self
              (snd (get_target_discrs_and_qbx_sides insn bound_expr)) w)
    as (geo_data & w1 & Hgeo & _).
  unfold exec_compute_potential_insn_fmm, bind, lift. rewrite Hgeo. simpl snd.
  destruct (evaluate_strengths insn) as [e|strengths].
  { exists e. split; [reflexivity|]. intros; discriminate. }
  destruct (get_fmm_kernel (kernels insn)) as [e|fmm_kernel].
  { exists e. split; [reflexivity|]. intros; discriminate. }
  destruct (get_fmm_output_and_expansion_dtype fmm_kernel strengths) as [e|dt]
    eqn:Hdt.
  { exists e. split; [reflexivity|].
    intros ? ? ? ? ? [= <-] [= <-] Hdt'. congruence. }
  destruct (get_fmm_expansion_wrangler_extra_kwargs _ _ _) as [e|kw] eqn:Hkw.
  { exists e. split; [reflexivity|].
    intros ? ? ? ? g [= <-] [= <-] _ Hkw' [= <-]. congruence. }
  unfold expansion_wrangler_code_container, get_wrangler, get_wrangler_arg_names.
  rewrite Hbackend. simpl.
  eexists. split; [reflexivity|]. intros. reflexivity.
Qed.

End FmmPathFacts.

(** ** Dispatch *)

Section DispatchFacts.

Context `{Values} `{!Substrate}.

Lemma direct_output_name (self : QBX.QBXLayerPotentialSource)
    (insn : Instruction) (bound_expr : BoundExpression)
    (kernel_args : gmap string (list Scalar)) (strengths : list Scalar)
    (o : Output) :
  returns_only (fun p => fst p = name o)
    (direct_output self insn bound_expr kernel_args strengths o).
Proof.
  unfold direct_output.
  repeat first
    [ apply returns_only_ret; reflexivity | apply returns_only_raise
    | apply returns_only_bind; intros ?
    | match goal with
      | |- returns_only _ (if ?b then _ else _) => destruct b
      | |- returns_only _ (match ?x with Some _ => _ | None => _ end) => destruct x
      end ].
Qed.

Lemma Forall2_names {A} (P : Output -> string * A -> Prop) (os : list Output)
    (ps : list (string * A)) :
  Forall2 P os ps -> (forall o p, P o p -> fst p = name o) ->
  map fst ps = map name os.
Proof.
  intros HF HP. induction HF as [|o p os ps Hop _ IH]; simpl; [reflexivity|].
  by rewrite (HP o p Hop), IH.
Qed.

(** X9: whichever path [exec_compute_potential_insn] takes, the list of
    assignments it returns assigns exactly the names of the outputs of the
    instruction, one assignment per output and in their order; this
    includes the placeholders returned after a veto of the hook. *)
Theorem exec_compute_potential_insn_assigns_the_outputs :
  forall (self : QBX.QBXLayerPotentialSource) (insn : Instruction)
         (bound_expr : BoundExpression) (return_timing_data : bool)
         (w w' : world) (returned : ExecReturn),
    exec_compute_potential_insn self insn bound_expr return_timing_data w
    = (inr returned, w') ->
    assigned_names returned = map name (outputs insn).
Proof.
  intros self insn bound_expr rtd w w' returned.
  assert (Hfmm : forall driver,
             exec_compute_potential_insn_fmm self insn bound_expr driver w
             = (inr returned, w') ->
             assigned_names returned = map name (outputs insn)).
  { intros driver Hrun.
    destruct (exec_compute_potential_insn_fmm_inv _ _ _ _ _ _ _ Hrun)
      as (geo_data & w1 & evs & _ & _ & _ & Hmatch).
    destruct returned as [a|a extra|a]; simpl.
    - destruct Hmatch as [_ ->]. by rewrite map_map.
    - destruct Hmatch as (_ & ? & ? & ? & ? & potentials & _ & Hcomp).
      apply comprehension_Forall2 in Hcomp.
      eapply Forall2_names; [exact Hcomp|].
      intros o p Hop. by apply fmm_output_inv in Hop as (? & ? & _ & _ & _ & ?).
    - destruct Hmatch. }
  unfold exec_compute_potential_insn.
  destruct (QBX.fmm_level_to_order self); [|apply Hfmm..].
  unfold exec_compute_potential_insn_direct, bind at 1, lift at 1.
  destruct (evaluate_kernel_arguments insn) as [e|kernel_args]; [discriminate|].
  unfold bind at 1, lift at 1.
  destruct (evaluate_strengths insn) as [e|strengths]; [discriminate|].
  unfold bind, ret.
  destruct (for_each _ (outputs insn) w) as [[e|rs] w2] eqn:Hloop; [discriminate|].
  intros [= <- <-]. simpl.
  apply for_each_Forall2 in Hloop.
  eapply Forall2_names; [exact Hloop|].
  intros o p (w3 & w4 & Hop). by eapply direct_output_name.
Qed.

(** X10: the path of a constructed source is fixed by its construction:
    the direct path is taken exactly by the sources constructed with
    [fmm_order=False] and no [fmm_level_to_order], or with
    [fmm_level_to_order=False]; every other source takes the FMM path with
    the driver [drive_fmm]. *)
Theorem constructed_source_dispatch :
  forall (a : QBX.init_args) (self : QBX.QBXLayerPotentialSource)
         (insn : Instruction) (bound_expr : BoundExpression)
         (return_timing_data : bool),
    QBX.__init__ a = inr self ->
    let direct :=
      (QBX.i_fmm_order a = OrderFalse /\ QBX.i_fmm_level_to_order a = None)
      \/ QBX.i_fmm_level_to_order a = Some LtoFalse in
    (direct ->
     exec_compute_potential_insn self insn bound_expr return_timing_data
     = exec_compute_potential_insn_direct self insn bound_expr return_timing_data)
    /\ (~ direct ->
        exec_compute_potential_insn self insn bound_expr return_timing_data
        = exec_compute_potential_insn_fmm self insn bound_expr
            (fun wrangler strengths _ _ _ =>
               drive_fmm wrangler strengths return_timing_data)).
Proof.
  intros a self insn bound_expr rtd Hinit.
  assert (Hlto : QBX.fmm_level_to_order self
                 = match QBX.i_fmm_level_to_order a with
                   | None => match QBX.i_fmm_order a with
                             | OrderFalse => LtoFalse
                             | fmm_order => LtoFixed fmm_order
                             end
                   | Some f => f
                   end).
  { revert Hinit. unfold QBX.__init__.
    destruct (QBX.i_fine_order a); [|discriminate].
    destruct (QBX.i_qbx_order a); [|discriminate].
    destruct (QBX.init_tolerance_arg _ _) as [e|[|[t|]]]; simpl; try discriminate;
      destruct (QBX.i_fmm_order a), (QBX.i_fmm_level_to_order a);
      intros Hs; try discriminate; injection Hs as <-; reflexivity. }
  intros direct. unfold exec_compute_potential_insn. rewrite Hlto.
  subst direct. split.
  - intros [[-> ->]| ->]; reflexivity.
  - intros Hcase.
    destruct (QBX.i_fmm_level_to_order a) as [[| |]|] eqn:Hf; try reflexivity.
    + exfalso. apply Hcase. by right.
    + destruct (QBX.i_fmm_order a) eqn:Ho; try reflexivity.
      exfalso. apply Hcase. by left.
Qed.

End DispatchFacts.

(** ** Errors of [copy] *)

(** X11: a copy of a constructed QBX source can fail for three reasons
    only, tested in this order: both the tolerance and its deprecated alias
    are given ([TypeError]), both [fmm_order] and [fmm_level_to_order] are
    given ([TypeError]), or the tolerance (or its alias) is given as [None]
    ([AssertionError]).  The constructor's complaints about a missing
    [fine_order] or [qbx_order] cannot occur, and in every other case the
    copy returns a source. *)
Theorem copy_fails_only_on_conflicts :
  forall (a : QBX.init_args) (self : QBX.QBXLayerPotentialSource)
         (c : QBX.copy_args),
    QBX.__init__ a = inr self ->
    match QBX.c_target_stick_out_factor c, QBX.c_target_association_tolerance c,
          QBX.c_fmm_order c, QBX.c_fmm_level_to_order c with
    | provided _, provided _, _, _ =>
        QBX.copy self c = inl (TypeError QBX.both_tolerances_msg)
    | _, _, provided _, provided _ =>
        QBX.copy self c = inl (TypeError QBX.both_orders_msg)
    | provided None, not_provided, _, _
    | not_provided, provided None, _, _ =>
        QBX.copy self c = inl AssertionError
    | _, _, _, _ => exists s', QBX.copy self c = inr s'
    end.
Proof.
  intros a self c Hinit.
  destruct (constructed_source_inv a self Hinit) as [[t Ht] _].
  unfold QBX.copy, QBX.copy_tolerance_arg, QBX.copy_order_kwargs, QBX.__init__.
  rewrite Ht.
  destruct (QBX.c_target_stick_out_factor c) as [|[f|]],
    (QBX.c_target_association_tolerance c) as [|[t'|]],
    (QBX.c_fmm_order c) as [|[| |n]],
    (QBX.c_fmm_level_to_order c) as [|[l|]];
    simpl; eauto.
Qed.

(** ** The unregularized source *)

(** X12: [UnregularizedLayerPotentialSource.copy] always returns a source:
    the density discretization and the debug flag are the overrides where
    given, the level-to-order attribute is the override unless that is
    [None] or [False] (so a copy cannot switch to direct evaluation), and
    the expansion factory is the default one whatever the original had. *)
Theorem unregularized_copy_resets_expansion_factory :
  forall (self : Unregularized.UnregularizedLayerPotentialSource)
         (density_discr : option Discretization)
         (fmm_level_to_order : option LevelToOrder) (debug : option bool),
    exists s',
      Unregularized.copy self density_discr fmm_level_to_order debug = inr s'
      /\ Unregularized.expansion_factory s' = DefaultExpansionFactory
      /\ Unregularized.density_discr s'
         = if_not_None density_discr (Unregularized.density_discr self)
      /\ Unregularized.debug s' = if_not_None debug (Unregularized.debug self)
      /\ Unregularized.fmm_level_to_order s'
         = match fmm_level_to_order with
           | None | Some LtoFalse => Unregularized.fmm_level_to_order self
           | Some f => f
           end.
Proof.
  intros self dd lto dbg. eexists. split; [reflexivity|]. simpl.
  destruct dd, dbg, lto as [[]|]; repeat split; reflexivity.
Qed.

Section MonadInversion.

Lemma bind_lift_inv {A B} (r : result A) (k : A -> M B) (w w' : world) (b : B) :
  bind (lift r) k w = (inr b, w') ->
  exists a, r = inr a /\ k a w = (inr b, w').
Proof.
  unfold bind, lift. destruct r as [e|a]; [discriminate|]. eauto.
Qed.

Lemma bind_lift_inl {A B} (e : exn) (k : A -> M B) (w : world) :
  bind (lift (inl e)) k w = (inl e, w).
Proof. reflexivity. Qed.

Lemma bind_lift_inr {A B} (a : A) (k : A -> M B) (w : world) :
  bind (lift (inr a)) k w = k a w.
Proof. reflexivity. Qed.

Lemma comprehension_map {A B C} (f : B -> result C) (g : A -> B) (l : list A) :
  comprehension f (map g l) = comprehension (fun a => f (g a)) l.
Proof.
  induction l as [|a l IH]; simpl; [done|]. by rewrite IH.
Qed.

Lemma comprehension_ext {A B} (f g : A -> result B) (l : list A) :
  (forall a, a ∈ l -> f a = g a) -> comprehension f l = comprehension g l.
Proof.
  induction l as [|a l IH]; intros Hfg; simpl; [done|].
  rewrite (Hfg a) by apply list_elem_of_here.
  rewrite IH; [done|]. intros x Hx. apply Hfg. by apply list_elem_of_further.
Qed.

End MonadInversion.

Section UnregularizedTargetInfo.

Import UnregularizedExecution.
Context `{Values} `{!Collaborators}.

Lemma target_starts_from_lookup (ts : list TargetObject) :
  forall (k : Z) (i : nat),
    (i <= List.length ts)%nat ->
    (fst (target_starts_from k ts) ++ [snd (target_starts_from k ts)]) !! i
    = Some (k + total_ndofs (take i ts)).
Proof.
  induction ts as [|t ts IH]; intros k i Hi; simpl in *.
  - assert (i = 0%nat) as -> by lia. simpl. f_equal. lia.
  - destruct (target_starts_from (k + ndofs t) ts) as [starts total] eqn:Hrec.
    destruct i as [|i]; simpl.
    + f_equal. lia.
    + specialize (IH (k + ndofs t) i ltac:(lia)). rewrite Hrec in IH.
      simpl in IH. rewrite IH. f_equal. lia.
Qed.


Lemma target_starts_from_total (ts : list TargetObject) (k : Z) :
  snd (target_starts_from k ts) = k + total_ndofs ts.
Proof.
  revert k. induction ts as [|t ts IH]; intros k; simpl; [lia|].
  specialize (IH (k + ndofs t)).
  destruct (target_starts_from (k + ndofs t) ts). simpl in *. lia.
Qed.

Lemma target_info_inv (geo_data : _FMMGeometryData) (target_info_ : _TargetInfo) :
  target_info geo_data = inr target_info_ ->
  target_discr_starts target_info_
  = fst (target_starts_from 0 (target_discrs geo_data))
      ++ [snd (target_starts_from 0 (target_discrs geo_data))]
  /\ ntargets target_info_ = snd (target_starts_from 0 (target_discrs geo_data)).
Proof.
  unfold target_info.
  destruct (target_starts_from 0 (target_discrs geo_data)) as [starts total].
  unfold rbind. destruct (assemble_targets _ _ _); [discriminate|].
  intros [= <-]. done.
Qed.

Lemma total_ndofs_nonneg (ts : list TargetObject) :
  Forall (fun t => 0 <= ndofs t) ts -> 0 <= total_ndofs ts.
Proof. induction 1; simpl; lia. Qed.

Lemma py_slice_nonneg {A} (a b : Z) (l : list A) :
  0 <= a -> a <= b -> b <= Z.of_nat (List.length l) ->
  py_slice a b l = take (Z.to_nat (b - a)) (drop (Z.to_nat a) l).
Proof.
  intros Ha Hab Hb. unfold py_slice, py_slice_bound.
  destruct (a <? 0) eqn:Ea; [lia|]. destruct (b <? 0) eqn:Eb; [lia|].
  rewrite take_drop_commute. f_equal.
  - lia.
  - f_equal. lia.
Qed.

Lemma target_slice_cons (k : Z) (starts : list Z) (i : nat) (a : list Scalar) :
  target_slice (k :: starts) (S i) a = target_slice starts i a.
Proof. reflexivity. Qed.

(** The slices that the postprocessing loop takes for the targets, in the
    order of the targets, cut the part of the array after [pre] into
    consecutive segments. *)
Lemma target_slices_split (ts : list TargetObject) :
  forall (pre pot : list Scalar),
    Forall (fun t => 0 <= ndofs t) ts ->
    Z.of_nat (List.length pot) = total_ndofs ts ->
    let st := target_starts_from (Z.of_nat (List.length pre)) ts in
    comprehension (fun i => target_slice (fst st ++ [snd st]) i (pre ++ pot))
      (seq 0 (List.length ts))
    = inr (split_by (map (fun t => Z.to_nat (ndofs t)) ts) pot).
Proof.
  induction ts as [|t ts IH]; intros pre pot Hnn Hlen; [reflexivity|].
  inversion Hnn as [|? ? Ht Hts]; subst.
  pose proof (total_ndofs_nonneg ts Hts) as Htot.
  cbn [total_ndofs] in Hlen.
  cbn zeta. cbn [target_starts_from].
  pose proof (target_starts_from_lookup ts
                (Z.of_nat (List.length pre) + ndofs t) 0 ltac:(lia)) as Hhead.
  destruct (target_starts_from (Z.of_nat (List.length pre) + ndofs t) ts)
    as [starts total] eqn:Hrec.
  cbn [fst snd] in *. cbn [List.length seq comprehension].
  assert (Hfirst :
    target_slice ((Z.of_nat (List.length pre) :: starts) ++ [total]) 0 (pre ++ pot)
    = inr (take (Z.to_nat (ndofs t)) pot)).
  { unfold target_slice. cbn [drop app].
    destruct (starts ++ [total]) as [|s rest] eqn:Hs; [discriminate|].
    simpl in Hhead. injection Hhead as ->. cbn [take].
    rewrite py_slice_nonneg; [|lia|lia|rewrite length_app; lia].
    f_equal. rewrite Nat2Z.id, drop_app_length.
    f_equal. lia. }
  rewrite Hfirst.
  rewrite <- seq_shift, comprehension_map.
  erewrite comprehension_ext; last first.
  { intros i _. cbn [app]. rewrite target_slice_cons. reflexivity. }
  specialize (IH (pre ++ take (Z.to_nat (ndofs t)) pot)
                (drop (Z.to_nat (ndofs t)) pot) Hts).
  assert (Hpre : Z.of_nat (List.length (pre ++ take (Z.to_nat (ndofs t)) pot))
                 = Z.of_nat (List.length pre) + ndofs t).
  { rewrite length_app, length_take. lia. }
  rewrite Hpre, Hrec in IH. cbn zeta in IH. cbn [fst snd] in IH.
  rewrite <- app_assoc, take_drop in IH.
  rewrite IH; [reflexivity|]. rewrite length_drop. lia.
Qed.

Lemma concat_split_by {A} (sizes : list nat) :
  forall l : list A,
    List.length l = foldr Nat.add 0%nat sizes ->
    concat (split_by sizes l) = l.
Proof.
  induction sizes as [|n sizes IH]; intros l Hl; simpl in *.
  - by destruct l.
  - rewrite IH; [apply take_drop|]. rewrite length_drop. lia.
Qed.

Lemma total_ndofs_sizes (ts : list TargetObject) :
  Forall (fun t => 0 <= ndofs t) ts ->
  Z.of_nat (foldr Nat.add 0%nat (map (fun t => Z.to_nat (ndofs t)) ts))
  = total_ndofs ts.
Proof. induction 1; simpl; lia. Qed.


(** X14: When no target has a negative number of degrees of freedom and
    an array has [ntargets] entries, the slices that the postprocessing
    loop of the FMM path takes for the targets, in the order of the
    targets, are the consecutive segments of the array of the targets'
    sizes; put together again they give the array. *)
Theorem target_slices_partition_the_potential :
  forall (geo_data : _FMMGeometryData) (target_info_ : _TargetInfo)
         (potential : list Scalar),
    target_info geo_data = inr target_info_ ->
    Forall (fun t => 0 <= ndofs t) (target_discrs geo_data) ->
    Z.of_nat (List.length potential) = ntargets target_info_ ->
    let segments :=
      split_by (map (fun t => Z.to_nat (ndofs t)) (target_discrs geo_data))
        potential in
    comprehension
      (fun i => target_slice (target_discr_starts target_info_) i potential)
      (seq 0 (List.length (target_discrs geo_data)))
    = inr segments
    /\ concat segments = potential
    /\ Forall2 (fun t segment => Z.of_nat (List.length segment) = ndofs t)
         (target_discrs geo_data) segments.
Proof.
  intros geo_data ti pot Hti Hnn Hlen segments.
  apply target_info_inv in Hti as [Hstarts Hn].
  rewrite Hn, target_starts_from_total in Hlen. simpl in Hlen.
  split; [|split].
  - rewrite Hstarts.
    exact (target_slices_split (target_discrs geo_data) [] pot Hnn Hlen).
  - apply concat_split_by.
    apply Nat2Z.inj. rewrite total_ndofs_sizes by done. done.
  - subst segments. clear Hstarts Hn. revert pot Hlen.
    induction Hnn as [|t ts Ht Hts IH]; intros pot Hlen; simpl in *;
      constructor.
    + pose proof (total_ndofs_nonneg ts Hts). rewrite length_take. lia.
    + apply IH. pose proof (total_ndofs_nonneg ts Hts).
      rewrite length_drop. lia.
Qed.

End UnregularizedTargetInfo.

Section UnregularizedRuns.

Import UnregularizedExecution.
Context `{Values} `{!Collaborators}.

Lemma unregularized_gather_forced (bound_expr : BoundExpression) (os : list Output) :
  forall (m : gmap DOFDescriptor nat) (ts : list TargetObject),
    Exists (fun o => limit_not_forced (qbx_forced_limit o) = false) os ->
    gather_targets bound_expr os m ts = inl AssertionError.
Proof.
  induction os as [|o os IH]; intros m ts Hex; [inversion Hex|].
  simpl. destruct (limit_not_forced (qbx_forced_limit o)) eqn:Ho; [|done].
  simpl. inversion Hex as [? ? Hhead|? ? Htail]; subst; [congruence|].
  destruct (m !! target_name o); by apply IH.
Qed.

Lemma unregularized_gather_unforced (bound_expr : BoundExpression) (os : list Output) :
  forall (m : gmap DOFDescriptor nat) (ts : list TargetObject) gathered,
    gather_targets bound_expr os m ts = inr gathered ->
    Forall (fun o => limit_not_forced (qbx_forced_limit o) = true) os.
Proof.
  induction os as [|o os IH]; intros m ts gathered; [constructor|].
  simpl. destruct (limit_not_forced (qbx_forced_limit o)) eqn:Ho; [|done].
  simpl. intros Hg. constructor; [done|].
  destruct (m !! target_name o); eapply IH; exact Hg.
Qed.

(** The loop invariant of the gathering loop: the dictionary numbers the
    target names seen so far, and the list holds their geometries in that
    order. *)
Lemma unregularized_gather_spec (bound_expr : BoundExpression) (os : list Output) :
  forall (m : gmap DOFDescriptor nat) (ks : list DOFDescriptor) gathered,
    numbers_positions m ks ->
    gather_targets bound_expr os m (map (target_of_name bound_expr) ks)
    = inr gathered ->
    let ks' :=
      ks ++ filter (fun k => k ∉ ks) (first_occurrences (map target_name os)) in
    numbers_positions (fst gathered) ks'
    /\ snd gathered = map (target_of_name bound_expr) ks'.
Proof.
  induction os as [|o os IH]; intros m ks gathered Hm; simpl.
  - intros [= <-]. rewrite filter_nil, app_nil_r. done.
  - destruct (limit_not_forced (qbx_forced_limit o)); [|done]. simpl.
    destruct (m !! target_name o) as [i|] eqn:Hlook.
    + assert (Hin : target_name o ∈ ks).
      { apply (numbers_positions_elem_of m ks _ Hm); eauto. }
      rewrite filter_cons_False by tauto.
      rewrite filter_not_seen_known by done.
      by apply IH.
    + assert (Hnin : target_name o ∉ ks).
      { intros Hin. apply (numbers_positions_elem_of m ks _ Hm) in Hin as [j Hj].
        congruence. }
      rewrite filter_cons_True by done.
      rewrite <- filter_not_seen_snoc.
      rewrite length_map.
      replace (map (target_of_name bound_expr) ks ++
                 [places_get_geometry bound_expr (geometry (target_name o))])
        with (map (target_of_name bound_expr) (ks ++ [target_name o]))
        by (rewrite map_app; reflexivity).
      replace (ks ++ target_name o ::
                 filter (fun k' => k' ∉ ks ++ [target_name o])
                   (first_occurrences (map target_name os)))
        with ((ks ++ [target_name o]) ++
                 filter (fun k' => k' ∉ ks ++ [target_name o])
                   (first_occurrences (map target_name os)))
        by (rewrite <- app_assoc; reflexivity).
      apply IH. by apply numbers_positions_snoc.
Qed.

Lemma unregularized_gather_first_occurrences (bound_expr : BoundExpression)
    (os : list Output) gathered :
  gather_targets bound_expr os ∅ [] = inr gathered ->
  numbers_positions (fst gathered) (first_occurrences (map target_name os))
  /\ snd gathered
     = map (target_of_name bound_expr) (first_occurrences (map target_name os)).
Proof.
  intros Hg.
  assert (Hempty : numbers_positions (∅ : gmap DOFDescriptor nat) []).
  { intros k i. rewrite lookup_empty, lookup_nil. done. }
  assert (Hkeys : forall l : list DOFDescriptor, filter (fun k => k ∉ []) l = l).
  { intros l. induction l as [|x l IHl]; [done|].
    rewrite filter_cons_True by apply not_elem_of_nil. by rewrite IHl. }
  pose proof (unregularized_gather_spec bound_expr os ∅ [] gathered Hempty Hg)
    as Hspec.
  cbv zeta in Hspec. rewrite app_nil_l, Hkeys in Hspec. exact Hspec.
Qed.

Lemma limit_not_forced_false (l : option Z) :
  l = Some 1 \/ l = Some (-1) <-> limit_not_forced l = false.
Proof.
  destruct l as [s|]; simpl.
  - rewrite negb_false_iff, orb_true_iff, !Z.eqb_eq.
    split; [intros [[= ->]|[= ->]]; auto|intros [->| ->]; auto].
  - split; [intros [|]; discriminate|discriminate].
Qed.

(** X15: The FMM path of the unregularized source asserts that no output
    has a forced limit of [1] or [-1] before it evaluates anything: with
    one such output among the outputs, the run raises [AssertionError] and
    leaves the world as it was; and so does
    [exec_compute_potential_insn] on a source that is not set to direct
    evaluation. *)
Theorem unregularized_fmm_rejects_forced_limits :
  forall (self : Unregularized.UnregularizedLayerPotentialSource)
         (insn : Instruction) (bound_expr : BoundExpression)
         (return_timing_data : bool) (w : world) (o : Output),
    o ∈ outputs insn ->
    qbx_forced_limit o = Some 1 \/ qbx_forced_limit o = Some (-1) ->
    exec_compute_potential_insn_fmm self insn bound_expr w
    = (inl AssertionError, w)
    /\ (Unregularized.fmm_level_to_order self <> LtoFalse ->
        exec_compute_potential_insn self insn bound_expr return_timing_data w
        = (inl AssertionError, w)).
Proof.
  intros self insn bound_expr rtd w o Ho Hlimit.
  assert (Hrun : exec_compute_potential_insn_fmm self insn bound_expr w
                 = (inl AssertionError, w)).
  { unfold exec_compute_potential_insn_fmm.
    rewrite unregularized_gather_forced; [reflexivity|].
    apply Exists_exists. exists o. split; [done|].
    by apply limit_not_forced_false. }
  split; [exact Hrun|].
  intros Hfmm. unfold exec_compute_potential_insn.
  destruct (Unregularized.fmm_level_to_order self); [done|exact Hrun..].
Qed.

Lemma lookup_take_two {A} (l : list A) (i : nat) (a b : A) :
  l !! i = Some a -> l !! S i = Some b -> take 2 (drop i l) = [a; b].
Proof.
  revert i. induction l as [|x l IH]; intros i; [done|].
  destruct i as [|i]; simpl.
  - intros [= ->]. destruct l as [|y l]; [done|]. simpl. by intros [= ->].
  - apply IH.
Qed.

Lemma total_ndofs_take_S (ts : list TargetObject) (i : nat) (t : TargetObject) :
  ts !! i = Some t ->
  total_ndofs (take (S i) ts) = total_ndofs (take i ts) + ndofs t.
Proof.
  revert i. induction ts as [|x ts IH]; intros i; [done|].
  destruct i as [|i]; simpl.
  - intros [= ->]. destruct ts; simpl; lia.
  - intros Hi. specialize (IH i Hi). simpl in IH. lia.
Qed.

Lemma unregularized_fmm_output_inv (bound_expr : BoundExpression)
    (names : list DOFDescriptor) (m : gmap DOFDescriptor nat)
    (target_info_ : _TargetInfo) (geo_data : _FMMGeometryData)
    (potentials : list (list Scalar)) (o : Output) (r : string * Assigned) :
  numbers_positions m names ->
  target_discrs geo_data = map (target_of_name bound_expr) names ->
  target_info geo_data = inr target_info_ ->
  fmm_output m (target_discrs geo_data) (target_discr_starts target_info_)
    potentials o = inr r ->
  fst r = name o
  /\ exists i potential,
       names !! i = Some (target_name o)
       /\ potentials !! kernel_index o = Some potential
       /\ let target := target_of_name bound_expr (target_name o) in
          let start := total_ndofs (take i (target_discrs geo_data)) in
          finish_result target (py_slice start (start + ndofs target) potential)
          = inr (snd r).
Proof.
  intros Hm Htargets Hti.
  unfold fmm_output, subscript, index, rbind.
  destruct (m !! target_name o) as [i|] eqn:Hi; [|discriminate].
  apply Hm in Hi.
  pose proof (lookup_map_Some (target_of_name bound_expr) _ _ _ Hi) as Ht.
  rewrite <- Htargets in Ht. rewrite Ht.
  destruct (potentials !! kernel_index o) as [potential|] eqn:Hp; [|discriminate].
  pose proof (target_info_inv geo_data target_info_ Hti) as [Hstarts _].
  assert (Hlen : (S i <= List.length (target_discrs geo_data))%nat).
  { apply lookup_lt_Some in Ht. lia. }
  pose proof (target_starts_from_lookup (target_discrs geo_data) 0 i ltac:(lia))
    as Ha.
  pose proof (target_starts_from_lookup (target_discrs geo_data) 0 (S i) Hlen)
    as Hb.
  rewrite <- Hstarts in Ha, Hb.
  unfold target_slice. rewrite (lookup_take_two _ _ _ _ Ha Hb).
  rewrite (total_ndofs_take_S _ _ _ Ht).
  destruct (finish_result _ _) as [e|a] eqn:Hf; [discriminate|].
  intros [= <-]. split; [done|]. exists i, potential.
  split; [done|]. split; [done|]. cbn zeta. cbn [snd].
  rewrite <- Hf. reflexivity.
Qed.

(** X16: A run of the FMM path of the unregularized source that returns
    has called the driver once and nothing else that the trace records;
    no output had a forced limit of [1] or [-1]; and the results are, in
    the order of the outputs, each output's name with the part of its
    kernel's potential that belongs to its target: the targets are laid
    out in the order in which their names first occur among the outputs,
    so the part starts at the total size of the targets named earlier and
    has the target's number of degrees of freedom as its length
    (unflattened if the target is a discretization). *)
Theorem unregularized_fmm_assigns_target_slices :
  forall (self : Unregularized.UnregularizedLayerPotentialSource)
         (insn : Instruction) (bound_expr : BoundExpression)
         (w w' : world) (results : list (string * Assigned)),
    exec_compute_potential_insn_fmm self insn bound_expr w = (inr results, w') ->
    let names := first_occurrences (map target_name (outputs insn)) in
    let targets := map (target_of_name bound_expr) names in
    trace w' = trace w ++ [EvFmmDriver]
    /\ geometry_cache w' = geometry_cache w
    /\ Forall (fun o => qbx_forced_limit o <> Some 1
                        /\ qbx_forced_limit o <> Some (-1)) (outputs insn)
    /\ exists traversal_ wrangler flat_strengths potentials,
         traversal (fmm_geometry_data self targets) = inr traversal_
         /\ evaluate_strengths insn = inr flat_strengths
         /\ drive_fmm traversal_ wrangler flat_strengths = inr potentials
         /\ Forall2
              (fun o r =>
                 fst r = name o
                 /\ exists i potential,
                      names !! i = Some (target_name o)
                      /\ potentials !! kernel_index o = Some potential
                      /\ let target := target_of_name bound_expr (target_name o) in
                         let start := total_ndofs (take i targets) in
                         finish_result target
                           (py_slice start (start + ndofs target) potential)
                         = inr (snd r))
              (outputs insn) results.
Proof.
  intros self insn bound_expr w w' results Hrun names targets.
  unfold exec_compute_potential_insn_fmm in Hrun.
  apply bind_lift_inv in Hrun as (gathered & Hg & Hrun).
  pose proof (unregularized_gather_unforced _ _ _ _ _ Hg) as Hunforced.
  apply unregularized_gather_first_occurrences in Hg as [Hnum Htargets].
  fold names in Hnum, Htargets. fold targets in Htargets.
  cbv zeta in Hrun. rewrite Htargets in Hrun.
  apply bind_lift_inv in Hrun as (flat_strengths & Hstr & Hrun).
  apply bind_lift_inv in Hrun as (fmm_kernel & _ & Hrun).
  apply bind_lift_inv in Hrun as (dt & _ & Hrun).
  apply bind_lift_inv in Hrun as (tree_ & _ & Hrun).
  apply bind_lift_inv in Hrun as (kw & _ & Hrun).
  apply bind_lift_inv in Hrun as (wrangler & _ & Hrun).
  apply bind_lift_inv in Hrun as (traversal_ & Htrav & Hrun).
  unfold bind at 1, log at 1 in Hrun.
  apply bind_lift_inv in Hrun as (potentials & Hdrive & Hrun).
  apply bind_lift_inv in Hrun as (target_info_ & Hti & Hrun).
  apply bind_lift_inv in Hrun as (results' & Hres & Hrun).
  unfold ret in Hrun. injection Hrun as <- <-.
  split; [reflexivity|]. split; [reflexivity|]. split.
  - eapply Forall_impl; [exact Hunforced|]. intros o Ho. cbv beta in Ho.
    split; intros Hl; rewrite Hl in Ho; discriminate.
  - exists traversal_, wrangler, flat_strengths, potentials.
    split; [done|]. split; [done|]. split; [done|].
    apply comprehension_Forall2 in Hres.
    eapply Forall2_impl; [exact Hres|].
    intros o r Hr. cbv beta in Hr.
    exact (unregularized_fmm_output_inv bound_expr names (fst gathered)
             target_info_ (fmm_geometry_data self targets) potentials o r
             Hnum eq_refl Hti Hr).
Qed.

Lemma unregularized_direct_output_inv (insn : Instruction)
    (bound_expr : BoundExpression) (kernel_args : gmap string (list Scalar))
    (flat_strengths : list Scalar) (o : Output) (w w' : world)
    (r : string * Assigned) :
  direct_output insn bound_expr kernel_args flat_strengths o w = (inr r, w') ->
  trace w' = trace w ++ [EvP2P]
  /\ geometry_cache w' = geometry_cache w
  /\ fst r = name o
  /\ let target :=
       places_get_discretization bound_expr (geometry (target_name o))
         (discr_stage (target_name o)) in
     exists output_for_each_kernel potential,
       p2p (kernels insn) target flat_strengths kernel_args
       = inr output_for_each_kernel
       /\ output_for_each_kernel !! kernel_index o = Some potential
       /\ finish_result target potential = inr (snd r).
Proof.
  unfold direct_output. unfold bind at 1, log at 1. intros Hrun.
  apply bind_lift_inv in Hrun as (out & Hp2p & Hrun).
  apply bind_lift_inv in Hrun as (potential & Hidx & Hrun).
  apply bind_lift_inv in Hrun as (result_ & Hfin & Hrun).
  unfold ret in Hrun. injection Hrun as <- <-.
  split; [reflexivity|]. split; [reflexivity|]. split; [reflexivity|].
  cbv zeta. exists out, potential. split; [done|]. split; [|done].
  unfold index in Hidx. destruct (out !! kernel_index o); congruence.
Qed.

Lemma unregularized_for_each_direct (insn : Instruction)
    (bound_expr : BoundExpression) (kernel_args : gmap string (list Scalar))
    (flat_strengths : list Scalar) (os : list Output) :
  forall (w w' : world) (results : list (string * Assigned)),
    for_each (direct_output insn bound_expr kernel_args flat_strengths) os w
    = (inr results, w') ->
    trace w' = trace w ++ repeat EvP2P (List.length os)
    /\ geometry_cache w' = geometry_cache w
    /\ Forall2
         (fun o r =>
            fst r = name o
            /\ let target :=
                 places_get_discretization bound_expr (geometry (target_name o))
                   (discr_stage (target_name o)) in
               exists output_for_each_kernel potential,
                 p2p (kernels insn) target flat_strengths kernel_args
                 = inr output_for_each_kernel
                 /\ output_for_each_kernel !! kernel_index o = Some potential
                 /\ finish_result target potential = inr (snd r))
         os results.
Proof.
  induction os as [|o os IH]; intros w w' results; simpl.
  - intros [= <- <-]. rewrite app_nil_r. repeat split. constructor.
  - unfold bind at 1.
    destruct (direct_output insn bound_expr kernel_args flat_strengths o w)
      as [[e|r] w1] eqn:Ho; [discriminate|].
    unfold bind at 1.
    destruct (for_each _ os w1) as [[e|rs] w2] eqn:Hos; [discriminate|].
    intros [= <- <-].
    apply unregularized_direct_output_inv in Ho as (Htr & Hc & Hname & Hval).
    apply IH in Hos as (Htr' & Hc' & Hall).
    split; [rewrite Htr', Htr, <- app_assoc; reflexivity|].
    split; [congruence|]. constructor; [|done]. split; done.
Qed.

(** X17: On a source set to direct evaluation
    ([fmm_level_to_order] is [False]), a run of
    [exec_compute_potential_insn] that returns has applied the
    point-to-point evaluation once per output, in order, and nothing else
    that the trace records; each result is the output's name with the
    entry [kernel_index] of what the evaluation on the output's target
    discretization returned (unflattened if that is a discretization).
    The forced limit of an output plays no part. *)
Theorem unregularized_direct_applies_p2p_per_output :
  forall (self : Unregularized.UnregularizedLayerPotentialSource)
         (insn : Instruction) (bound_expr : BoundExpression)
         (return_timing_data : bool)
         (w w' : world) (results : list (string * Assigned)),
    Unregularized.fmm_level_to_order self = LtoFalse ->
    exec_compute_potential_insn self insn bound_expr return_timing_data w
    = (inr results, w') ->
    trace w' = trace w ++ repeat EvP2P (List.length (outputs insn))
    /\ geometry_cache w' = geometry_cache w
    /\ exists kernel_args flat_strengths,
         evaluate_kernel_arguments insn = inr kernel_args
         /\ evaluate_strengths insn = inr flat_strengths
         /\ Forall2
              (fun o r =>
                 fst r = name o
                 /\ let target :=
                      places_get_discretization bound_expr
                        (geometry (target_name o)) (discr_stage (target_name o)) in
                    exists output_for_each_kernel potential,
                      p2p (kernels insn) target flat_strengths kernel_args
                      = inr output_for_each_kernel
                      /\ output_for_each_kernel !! kernel_index o = Some potential
                      /\ finish_result target potential = inr (snd r))
              (outputs insn) results.
Proof.
  intros self insn bound_expr rtd w w' results Hdirect.
  unfold exec_compute_potential_insn. rewrite Hdirect.
  unfold exec_compute_potential_insn_direct. intros Hrun.
  apply bind_lift_inv in Hrun as (kernel_args & Hargs & Hrun).
  apply bind_lift_inv in Hrun as (flat_strengths & Hstr & Hrun).
  apply unregularized_for_each_direct in Hrun as (Htr & Hc & Hall).
  split; [done|]. split; [done|]. exists kernel_args, flat_strengths. done.
Qed.

End UnregularizedRuns.

(** ** Construction of the fmmlib wrangler *)

Lemma digest_out_kernels_step (k : Kernel) (ks : list Kernel) (d : FMMLib.digest) :
  FMMLib.digest_out_kernels (k :: ks) d
  = match digest_of_kernel k with
    | Some (n, sd, out) =>
        FMMLib.digest_out_kernels ks
          {| FMMLib.k_names := FMMLib.k_names d ++ [n];
             FMMLib.source_deriv_names := FMMLib.source_deriv_names d ++ sd;
             FMMLib.ifgrad := FMMLib.ifgrad d || is_axis_target_derivative k;
             FMMLib.outputs := FMMLib.outputs d ++ [out] |}
    | None => inl (NotImplementedError FMMLib.unsupported_kernel_msg)
    end.
Proof.
  simpl FMMLib.digest_out_kernels.
  unfold FMMLib.is_supported_helmknl, digest_of_kernel, is_axis_target_derivative.
  destruct k as [kd kn|kd|kn kd
                |ax [kd kn|kd|kn kd|ax' inner'|[kd kn| | | |] dv]
                |[kd kn| | | |] dv];
    simpl; try reflexivity;
    destruct (kd =? 3); simpl;
    rewrite ?orb_false_r, ?orb_true_r, <- ?app_assoc; reflexivity.
Qed.

Lemma digest_out_kernels_inv (ks : list Kernel) :
  forall d d' : FMMLib.digest,
    FMMLib.digest_out_kernels ks d = inr d' ->
    exists cs,
      Forall2 (fun k c => digest_of_kernel k = Some c) ks cs
      /\ FMMLib.k_names d' = FMMLib.k_names d ++ map (fun c => fst (fst c)) cs
      /\ FMMLib.source_deriv_names d'
         = FMMLib.source_deriv_names d ++ concat (map (fun c => snd (fst c)) cs)
      /\ FMMLib.outputs d' = FMMLib.outputs d ++ map snd cs
      /\ FMMLib.ifgrad d'
         = FMMLib.ifgrad d || existsb is_axis_target_derivative ks.
Proof.
  induction ks as [|k ks IH]; intros d d'.
  - simpl. intros [= <-]. exists []. rewrite !app_nil_r, orb_false_r.
    repeat split. constructor.
  - rewrite digest_out_kernels_step.
    destruct (digest_of_kernel k) as [[[n sd] out]|] eqn:Hk; [|discriminate].
    intros Hrest. apply IH in Hrest as (cs & Hcs & Hn & Hs & Ho & Hg).
    simpl in Hn, Hs, Ho, Hg.
    exists ((n, sd, out) :: cs). simpl.
    rewrite Hn, Hs, Ho, Hg, <- !app_assoc, orb_assoc.
    repeat split. by constructor.
Qed.

Lemma is_single_valued_true {A} `{EqDecision A} (l : list A) :
  is_single_valued l = inr true ->
  exists x, head l = Some x /\ Forall (fun y => y = x) l.
Proof.
  destruct l as [|x l]; simpl; [discriminate|].
  intros [= Hall]. exists x. split; [done|]. constructor; [done|].
  apply Forall_forall. intros y Hy.
  rewrite forallb_forall in Hall.
  specialize (Hall y (proj1 (list_elem_of_In _ _) Hy)).
  by apply bool_decide_eq_true in Hall.
Qed.

Lemma single_valued_inr {A} `{EqDecision A} (l : list A) (x : A) :
  single_valued l = inr x -> l <> [] /\ Forall (fun y => y = x) l.
Proof.
  destruct l as [|x' l]; simpl; [discriminate|].
  destruct (forallb _ l) eqn:Hall; [|discriminate].
  intros [= <-]. split; [done|]. constructor; [done|].
  apply Forall_forall. intros y Hy.
  rewrite forallb_forall in Hall.
  specialize (Hall y (proj1 (list_elem_of_In _ _) Hy)).
  by apply bool_decide_eq_true in Hall.
Qed.

Lemma digest_of_kernel_without_source_derivative (k : Kernel) n sd out :
  digest_of_kernel k = Some (n, sd, out) ->
  Forall (fun s => s = None) sd ->
  (k = HelmholtzKernel 3 n /\ out = [])
  \/ (exists axis, k = AxisTargetDerivative axis (HelmholtzKernel 3 n)
                   /\ out = [axis]).
Proof.
  destruct k as [kd kn|kd|kn kd|ax inner|inner dv]; simpl; try discriminate.
  - destruct (kd =? 3) eqn:E; [|discriminate]. apply Z.eqb_eq in E as ->.
    intros [= <- <- <-] _. by left.
  - destruct inner as [kd kn|kd|kn kd|ax' inner'|inner' dv]; try discriminate.
    + destruct (kd =? 3) eqn:E; [|discriminate]. apply Z.eqb_eq in E as ->.
      intros [= <- <- <-] _. right. by exists ax.
    + destruct inner' as [kd kn| | | |]; try discriminate.
      destruct (kd =? 3); [|discriminate].
      intros [= <- <- <-] Hall. inversion Hall as [|? ? _ Hall']; subst.
      inversion Hall' as [|? ? Hbad _]; subst. discriminate.
  - destruct inner as [kd kn| | | |]; try discriminate.
    destruct (kd =? 3); [|discriminate].
    intros [= <- <- <-] Hall. inversion Hall as [|? ? Hbad _]; subst.
    discriminate.
Qed.

Lemma digest_of_kernel_with_source_derivative (k : Kernel) n sd out dir :
  digest_of_kernel k = Some (n, sd, out) ->
  Forall (fun s => s = Some dir) sd ->
  k = DirectionalSourceDerivative (HelmholtzKernel 3 n) dir /\ out = [].
Proof.
  destruct k as [kd kn|kd|kn kd|ax inner|inner dv]; simpl; try discriminate.
  - destruct (kd =? 3); [|discriminate].
    intros [= <- <- <-] Hall. inversion Hall as [|? ? Hbad _]; subst.
    discriminate.
  - destruct inner as [kd kn|kd|kn kd|ax' inner'|inner' dv]; try discriminate.
    + destruct (kd =? 3); [|discriminate].
      intros [= <- <- <-] Hall. inversion Hall as [|? ? Hbad _]; subst.
      discriminate.
    + destruct inner' as [kd kn| | | |]; try discriminate.
      destruct (kd =? 3); [|discriminate].
      intros [= <- <- <-] Hall. inversion Hall as [|? ? Hbad _]; subst.
      discriminate.
  - destruct inner as [kd kn| | | |]; try discriminate.
    destruct (kd =? 3) eqn:E; [|discriminate]. apply Z.eqb_eq in E as ->.
    intros [= <- <- <-] Hall. inversion Hall as [|? ? Hdir _]; subst.
    injection Hdir as ->. done.
Qed.

Lemma comprehension_range_single_valued (f : Z -> result Z) (n : nat)
    (level_orders : list Z) (order : Z) :
  comprehension f (range n) = inr level_orders ->
  single_valued level_orders = inr order ->
  (0 < n)%nat /\ level_orders = repeat order n /\ f 0 = inr order.
Proof.
  intros Hc Hs. apply single_valued_inr in Hs as [Hne Hall].
  pose proof (comprehension_Forall2 _ _ _ Hc) as Hf.
  pose proof (Forall2_length _ _ _ Hf) as Hlen.
  unfold range in Hlen. rewrite length_map, length_seq in Hlen.
  destruct n as [|n]; [by destruct level_orders|].
  split; [lia|]. split.
  - rewrite Hlen. clear -Hall. induction Hall as [|y l -> _ IH]; simpl; [done|].
    by rewrite <- IH.
  - unfold range in Hf. simpl in Hf.
    inversion Hf as [|? y ? l Hy _]; subst.
    inversion Hall; subst. exact Hy.
Qed.

Section FmmlibConstruction.

Context `{Values} `{!Substrate}.

(** What a successful construction of the fmmlib wrangler says about its
    arguments and its attributes. *)
Lemma fmmlib_init_inv :
  forall (code : QBXFMMLibExpansionWranglerCodeContainer)
         (geo_data : QBXFMMGeometryData) (dtype_ : dtype) (qbx_order : Z)
         (fmm_level_to_order : Z -> result Z)
         (source_extra_kwargs : gmap string (list Scalar))
         (kernel_extra_kwargs : option (gmap string (list Scalar)))
         (wrangler : QBXFMMLibExpansionWrangler),
    FMMLib.__init__ code geo_data dtype_ qbx_order fmm_level_to_order
      source_extra_kwargs kernel_extra_kwargs = inr wrangler ->
    out_kernels code <> []
    /\ (exists k_name kwargs,
          kernel_extra_kwargs = Some kwargs
          /\ kwargs !! k_name = Some (w_helmholtz_k wrangler)
          /\ ((w_dipole_vec wrangler = None
               /\ Forall2
                    (fun k out =>
                       (k = HelmholtzKernel 3 k_name /\ out = [])
                       \/ (exists axis,
                             k = AxisTargetDerivative axis
                                   (HelmholtzKernel 3 k_name)
                             /\ out = [axis]))
                    (out_kernels code) (w_outputs wrangler))
              \/ (exists dir dipole_vec,
                    source_extra_kwargs !! dir = Some dipole_vec
                    /\ w_dipole_vec wrangler = Some dipole_vec
                    /\ Forall2
                         (fun k out =>
                            k = DirectionalSourceDerivative
                                  (HelmholtzKernel 3 k_name) dir
                            /\ out = [])
                         (out_kernels code) (w_outputs wrangler))))
    /\ w_ifgrad wrangler
       = existsb is_axis_target_derivative (out_kernels code)
    /\ (0 < tree_nlevels geo_data)%nat
    /\ w_level_orders wrangler
       = repeat (w_nterms wrangler) (tree_nlevels geo_data)
    /\ w_nterms wrangler <> 0
    /\ fmm_level_to_order 0 = inr (w_nterms wrangler)
    /\ w_geo_data wrangler = geo_data
    /\ w_qbx_order wrangler = qbx_order.
Proof.
  intros code geo_data dtype_ qbx_order f skw kkw wrangler.
  unfold FMMLib.__init__, rbind.
  destruct (FMMLib.digest_out_kernels (out_kernels code) FMMLib.empty_digest)
    as [e|d] eqn:Hd; [discriminate|].
  apply digest_out_kernels_inv in Hd as (cs & Hcs & Hn & Hs & Ho & Hg).
  simpl in Hn, Hs, Ho, Hg.
  destruct (is_single_valued (FMMLib.source_deriv_names d)) as [e|same] eqn:Hsame;
    [discriminate|].
  destruct same; simpl; [|discriminate].
  apply is_single_valued_true in Hsame as (s0 & Hhead & Hall).
  unfold index. rewrite <- head_lookup, Hhead.
  destruct (single_valued (FMMLib.k_names d)) as [e|k_name] eqn:Hk; [discriminate|].
  apply single_valued_inr in Hk as [_ Hnames].
  destruct kkw as [kwargs|]; [|discriminate].
  unfold subscript at 1.
  destruct (kwargs !! k_name) as [helmholtz_k|] eqn:Hkw; [|discriminate].
  destruct (comprehension f (range (tree_nlevels geo_data)))
    as [e|level_orders] eqn:Hlevels; [discriminate|].
  destruct (single_valued level_orders) as [e|common_order] eqn:Hcommon;
    [discriminate|].
  destruct (comprehension_range_single_valued _ _ _ _ Hlevels Hcommon)
    as (Hpos & Hrep & Hzero).
  destruct (truthy common_order) eqn:Htruthy; simpl; [|discriminate].
  assert (Hne : out_kernels code <> []).
  { intros Hnil. rewrite Hnil in Hcs. inversion Hcs; subst.
    rewrite Hs in Hhead. discriminate. }
  assert (Hnz : common_order <> 0).
  { intros ->. discriminate. }
  rewrite Hs in Hall. rewrite Hn in Hnames. rewrite Ho, Hg.
  assert (Hper : Forall (fun c => Forall (fun s => s = s0) (snd (fst c))
                                  /\ fst (fst c) = k_name) cs).
  { clear -Hall Hnames. induction cs as [|c cs IH]; [constructor|].
    simpl in Hall, Hnames. apply Forall_app in Hall as [Hc Hall].
    inversion Hnames; subst. constructor; [done|]. by apply IH. }
  destruct s0 as [dir|].
  - unfold subscript.
    destruct (skw !! dir) as [v|] eqn:Hv; [|discriminate].
    rewrite Hzero. intros [= <-]. simpl.
    split; [done|]. split; [|by rewrite Hrep].
    exists k_name, kwargs. split; [done|]. split; [done|]. right.
    exists dir, v. split; [done|]. split; [done|].
    clear -Hcs Hper. induction Hcs as [|k [[n sd] out] ks cs Hk _ IH];
      [constructor|].
    inversion Hper as [|? ? [Hsd Hname] Hper']; simpl in *; subst.
    constructor; [|by apply IH].
    by eapply digest_of_kernel_with_source_derivative.
  - rewrite Hzero. intros [= <-]. simpl.
    split; [done|]. split; [|by rewrite Hrep].
    exists k_name, kwargs. split; [done|]. split; [done|]. left.
    split; [done|].
    clear -Hcs Hper. induction Hcs as [|k [[n sd] out] ks cs Hk _ IH];
      [constructor|].
    inversion Hper as [|? ? [Hsd Hname] Hper']; simpl in *; subst.
    constructor; [|by apply IH].
    by eapply digest_of_kernel_without_source_derivative.
Qed.

(** X18: A wrangler of the fmmlib backend is constructed only for a
    non-empty list of output kernels that share one Helmholtz parameter
    name and are either all the 3D Helmholtz kernel or axis target
    derivatives of it (no dipole vector; [outputs] holds [()] and
    [(axis,)] accordingly), or all the same directional source derivative
    of the 3D Helmholtz kernel (the dipole vector is the source argument
    of that name; no target derivative, so no gradient).  The Helmholtz
    parameter is the kernel argument of the shared name, the gradient
    flag says whether a target derivative is among the kernels, and the
    tree has at least one level, all levels having the same non-zero
    order, which is [nterms]. *)
Theorem fmmlib_wrangler_constructed_only_for_uniform_kernels :
  forall (code : QBXFMMLibExpansionWranglerCodeContainer)
         (geo_data : QBXFMMGeometryData) (dtype_ : dtype) (qbx_order : Z)
         (fmm_level_to_order : Z -> result Z)
         (source_extra_kwargs : gmap string (list Scalar))
         (kernel_extra_kwargs : option (gmap string (list Scalar)))
         (wrangler : QBXFMMLibExpansionWrangler),
    FMMLib.__init__ code geo_data dtype_ qbx_order fmm_level_to_order
      source_extra_kwargs kernel_extra_kwargs = inr wrangler ->
    out_kernels code <> []
    /\ (exists k_name kwargs,
          kernel_extra_kwargs = Some kwargs
          /\ kwargs !! k_name = Some (w_helmholtz_k wrangler)
          /\ ((w_dipole_vec wrangler = None
               /\ Forall2
                    (fun k out =>
                       (k = HelmholtzKernel 3 k_name /\ out = [])
                       \/ (exists axis,
                             k = AxisTargetDerivative axis
                                   (HelmholtzKernel 3 k_name)
                             /\ out = [axis]))
                    (out_kernels code) (w_outputs wrangler))
              \/ (exists dir dipole_vec,
                    source_extra_kwargs !! dir = Some dipole_vec
                    /\ w_dipole_vec wrangler = Some dipole_vec
                    /\ Forall2
                         (fun k out =>
                            k = DirectionalSourceDerivative
                                  (HelmholtzKernel 3 k_name) dir
                            /\ out = [])
                         (out_kernels code) (w_outputs wrangler))))
    /\ w_ifgrad wrangler
       = existsb is_axis_target_derivative (out_kernels code)
    /\ (0 < tree_nlevels geo_data)%nat
    /\ w_level_orders wrangler
       = repeat (w_nterms wrangler) (tree_nlevels geo_data)
    /\ w_nterms wrangler <> 0
    /\ fmm_level_to_order 0 = inr (w_nterms wrangler)
    /\ w_geo_data wrangler = geo_data
    /\ w_qbx_order wrangler = qbx_order.
Proof. exact fmmlib_init_inv. Qed.

End FmmlibConstruction.

(** ** Construction and tree of the unregularized source *)

Section UnregularizedConstruction.

Import UnregularizedExecution.
Context `{Values} `{!Collaborators}.

(** X19: The constructor of the unregularized source fails only when an
    order other than [False] comes with a level-to-order argument (with
    the [TypeError] for giving both).  The source it returns evaluates
    directly exactly when it was given [fmm_order=False] without a
    level-to-order argument, or [fmm_level_to_order=False]; in every other
    case, also for [fmm_order=None], [exec_compute_potential_insn] runs
    the FMM path. *)
Theorem unregularized_constructed_source_dispatch :
  forall (density_discr : Discretization) (fmm_order : FmmOrder)
         (fmm_level_to_order : option LevelToOrder)
         (expansion_factory : option ExpansionFactory) (debug : bool),
    let direct :=
      (fmm_order = OrderFalse /\ fmm_level_to_order = None)
      \/ fmm_level_to_order = Some LtoFalse in
    match Unregularized.__init__ density_discr fmm_order fmm_level_to_order
            expansion_factory debug with
    | inl e =>
        fmm_order <> OrderFalse /\ fmm_level_to_order <> None
        /\ e = TypeError QBX.both_orders_msg
    | inr self =>
        (fmm_order = OrderFalse \/ fmm_level_to_order = None)
        /\ (direct ->
            forall insn bound_expr return_timing_data,
              exec_compute_potential_insn self insn bound_expr return_timing_data
              = exec_compute_potential_insn_direct self insn bound_expr)
        /\ (~ direct ->
            forall insn bound_expr return_timing_data,
              exec_compute_potential_insn self insn bound_expr return_timing_data
              = exec_compute_potential_insn_fmm self insn bound_expr)
    end.
Proof.
  intros d fo lto ef dbg direct. subst direct.
  unfold Unregularized.__init__, exec_compute_potential_insn.
  destruct fo as [| |n], lto as [[|o|f]|]; simpl;
    repeat split; try discriminate; try reflexivity; auto;
    try (intros [[? ?]|?]; discriminate);
    try (intros Hn; exfalso; apply Hn; auto; fail).
Qed.

Lemma py_slice_bound_nonneg (n : nat) (k : Z) :
  0 <= k -> k <= Z.of_nat n -> py_slice_bound n k = Z.to_nat k.
Proof.
  intros Hk Hn. unfold py_slice_bound.
  destruct (k <? 0) eqn:E; [lia|]. lia.
Qed.

(** X20: For a source and targets without negative sizes,
    [_FMMGeometryData.tree] builds the tree over all particles with the
    maximal leaf refine weight 32 and refine weights that are one for each
    source and zero for each target, in this order; it raises only where
    [target_info] or the tree build does. *)
Theorem unregularized_tree_weighs_sources_only :
  forall geo_data : _FMMGeometryData,
    0 <= nnodes (Unregularized.density_discr (lpot_source geo_data)) ->
    Forall (fun t => 0 <= ndofs t) (target_discrs geo_data) ->
    let nsources :=
      Z.to_nat (nnodes (Unregularized.density_discr (lpot_source geo_data))) in
    let ntargets_ := Z.to_nat (total_ndofs (target_discrs geo_data)) in
    tree geo_data
    = rbind (target_info geo_data) (fun _ =>
        build_tree geo_data (repeat 1 nsources ++ repeat 0 ntargets_) 32).
Proof.
  intros geo_data Hsources Htargets nsources ntargets_.
  unfold tree. destruct (target_info geo_data) as [e|ti] eqn:Hti; [reflexivity|].
  simpl. apply target_info_inv in Hti as [_ Hn].
  rewrite target_starts_from_total in Hn. simpl in Hn.
  pose proof (total_ndofs_nonneg _ Htargets) as Htot.
  unfold ones_then_zeros. rewrite Hn.
  destruct (_ <? 0) eqn:E; [lia|]. simpl.
  rewrite py_slice_bound_nonneg by lia.
  unfold MAX_LEAF_REFINE_WEIGHT. do 3 f_equal.
  subst nsources ntargets_. lia.
Qed.

End UnregularizedConstruction.

(** ** Cost modelling *)

Section CostModellingFacts.

Context `{Values} `{!Substrate} `{!CostCollaborators}.

(** X21: [cost_model_compute_potential_insn] refuses a source set to
    direct evaluation with [NotImplementedError], before anything is
    evaluated.  On any other source it never returns directly evaluated
    potentials; what it returns besides the placeholders of a vetoed run
    are assignments with the names of the outputs, in order, cut from the
    finalized zero arrays of the wrangler (no potential is computed),
    together with the result of the cost model. *)
Theorem cost_model_run_returns_placeholders :
  forall (self : QBX.QBXLayerPotentialSource) (insn : Instruction)
         (bound_expr : BoundExpression) (w w' : world) (r : result ExecReturn),
    cost_model_compute_potential_insn self insn bound_expr w = (r, w') ->
    (QBX.fmm_level_to_order self = LtoFalse ->
     r = inl (NotImplementedError no_direct_cost_msg) /\ w' = w)
    /\ match r with
       | inl _ => True
       | inr (DirectPotentials _) => False
       | inr (ZeroPlaceholders assignments) =>
           assignments = map (fun o => (name o, 0)) (outputs insn)
       | inr (FmmPotentials assignments cost_model_result) =>
           map fst assignments = map name (outputs insn)
           /\ exists cost_model wrangler geo_data kernel kernel_arguments zeros
                     output_placeholder,
                QBX.cost_model self = Some cost_model
                /\ apply_cost_model cost_model wrangler geo_data kernel
                     kernel_arguments = inr cost_model_result
                /\ full_output_zeros wrangler = inr zeros
                /\ comprehension (finalize_potentials wrangler) zeros
                   = inr output_placeholder
                /\ comprehension
                     (fmm_output geo_data
                        (fst (get_target_discrs_and_qbx_sides insn bound_expr))
                        output_placeholder)
                     (outputs insn) = inr assignments
       end.
Proof.
  intros self insn bound_expr w w' r. unfold cost_model_compute_potential_insn.
  destruct (QBX.fmm_level_to_order self) as [|o|f] eqn:Hlto.
  - unfold raise. intros [= <- <-]. split; [done|]. exact I.
  - intros Hrun. split; [discriminate|].
    apply exec_compute_potential_insn_fmm_inv in Hrun
      as (geo_data & w1 & evs & _ & _ & _ & Hr).
    destruct r as [e|[a|a extra|a]]; [exact I|tauto| |exact Hr].
    destruct Hr as (_ & wrangler & strengths & kernel & kw & potentials
                    & Hdrive & Hout).
    split.
    { apply comprehension_Forall2 in Hout. clear -Hout.
      induction Hout as [|o' p os ps Hp _ IH]; [reflexivity|]. simpl.
      apply fmm_output_inv in Hp as (n & potential & _ & _ & _ & Hname).
      congruence. }
    unfold drive_cost_model, rbind in Hdrive.
    destruct (QBX.cost_model self) as [cm|]; [|discriminate].
    destruct (apply_cost_model cm wrangler geo_data kernel kw) as [e|res] eqn:Hcm;
      [discriminate|].
    destruct (full_output_zeros wrangler) as [e|zeros] eqn:Hz; [discriminate|].
    destruct (comprehension (finalize_potentials wrangler) zeros) as [e|ph] eqn:Hf;
      [discriminate|].
    injection Hdrive as <- <-.
    exists cm, wrangler, geo_data, kernel, kw, zeros, ph. done.
  - intros Hrun. split; [discriminate|].
    apply exec_compute_potential_insn_fmm_inv in Hrun
      as (geo_data & w1 & evs & _ & _ & _ & Hr).
    destruct r as [e|[a|a extra|a]]; [exact I|tauto| |exact Hr].
    destruct Hr as (_ & wrangler & strengths & kernel & kw & potentials
                    & Hdrive & Hout).
    split.
    { apply comprehension_Forall2 in Hout. clear -Hout.
      induction Hout as [|o' p os ps Hp _ IH]; [reflexivity|]. simpl.
      apply fmm_output_inv in Hp as (n & potential & _ & _ & _ & Hname).
      congruence. }
    unfold drive_cost_model, rbind in Hdrive.
    destruct (QBX.cost_model self) as [cm|]; [|discriminate].
    destruct (apply_cost_model cm wrangler geo_data kernel kw) as [e|res] eqn:Hcm;
      [discriminate|].
    destruct (full_output_zeros wrangler) as [e|zeros] eqn:Hz; [discriminate|].
    destruct (comprehension (finalize_potentials wrangler) zeros) as [e|ph] eqn:Hf;
      [discriminate|].
    injection Hdrive as <- <-.
    exists cm, wrangler, geo_data, kernel, kw, zeros, ph. done.
Qed.

End CostModellingFacts.

(** ** Evaluation of the QBX expansions by the fmmlib wrangler *)

Lemma np_position_lt (n : nat) (i : Z) (p : nat) :
  np_position n i = Some p -> (p < n)%nat.
Proof.
  unfold np_position.
  destruct ((0 <=? i) && (i <? Z.of_nat n)) eqn:E1.
  - intros [= <-]. apply andb_true_iff in E1 as [? ?]. lia.
  - destruct ((- Z.of_nat n <=? i) && (i <? 0)) eqn:E2; [|discriminate].
    intros [= <-]. apply andb_true_iff in E2 as [? ?]. lia.
Qed.

Lemma np_getitem_error {A} (a : list A) (i : Z) (e : exn) :
  np_getitem a i = inl e -> e = IndexError.
Proof.
  unfold np_getitem, index.
  destruct (np_position (List.length a) i) as [p|]; [|congruence].
  destruct (a !! p); [discriminate|congruence].
Qed.

Lemma lookup_repeat {A} (x : A) (n t : nat) :
  (t < n)%nat -> repeat x n !! t = Some x.
Proof.
  revert t. induction n as [|n IH]; intros t Ht; [lia|].
  destruct t as [|t]; simpl; [done|]. apply IH. lia.
Qed.

Section FmmlibEvaluationFacts.

Import FMMLibNumerics.
Context `{Values} `{!Collaborators}.

(** An update of one entry keeps every array as long as it was, and every
    entry at another position as it was. *)
Lemma iadd_entry_inv (output output' : list (list Scalar)) (i_out : nat)
    (output_slice : Z) (value : Scalar) :
  iadd_entry output i_out output_slice value = inr output' ->
  Forall2 (fun a a' =>
             List.length a' = List.length a
             /\ forall t, np_position (List.length a) output_slice <> Some t ->
                          a' !! t = a !! t)
    output output'.
Proof.
  unfold iadd_entry, index, rbind.
  destruct (output !! i_out) as [a|] eqn:Ha; [|discriminate].
  destruct (np_position (List.length a) output_slice) as [p|] eqn:Hp;
    [|discriminate].
  destruct (a !! p) as [old|]; [|discriminate].
  intros [= <-].
  apply Forall2_same_length_lookup. split.
  - by rewrite length_insert.
  - intros j x y Hx Hy.
    destruct (decide (j = i_out)) as [->|Hne].
    + rewrite list_lookup_insert_eq in Hy by (by eapply lookup_lt_Some).
      injection Hy as <-. rewrite Ha in Hx. injection Hx as <-.
      split; [by rewrite length_insert|].
      intros t Ht. rewrite list_lookup_insert_ne; [done|]. congruence.
    + rewrite list_lookup_insert_ne in Hy by done.
      rewrite Hx in Hy. injection Hy as <-. done.
Qed.

Lemma unchanged_off_refl (output_slice : Z) (output : list (list Scalar)) :
  unchanged_off output_slice output output.
Proof. apply Forall2_same_length_lookup. split; [done|]. intros; simplify_eq. done. Qed.

Lemma unchanged_off_trans (output_slice : Z)
    (output output' output'' : list (list Scalar)) :
  unchanged_off output_slice output output' ->
  unchanged_off output_slice output' output'' ->
  unchanged_off output_slice output output''.
Proof.
  unfold unchanged_off. intros H1 H2.
  revert output'' H2. induction H1 as [|a a' l l' [Hl Ht] _ IH]; intros l'' H2.
  - inversion H2; subst. constructor.
  - inversion H2 as [|? a'' ? l''' [Hl' Ht'] Hrest]; subst.
    constructor; [|by apply IH].
    split; [congruence|]. intros t Hne.
    rewrite Ht' by (rewrite Hl; exact Hne). by apply Ht.
Qed.

Lemma add_potgrad_from_inv (outs : list (list Z)) :
  forall (i_out : nat) (output output' : list (list Scalar)) (output_slice : Z)
         (pot : Scalar) (grad : Grad),
    add_potgrad_from i_out outs output output_slice pot grad = inr output' ->
    unchanged_off output_slice output output'.
Proof.
  induction outs as [|out outs IH]; intros i_out output output' idx pot grad; simpl.
  - intros [= <-]. apply unchanged_off_refl.
  - unfold rbind at 1.
    destruct out as [|axis [|? ?]]; [| |discriminate].
    + destruct (iadd_entry output i_out idx pot) as [e|o1] eqn:H1; [discriminate|].
      intros Hrest. eapply unchanged_off_trans; [|eapply IH; exact Hrest].
      by eapply iadd_entry_inv.
    + destruct grad as [g|g].
      * unfold rbind at 1.
        destruct (np_getitem g axis) as [e|value]; [discriminate|].
        destruct (iadd_entry output i_out idx value) as [e|o1] eqn:H1;
          [discriminate|].
        intros Hrest. eapply unchanged_off_trans; [|eapply IH; exact Hrest].
        by eapply iadd_entry_inv.
      * destruct (is_zero g); [|discriminate]. apply IH.
Qed.

Lemma unchanged_off_zero_at (n t : nat) (output_slice : Z)
    (output output' : list (list Scalar)) :
  unchanged_off output_slice output output' ->
  np_position n output_slice <> Some t ->
  zero_at n t output -> zero_at n t output'.
Proof.
  unfold unchanged_off, zero_at. intros Hun Hne.
  induction Hun as [|a a' l l' [Hl Ht] _ IH]; intros Hz; [constructor|].
  inversion Hz as [|? ? Hhead Hrest]; subst. destruct Hhead as [Hlen Hzero].
  constructor; [|by apply IH].
  split; [congruence|]. rewrite Ht; [done|]. by rewrite Hlen.
Qed.

Lemma unchanged_off_lengths (output_slice : Z)
    (output output' : list (list Scalar)) :
  unchanged_off output_slice output output' ->
  map (@List.length Scalar) output' = map (@List.length Scalar) output.
Proof.
  induction 1 as [|a a' l l' [Hl _] _ IH]; [done|]. simpl. congruence.
Qed.

Lemma eval_center_targets_inv (self : QBXFMMLibExpansionWrangler)
    (qbx_expansions : Expansions) (lists : list Z) (src_icenter : Z)
    (positions : list Z) :
  forall (output output' : list (list Scalar)) (n t : nat),
    eval_center_targets self qbx_expansions lists src_icenter positions output
    = inr output' ->
    map (@List.length Scalar) output' = map (@List.length Scalar) output
    /\ ((forall k i, k ∈ positions -> np_getitem lists k = inr i ->
                     np_position n i <> Some t) ->
        zero_at n t output -> zero_at n t output').
Proof.
  induction positions as [|k positions IH]; intros output output' n t; simpl.
  - intros [= <-]. done.
  - unfold rbind at 1.
    destruct (np_getitem lists k) as [e|i] eqn:Hk; [discriminate|].
    unfold rbind at 1.
    destruct (taeval self qbx_expansions src_icenter i) as [e|[pot grad]];
      [discriminate|].
    unfold rbind at 1. simpl.
    destruct (add_potgrad_onto_output self output i pot grad) as [e|o1] eqn:Hadd;
      [discriminate|].
    intros Hrest. apply add_potgrad_from_inv in Hadd.
    destruct (IH o1 output' n t Hrest) as [Hlen Hzero].
    split; [rewrite Hlen; by eapply unchanged_off_lengths|].
    intros Hfree Hz. apply Hzero.
    + intros k' i' Hk' Hi'. apply (Hfree k' i'); [|done].
      by apply list_elem_of_further.
    + eapply unchanged_off_zero_at; [exact Hadd| |exact Hz].
      apply (Hfree k i); [apply list_elem_of_here|done].
Qed.

Lemma eval_centers_inv (self : QBXFMMLibExpansionWrangler)
    (qbx_expansions : Expansions) (starts lists : list Z) (centers : list Z) :
  forall (output output' : list (list Scalar)) (n t : nat),
    eval_centers self qbx_expansions starts lists centers output = inr output' ->
    map (@List.length Scalar) output' = map (@List.length Scalar) output
    /\ ((forall c start stop k i,
           c ∈ centers -> np_getitem starts c = inr start ->
           np_getitem starts (c + 1) = inr stop ->
           k ∈ py_range start stop -> np_getitem lists k = inr i ->
           np_position n i <> Some t) ->
        zero_at n t output -> zero_at n t output').
Proof.
  induction centers as [|c centers IH]; intros output output' n t; simpl.
  - intros [= <-]. done.
  - unfold rbind at 1.
    destruct (np_getitem starts c) as [e|start] eqn:Hstart; [discriminate|].
    unfold rbind at 1.
    destruct (np_getitem starts (c + 1)) as [e|stop] eqn:Hstop; [discriminate|].
    unfold rbind at 1.
    destruct (eval_center_targets self qbx_expansions lists c
                (py_range start stop) output) as [e|o1] eqn:Hinner;
      [discriminate|].
    intros Hrest.
    destruct (eval_center_targets_inv _ _ _ _ _ _ _ n t Hinner) as [Hlen1 Hz1].
    destruct (IH o1 output' n t Hrest) as [Hlen Hzero].
    split; [congruence|].
    intros Hfree Hz. apply Hzero.
    + intros c' start' stop' k i Hc'. apply Hfree. by apply list_elem_of_further.
    + apply Hz1; [|exact Hz].
      intros k i Hk Hi.
      exact (Hfree c start stop k i (list_elem_of_here _ _) Hstart Hstop Hk Hi).
Qed.

Lemma py_range_elem_of (start stop k : Z) :
  k ∈ py_range start stop <-> start <= k < stop.
Proof.
  unfold py_range. rewrite list_elem_of_fmap. split.
  - intros (j & -> & Hj). apply elem_of_seq in Hj. lia.
  - intros Hk. exists (Z.to_nat (k - start)). split; [lia|].
    apply elem_of_seq. lia.
Qed.

(** X22: What [eval_qbx_expansions] returns has one array per entry of
    [outputs], each with [ntargets] entries; and at every target that is
    not listed for a global QBX center (in the part of [ctt.lists]
    between the center's entries of [ctt.starts]) the value is zero in
    all of them: the evaluation only adds at the targets of the global
    centers. *)
Theorem eval_qbx_expansions_adds_only_at_center_targets :
  forall (self : QBXFMMLibExpansionWrangler) (qbx_expansions : Expansions)
         (output : list (list Scalar)),
    eval_qbx_expansions self qbx_expansions = inr output ->
    List.length output = List.length (w_outputs self)
    /\ Forall (fun a => List.length a = tree_ntargets self) output
    /\ exists starts lists centers,
         center_to_tree_targets (w_geo_data self) = inr (starts, lists)
         /\ global_qbx_centers (w_geo_data self) = inr centers
         /\ forall t : nat,
              (t < tree_ntargets self)%nat ->
              (forall c start stop k i,
                 c ∈ centers -> np_getitem starts c = inr start ->
                 np_getitem starts (c + 1) = inr stop ->
                 start <= k < stop -> np_getitem lists k = inr i ->
                 np_position (tree_ntargets self) i <> Some t) ->
              Forall (fun a => a !! t = Some zero) output.
Proof.
  intros self qbx_expansions output. unfold eval_qbx_expansions, rbind.
  destruct (center_to_tree_targets (w_geo_data self)) as [e|[starts lists]] eqn:Hctt;
    [discriminate|].
  destruct (global_qbx_centers (w_geo_data self)) as [e|centers] eqn:Hcenters;
    [discriminate|].
  destruct (evaluation_setup self) as [e|[]]; [discriminate|].
  simpl. intros Hrun.
  assert (Hlens : map (@List.length Scalar) output
                  = map (fun _ => tree_ntargets self) (w_outputs self)).
  { destruct (eval_centers_inv _ _ _ _ _ _ _ 0%nat 0%nat Hrun) as [Hlen _].
    rewrite Hlen. unfold full_output_zeros. rewrite map_map.
    apply map_ext. intros _. apply repeat_length. }
  split; [|split].
  - apply (f_equal (@List.length nat)) in Hlens. by rewrite !length_map in Hlens.
  - apply Forall_forall. intros a Ha.
    assert (Hin : List.length a ∈ map (fun _ => tree_ntargets self) (w_outputs self)).
    { rewrite <- Hlens. apply list_elem_of_fmap. eauto. }
    apply list_elem_of_fmap in Hin as (? & -> & _). done.
  - exists starts, lists, centers. split; [done|]. split; [done|].
    intros t Ht Hfree.
    destruct (eval_centers_inv _ _ _ _ _ _ _ (tree_ntargets self) t Hrun)
      as [_ Hzero].
    assert (Hz : zero_at (tree_ntargets self) t output).
    { apply Hzero.
      - intros c start stop k i Hc Hstart Hstop Hk Hi.
        apply (Hfree c start stop k i); try done. by apply py_range_elem_of.
      - unfold zero_at, full_output_zeros. apply Forall_forall.
        intros a Ha. apply list_elem_of_fmap in Ha as (? & -> & _).
        split; [apply repeat_length|].
        apply lookup_repeat. exact Ht. }
    eapply Forall_impl; [exact Hz|]. intros a [_ Ha]. exact Ha.
Qed.

End FmmlibEvaluationFacts.

Lemma outputs_of_target_derivatives (k_name : string) (ks : list Kernel)
    (outs : list (list Z)) :
  Forall2
    (fun k out =>
       (k = HelmholtzKernel 3 k_name /\ out = [])
       \/ (exists axis,
             k = AxisTargetDerivative axis (HelmholtzKernel 3 k_name)
             /\ out = [axis]))
    ks outs ->
  Forall (fun out => out = []
            \/ ((exists axis, out = [axis])
                /\ existsb is_axis_target_derivative ks = true))
    outs.
Proof.
  induction 1 as [|k out ks outs Hk _ IH]; [constructor|].
  constructor.
  - destruct Hk as [[_ ->]|(axis & -> & ->)]; [by left|].
    right. split; [by exists axis|reflexivity].
  - eapply Forall_impl; [exact IH|]. intros out' [->|[Hax Hgrad]]; [by left|].
    right. split; [done|]. simpl. rewrite Hgrad. apply orb_true_r.
Qed.

Section FmmlibAddPotgradFacts.

Import FMMLibNumerics.
Context `{Values} `{!Substrate} `{!Collaborators}.

Lemma iadd_entry_error (output : list (list Scalar)) (i_out : nat)
    (output_slice : Z) (value : Scalar) (e : exn) :
  iadd_entry output i_out output_slice value = inl e -> e = IndexError.
Proof.
  unfold iadd_entry, index, rbind.
  destruct (output !! i_out) as [a|]; [|congruence].
  destruct (np_position (List.length a) output_slice) as [p|]; [|congruence].
  destruct (a !! p); [discriminate|congruence].
Qed.

Lemma add_potgrad_from_error (ifgrad_ : bool) (outs : list (list Z)) :
  Forall (fun out => out = [] \/ ((exists axis, out = [axis]) /\ ifgrad_ = true))
    outs ->
  forall (i_out : nat) (output : list (list Scalar)) (output_slice : Z)
         (pot : Scalar) (grad : Grad) (e : exn),
    add_potgrad_from i_out outs output output_slice pot grad = inl e ->
    e = IndexError
    \/ (e = AssertionError /\ ifgrad_ = true
        /\ exists g, grad = GradNumber g /\ is_zero g = false).
Proof.
  induction 1 as [|out outs Hout _ IH]; intros i_out output idx pot grad e; simpl;
    [discriminate|].
  unfold rbind at 1.
  destruct Hout as [->|[[axis ->] Hgrad]].
  - destruct (iadd_entry output i_out idx pot) as [e'|o1] eqn:Hadd1.
    + intros [= <-]. left. by eapply iadd_entry_error.
    + apply IH.
  - destruct grad as [g|g].
    + unfold rbind at 1.
      destruct (np_getitem g axis) as [e'|value] eqn:Hg.
      * intros [= <-]. left. by eapply np_getitem_error.
      * destruct (iadd_entry output i_out idx value) as [e'|o1] eqn:Hadd1.
        -- intros [= <-]. left. by eapply iadd_entry_error.
        -- apply IH.
    + destruct (is_zero g) eqn:Hz.
      * apply IH.
      * intros [= <-]. right. eauto.
Qed.

(** X23: On a wrangler that the constructor returned,
    [add_potgrad_onto_output] (called with an integer index and a number)
    never meets an entry of [outputs] that it does not understand: it
    either returns the arrays with their lengths, changed at most at the
    indexed position, or raises [IndexError], or fails its assertion, and
    that only when a target derivative is among the kernels and the
    gradient it was given is a number other than zero. *)
Theorem add_potgrad_onto_output_on_constructed_wrangler :
  forall (code : QBXFMMLibExpansionWranglerCodeContainer)
         (geo_data : QBXFMMGeometryData) (dtype_ : dtype) (qbx_order : Z)
         (fmm_level_to_order : Z -> result Z)
         (source_extra_kwargs : gmap string (list Scalar))
         (kernel_extra_kwargs : option (gmap string (list Scalar)))
         (self : QBXFMMLibExpansionWrangler)
         (output : list (list Scalar)) (output_slice : Z) (pot : Scalar)
         (grad : Grad),
    FMMLib.__init__ code geo_data dtype_ qbx_order fmm_level_to_order
      source_extra_kwargs kernel_extra_kwargs = inr self ->
    match add_potgrad_onto_output self output output_slice pot grad with
    | inr output' => unchanged_off output_slice output output'
    | inl e =>
        e = IndexError
        \/ (e = AssertionError
            /\ existsb is_axis_target_derivative (out_kernels code) = true
            /\ exists g, grad = GradNumber g /\ is_zero g = false)
    end.
Proof.
  intros code geo_data dtype_ qbx_order f skw kkw self output idx pot grad Hinit.
  destruct (fmmlib_init_inv _ _ _ _ _ _ _ _ Hinit)
    as (_ & (k_name & kwargs & _ & _ & Hkernels) & Hifgrad & _).
  assert (Houts : Forall (fun out => out = []
                    \/ ((exists axis, out = [axis]) /\ w_ifgrad self = true))
                    (w_outputs self)).
  { rewrite Hifgrad.
    destruct Hkernels as [[_ Hall]|(dir & v & _ & _ & Hall)].
    - eapply outputs_of_target_derivatives; exact Hall.
    - eapply Forall2_Forall_r; [exact Hall|].
      apply Forall_forall. intros k _ out [_ ->]. by left. }
  unfold add_potgrad_onto_output.
  destruct (add_potgrad_from 0 (w_outputs self) output idx pot grad)
    as [e|output'] eqn:Hadd.
  - rewrite <- Hifgrad. by eapply add_potgrad_from_error.
  - by eapply add_potgrad_from_inv.
Qed.

End FmmlibAddPotgradFacts.

(** ** The interaction lists of the fmmlib wrangler *)

Lemma np_cumsum_from_lookup (l : list Z) :
  forall (acc : Z) (i : nat),
    (i < List.length l)%nat ->
    np_cumsum_from acc l !! i = Some (acc + sum_Z (take (S i) l)).
Proof.
  induction l as [|x l IH]; intros acc i Hi; simpl in *; [lia|].
  destruct i as [|i]; simpl.
  - f_equal. destruct l; simpl; lia.
  - rewrite IH by lia. f_equal. unfold sum_Z. simpl. lia.
Qed.

Lemma np_cumsum_from_length (l : list Z) (acc : Z) :
  List.length (np_cumsum_from acc l) = List.length l.
Proof. revert acc. induction l as [|x l IH]; intros acc; simpl; [done|]. by rewrite IH. Qed.

Lemma np_position_minus_one (n : nat) :
  np_position (S n) (-1) = Some n.
Proof.
  unfold np_position.
  replace ((0 <=? -1) && (-1 <? Z.of_nat (S n))) with false by reflexivity.
  destruct ((- Z.of_nat (S n) <=? -1) && (-1 <? 0)) eqn:E.
  - f_equal. lia.
  - apply andb_false_iff in E as [E|E]; [|discriminate].
    apply Z.leb_gt in E. lia.
Qed.

Lemma np_getitem_last {A} (l : list A) (x : A) :
  np_getitem (l ++ [x]) (-1) = inr x.
Proof.
  unfold np_getitem, index. rewrite length_app. simpl.
  rewrite Nat.add_1_r, np_position_minus_one.
  rewrite lookup_app_r by lia. by rewrite Nat.sub_diag.
Qed.

Lemma py_slice_bound_le (n : nat) (x : Z) : (py_slice_bound n x <= n)%nat.
Proof.
  unfold py_slice_bound. destruct (x <? 0) eqn:E; [|lia].
  apply Z.ltb_lt in E. lia.
Qed.

Lemma np_assign_slice_length {A} (a : list A) (lo hi : Z) (values a' : list A) :
  np_assign_slice a lo hi values = inr a' -> List.length a' = List.length a.
Proof.
  unfold np_assign_slice.
  set (n := List.length a).
  assert (Hlo : (py_slice_bound n lo <= n)%nat) by apply py_slice_bound_le.
  assert (Hhi : (py_slice_bound n hi <= n)%nat) by apply py_slice_bound_le.
  destruct (bool_decide _) eqn:Hd.
  - apply bool_decide_eq_true in Hd. intros [= <-].
    rewrite !length_app, length_take, length_drop, Hd. fold n. lia.
  - destruct values as [|v [|? ?]]; try discriminate. intros [= <-].
    rewrite !length_app, length_take, length_drop, repeat_length. fold n. lia.
Qed.

Lemma np_assign_slice_error {A} (a : list A) (lo hi : Z) (values : list A)
    (e : exn) :
  np_assign_slice a lo hi values = inl e ->
  e = ValueError "could not broadcast input array".
Proof.
  unfold np_assign_slice. destruct (bool_decide _); [discriminate|].
  destruct values as [|v [|? ?]]; congruence.
Qed.

Section FmmlibInteractionListFacts.

Import FMMLibP2QBXL.
Context `{Values} `{!Collaborators}.

Lemma source_count_shift (self : QBXFMMLibExpansionWrangler) (lists boxes : list Z) :
  forall total total' c,
    source_count self lists boxes total = inr c ->
    source_count self lists boxes total' = inr (c - total + total').
Proof.
  induction boxes as [|b boxes IH]; intros total total' c; simpl.
  - intros [= <-]. f_equal. lia.
  - unfold rbind.
    destruct (np_getitem lists b) as [e|src]; [discriminate|].
    destruct (np_getitem (box_source_counts_nonchild self) src) as [e|ns];
      [discriminate|].
    intros Hc. rewrite (IH _ (total' + ns) _ Hc). f_equal. lia.
Qed.

(** The second pass advances [isource] by what the first pass counted,
    and fails only where the slice of a box cannot be had or entered. *)
Lemma fill_boxes_inv (self : QBXFMMLibExpansionWrangler) (lists boxes : list Z) :
  forall (total c isource : Z) (offsets : list Z),
    source_count self lists boxes total = inr c ->
    match fill_boxes self lists boxes isource offsets with
    | inr filled =>
        fst filled = isource + (c - total)
        /\ List.length (snd filled) = List.length offsets
    | inl e =>
        (exists b, get_source_slice self b = inl e)
        \/ e = ValueError "could not broadcast input array"
    end.
Proof.
  induction boxes as [|b boxes IH]; intros total c isource offsets; simpl.
  - intros [= <-]. split; [lia|done].
  - unfold rbind.
    destruct (np_getitem lists b) as [e|src]; [discriminate|].
    destruct (get_source_slice self src) as [e|pslice] eqn:Hslice; [eauto|].
    destruct (np_getitem (box_source_counts_nonchild self) src) as [e|ns];
      [discriminate|].
    intros Hc.
    destruct (np_assign_slice offsets isource (isource + ns) _) as [e|offsets'] eqn:Ha.
    { right. by eapply np_assign_slice_error. }
    specialize (IH (total + ns) c (isource + ns) offsets' Hc).
    destruct (fill_boxes self lists boxes (isource + ns) offsets')
      as [e|filled]; [exact IH|].
    destruct IH as [Hi Hl]. split; [lia|].
    rewrite Hl. by eapply np_assign_slice_length.
Qed.

Lemma fill_centers_inv (self : QBXFMMLibExpansionWrangler)
    (qc2tb starts lists center_source_starts_ : list Z) (centers_ : list Z) :
  forall (counts : list Z) (itgt_center : nat) (isource : Z) (offsets : list Z),
    count_sources self qc2tb starts lists centers_ = inr counts ->
    (forall j, (j < List.length centers_)%nat ->
               center_source_starts_ !! (itgt_center + j)%nat
               = Some (isource + sum_Z (take j counts))) ->
    match fill_centers self qc2tb starts lists center_source_starts_
            itgt_center centers_ isource offsets with
    | inr offsets' => List.length offsets' = List.length offsets
    | inl e =>
        (exists b, get_source_slice self b = inl e)
        \/ e = ValueError "could not broadcast input array"
    end.
Proof.
  induction centers_ as [|c centers_ IH];
    intros counts itgt_center isource offsets; simpl; [done|].
  unfold rbind, index. intros Hcount Hstarts. revert Hcount.
  pose proof (Hstarts 0%nat ltac:(lia)) as Hfirst.
  rewrite Nat.add_0_r in Hfirst. simpl in Hfirst.
  rewrite Hfirst. replace (isource + 0) with isource by lia.
  rewrite Z.eqb_refl. simpl.
  destruct (np_getitem qc2tb c) as [e|itgt_box]; [discriminate|].
  destruct (np_getitem starts itgt_box) as [e|start]; [discriminate|].
  destruct (np_getitem starts (itgt_box + 1)) as [e|stop]; [discriminate|].
  destruct (source_count self lists (py_range start stop) 0) as [e|c0] eqn:Hc0;
    [discriminate|].
  destruct (count_sources self qc2tb starts lists centers_) as [e|counts'] eqn:Hrest;
    [discriminate|].
  intros [= <-].
  pose proof (fill_boxes_inv self lists (py_range start stop) 0 c0 isource
                offsets Hc0) as Hfill.
  destruct (fill_boxes self lists (py_range start stop) isource offsets)
    as [e|filled]; [exact Hfill|].
  destruct Hfill as [Hi Hl].
  specialize (IH counts' (S itgt_center) (fst filled) (snd filled) eq_refl).
  rewrite <- Hl. apply IH.
  intros j Hj. specialize (Hstarts (S j) ltac:(lia)).
  replace (S itgt_center + j)%nat with (itgt_center + S j)%nat by lia.
  rewrite Hstarts. f_equal. rewrite Hi. unfold sum_Z. simpl. lia.
Qed.

Lemma source_count_error (self : QBXFMMLibExpansionWrangler) (lists boxes : list Z) :
  forall total e,
    source_count self lists boxes total = inl e -> e = IndexError.
Proof.
  induction boxes as [|b boxes IH]; intros total e; simpl; [discriminate|].
  unfold rbind.
  destruct (np_getitem lists b) as [e'|src] eqn:H1;
    [intros [= <-]; by eapply np_getitem_error|].
  destruct (np_getitem (box_source_counts_nonchild self) src) as [e'|ns] eqn:H2;
    [intros [= <-]; by eapply np_getitem_error|].
  apply IH.
Qed.

Lemma count_sources_inv (self : QBXFMMLibExpansionWrangler)
    (qc2tb starts lists : list Z) (centers_ : list Z) :
  match count_sources self qc2tb starts lists centers_ with
  | inr counts => List.length counts = List.length centers_
  | inl e => e = IndexError
  end.
Proof.
  induction centers_ as [|c centers_ IH]; simpl; [done|].
  unfold rbind.
  destruct (np_getitem qc2tb c) as [e|itgt_box] eqn:H1;
    [by eapply np_getitem_error|].
  destruct (np_getitem starts itgt_box) as [e|start] eqn:H2;
    [by eapply np_getitem_error|].
  destruct (np_getitem starts (itgt_box + 1)) as [e|stop] eqn:H3;
    [by eapply np_getitem_error|].
  destruct (source_count self lists (py_range start stop) 0) as [e|c0] eqn:H4;
    [by eapply source_count_error|].
  destruct (count_sources self qc2tb starts lists centers_) as [e|counts];
    [exact IH|]. simpl. by rewrite IH.
Qed.

Lemma np_cumsum_counts (counts : list Z) :
  np_cumsum (0 :: counts)
  = 0 :: np_cumsum_from 0 counts.
Proof. reflexivity. Qed.

Lemma np_cumsum_last (counts : list Z) :
  np_getitem (np_cumsum (0 :: counts)) (-1) = inr (sum_Z counts).
Proof.
  destruct (decide (counts = [])) as [->|Hne]; [reflexivity|].
  assert (Hlen : (0 < List.length counts)%nat) by (destruct counts; simpl; [done|lia]).
  pose proof (np_cumsum_from_lookup counts 0 (List.length counts - 1) ltac:(lia))
    as Hlast.
  replace (S (List.length counts - 1)) with (List.length counts) in Hlast by lia.
  rewrite firstn_all in Hlast. simpl in Hlast.
  rewrite np_cumsum_counts.
  assert (Hsplit : exists l, 0 :: np_cumsum_from 0 counts = l ++ [sum_Z counts]).
  { exists (take (List.length counts) (0 :: np_cumsum_from 0 counts)).
    rewrite <- (take_drop (List.length counts) (0 :: np_cumsum_from 0 counts)) at 1.
    f_equal.
    apply list_eq. intros i. rewrite lookup_drop.
    destruct i as [|i]; simpl.
    - rewrite Nat.add_0_r. destruct (List.length counts) as [|n] eqn:E; [lia|].
      simpl. replace (S n - 1)%nat with n in Hlast by lia. exact Hlast.
    - rewrite lookup_nil. apply lookup_ge_None_2. simpl.
      rewrite np_cumsum_from_length. lia. }
  destruct Hsplit as [l ->]. apply np_getitem_last.
Qed.

(** X24: The first pass of [_info_for_form_global_qbx_locals] counts what
    the second pass enters, so the assertion of the second pass holds
    whenever it is reached: the function fails only with an [IndexError]
    of its own lookups, a [ValueError] for a negative total or a slice
    that does not take the numbers of a box, or an exception of one of
    its collaborators. *)
Theorem info_for_form_global_qbx_locals_assertion_holds :
  forall (self : QBXFMMLibExpansionWrangler) (e : exn),
    _info_for_form_global_qbx_locals self = inl e ->
    e = IndexError
    \/ e = ValueError "negative dimensions are not allowed"
    \/ e = ValueError "could not broadcast input array"
    \/ neighbor_source_boxes (w_geo_data self) = inl e
    \/ qbx_center_to_target_box (w_geo_data self) = inl e
    \/ qbx_centers (w_geo_data self) = inl e
    \/ global_qbx_centers (w_geo_data self) = inl e
    \/ (exists b, get_source_slice self b = inl e)
    \/ (exists c l, take_centers c l = inl e).
Proof.
  intros self e. unfold _info_for_form_global_qbx_locals, rbind.
  destruct (neighbor_source_boxes (w_geo_data self)) as [e'|[starts lists]] eqn:H1;
    [intros [= <-]; tauto|].
  destruct (qbx_center_to_target_box (w_geo_data self)) as [e'|qc2tb] eqn:H2;
    [intros [= <-]; tauto|].
  destruct (qbx_centers (w_geo_data self)) as [e'|qc] eqn:H3;
    [intros [= <-]; tauto|].
  destruct (global_qbx_centers (w_geo_data self)) as [e'|gqc] eqn:H4;
    [intros [= <-]; tauto|].
  simpl.
  pose proof (count_sources_inv self qc2tb starts lists gqc) as Hcount.
  destruct (count_sources self qc2tb starts lists gqc) as [e'|counts] eqn:H5;
    [intros [= <-]; tauto|].
  rewrite np_cumsum_last.
  destruct (sum_Z counts <? 0) eqn:Hneg; [intros [= <-]; tauto|].
  pose proof (fill_centers_inv self qc2tb starts lists (np_cumsum (0 :: counts))
                gqc counts 0 0
                (empty_int32 (Z.to_nat (sum_Z counts))) H5) as Hfill.
  destruct (fill_centers self qc2tb starts lists (np_cumsum (0 :: counts)) 0 gqc 0
              (empty_int32 (Z.to_nat (sum_Z counts)))) as [e'|offsets] eqn:H6.
  - intros [= <-].
    destruct Hfill as [Hs|Hv]; [|tauto|tauto].
    intros j Hj. rewrite np_cumsum_counts.
    destruct j as [|j]; [reflexivity|].
    simpl. rewrite np_cumsum_from_lookup by lia. done.
  - destruct (take_centers qc gqc) as [e'|sel] eqn:H7; [|discriminate].
    intros [= <-]. do 8 right. eauto.
Qed.

(** The compressed form of what [_info_for_form_global_qbx_locals]
    returns. *)
Lemma info_for_form_global_qbx_locals_starts_inv :
  forall (self : QBXFMMLibExpansionWrangler) (info : P2QBXLInfo),
    _info_for_form_global_qbx_locals self = inr info ->
    exists starts lists qc2tb gqc counts,
      neighbor_source_boxes (w_geo_data self) = inr (starts, lists)
      /\ qbx_center_to_target_box (w_geo_data self) = inr qc2tb
      /\ global_qbx_centers (w_geo_data self) = inr gqc
      /\ count_sources self qc2tb starts lists gqc = inr counts
      /\ List.length counts = List.length gqc
      /\ ngqbx_centers info = List.length gqc
      /\ List.length (center_source_starts info) = S (List.length gqc)
      /\ (forall i, (i <= List.length gqc)%nat ->
            center_source_starts info !! i = Some (sum_Z (take i counts)))
      /\ 0 <= sum_Z counts
      /\ ((forall n, List.length (empty_int32 n) = n) ->
          Z.of_nat (List.length (center_source_offsets info)) = sum_Z counts)
      /\ rscale_vec info = repeat 1 (List.length gqc)
      /\ nsources_vec info = repeat 1 (tree_nsources self).
Proof.
  intros self info. unfold _info_for_form_global_qbx_locals, rbind.
  destruct (neighbor_source_boxes (w_geo_data self)) as [e'|[starts lists]] eqn:H1;
    [discriminate|].
  destruct (qbx_center_to_target_box (w_geo_data self)) as [e'|qc2tb] eqn:H2;
    [discriminate|].
  destruct (qbx_centers (w_geo_data self)) as [e'|qc] eqn:H3; [discriminate|].
  destruct (global_qbx_centers (w_geo_data self)) as [e'|gqc] eqn:H4;
    [discriminate|].
  simpl.
  pose proof (count_sources_inv self qc2tb starts lists gqc) as Hcount.
  destruct (count_sources self qc2tb starts lists gqc) as [e'|counts] eqn:H5;
    [discriminate|].
  rewrite np_cumsum_last.
  destruct (sum_Z counts <? 0) eqn:Hneg; [discriminate|].
  assert (Hstarts : forall j, (j <= List.length gqc)%nat ->
            np_cumsum (0 :: counts) !! j = Some (sum_Z (take j counts))).
  { intros j Hj. rewrite np_cumsum_counts.
    destruct j as [|j]; [reflexivity|].
    simpl. rewrite np_cumsum_from_lookup by lia. done. }
  pose proof (fill_centers_inv self qc2tb starts lists (np_cumsum (0 :: counts))
                gqc counts 0 0
                (empty_int32 (Z.to_nat (sum_Z counts))) H5) as Hfill.
  destruct (fill_centers self qc2tb starts lists (np_cumsum (0 :: counts)) 0 gqc 0
              (empty_int32 (Z.to_nat (sum_Z counts)))) as [e'|offsets] eqn:H6;
    [discriminate|].
  destruct (take_centers qc gqc) as [e'|sel] eqn:H7; [discriminate|].
  intros [= <-]. simpl.
  exists starts, lists, qc2tb, gqc, counts.
  repeat (split; [done|]).
  split; [rewrite np_cumsum_from_length; lia|].
  split; [exact Hstarts|].
  apply Z.ltb_ge in Hneg.
  split; [exact Hneg|].
  split.
  - intros Hempty. rewrite Hfill.
    + rewrite Hempty. lia.
    + intros j Hj. simpl. apply Hstarts. lia.
  - split; [|reflexivity]. f_equal. rewrite Hcount. lia.
Qed.

(** X25: What [_info_for_form_global_qbx_locals] returns describes the
    sources of the global centers in compressed form:
    [center_source_starts] begins with zero and has one more entry than
    there are global centers, entry [i + 1] exceeding entry [i] by the
    number of sources in the boxes listed for center [i]; the last entry
    is not negative, and [center_source_offsets] has that many entries
    when the allocation returns arrays of the size asked for; the scale
    and source count vectors hold ones. *)
Theorem info_for_form_global_qbx_locals_starts :
  forall (self : QBXFMMLibExpansionWrangler) (info : P2QBXLInfo),
    _info_for_form_global_qbx_locals self = inr info ->
    exists starts lists qc2tb gqc counts,
      neighbor_source_boxes (w_geo_data self) = inr (starts, lists)
      /\ qbx_center_to_target_box (w_geo_data self) = inr qc2tb
      /\ global_qbx_centers (w_geo_data self) = inr gqc
      /\ count_sources self qc2tb starts lists gqc = inr counts
      /\ List.length counts = List.length gqc
      /\ ngqbx_centers info = List.length gqc
      /\ List.length (center_source_starts info) = S (List.length gqc)
      /\ (forall i, (i <= List.length gqc)%nat ->
            center_source_starts info !! i = Some (sum_Z (take i counts)))
      /\ 0 <= sum_Z counts
      /\ ((forall n, List.length (empty_int32 n) = n) ->
          Z.of_nat (List.length (center_source_offsets info)) = sum_Z counts)
      /\ rscale_vec info = repeat 1 (List.length gqc)
      /\ nsources_vec info = repeat 1 (tree_nsources self).
Proof. exact info_for_form_global_qbx_locals_starts_inv. Qed.

End FmmlibInteractionListFacts.

Lemma py_range_length (start stop : Z) :
  List.length (py_range start stop) = Z.to_nat (stop - start).
Proof. unfold py_range. by rewrite length_map, length_seq. Qed.

Lemma np_assign_slice_exact {A} (pre rest values : list A) (lo hi : Z) :
  lo = Z.of_nat (List.length pre) ->
  hi = lo + Z.of_nat (List.length values) ->
  (List.length values <= List.length rest)%nat ->
  np_assign_slice (pre ++ rest) lo hi values
  = inr (pre ++ values ++ drop (List.length values) rest).
Proof.
  intros -> -> Hfit. unfold np_assign_slice.
  assert (Hlo : py_slice_bound (List.length (pre ++ rest))
                  (Z.of_nat (List.length pre)) = List.length pre).
  { unfold py_slice_bound. rewrite length_app.
    destruct (_ <? 0) eqn:E; [apply Z.ltb_lt in E; lia|]. lia. }
  assert (Hhi : py_slice_bound (List.length (pre ++ rest))
                  (Z.of_nat (List.length pre) + Z.of_nat (List.length values))
                = (List.length pre + List.length values)%nat).
  { unfold py_slice_bound. rewrite length_app.
    destruct (_ <? 0) eqn:E; [apply Z.ltb_lt in E; lia|]. lia. }
  rewrite Hlo, Hhi.
  replace (List.length pre + List.length values - List.length pre)%nat
    with (List.length values) by lia.
  rewrite bool_decide_eq_true_2 by done.
  rewrite take_app_length, drop_app_add'; done.
Qed.

Section FmmlibInteractionListContent.

Import FMMLibP2QBXL.
Context `{Values} `{!Collaborators}.

Lemma source_count_nonneg (self : QBXFMMLibExpansionWrangler) (lists boxes : list Z) :
  slices_match_counts self ->
  forall total c,
    source_count self lists boxes total = inr c -> total <= c.
Proof.
  intros Hslices. induction boxes as [|b boxes IH]; intros total c; simpl.
  - intros [= <-]. lia.
  - unfold rbind.
    destruct (np_getitem lists b) as [e|src]; [discriminate|].
    destruct (np_getitem (box_source_counts_nonchild self) src) as [e|ns] eqn:Hns;
      [discriminate|].
    intros Hc. apply IH in Hc. destruct (Hslices src ns Hns) as [Hnn _]. lia.
Qed.

Lemma fill_boxes_content (self : QBXFMMLibExpansionWrangler) (lists boxes : list Z) :
  slices_match_counts self ->
  forall (total c : Z) (pre rest : list Z),
    source_count self lists boxes total = inr c ->
    c - total <= Z.of_nat (List.length rest) ->
    exists sources,
      sources_of_boxes self lists boxes = inr sources
      /\ Z.of_nat (List.length sources) = c - total
      /\ fill_boxes self lists boxes (Z.of_nat (List.length pre)) (pre ++ rest)
         = inr (Z.of_nat (List.length pre) + (c - total),
                pre ++ sources ++ drop (List.length sources) rest).
Proof.
  intros Hslices. induction boxes as [|b boxes IH]; intros total c pre rest; simpl.
  - intros [= <-] _. exists []. split; [done|]. split; [simpl; lia|].
    simpl. do 2 f_equal. lia.
  - unfold rbind.
    destruct (np_getitem lists b) as [e|src]; [discriminate|].
    destruct (np_getitem (box_source_counts_nonchild self) src) as [e|ns] eqn:Hns;
      [discriminate|].
    destruct (Hslices src ns Hns) as [Hnn [start Hslice]]. rewrite Hslice. simpl.
    intros Hc Hfit.
    pose proof (source_count_nonneg self lists boxes Hslices _ _ Hc) as Hge.
    set (values := py_range start (start + ns)).
    assert (Hlen : List.length values = Z.to_nat ns).
    { subst values. rewrite py_range_length. f_equal. lia. }
    rewrite (np_assign_slice_exact pre rest values); [|done|lia|lia].
    specialize (IH (total + ns) c (pre ++ values) (drop (List.length values) rest)
                  Hc).
    destruct IH as (sources & Hsources & Hslen & Hfill).
    { rewrite length_drop. lia. }
    rewrite Hsources. exists (values ++ sources).
    split; [done|]. split; [rewrite length_app; lia|].
    replace (Z.of_nat (List.length pre) + ns)
      with (Z.of_nat (List.length (pre ++ values)))
      by (rewrite length_app; lia).
    rewrite <- app_assoc in Hfill. rewrite Hfill. f_equal. f_equal.
    + rewrite length_app. lia.
    + rewrite <- !app_assoc, drop_drop, length_app. reflexivity.
Qed.

Lemma count_sources_nonneg (self : QBXFMMLibExpansionWrangler)
    (qc2tb starts lists : list Z) (centers_ : list Z) :
  slices_match_counts self ->
  forall counts,
    count_sources self qc2tb starts lists centers_ = inr counts ->
    0 <= sum_Z counts.
Proof.
  intros Hslices. induction centers_ as [|c centers_ IH]; intros counts; simpl.
  - intros [= <-]. done.
  - unfold rbind.
    destruct (np_getitem qc2tb c) as [e|itgt_box]; [discriminate|].
    destruct (np_getitem starts itgt_box) as [e|start]; [discriminate|].
    destruct (np_getitem starts (itgt_box + 1)) as [e|stop]; [discriminate|].
    destruct (source_count self lists (py_range start stop) 0) as [e|c0] eqn:Hc0;
      [discriminate|].
    destruct (count_sources self qc2tb starts lists centers_) as [e|counts'];
      [discriminate|].
    intros [= <-]. specialize (IH counts' eq_refl).
    apply source_count_nonneg in Hc0; [|done]. unfold sum_Z in *. simpl. lia.
Qed.

Lemma fill_centers_content (self : QBXFMMLibExpansionWrangler)
    (qc2tb starts lists center_source_starts_ : list Z) (centers_ : list Z) :
  slices_match_counts self ->
  forall (counts : list Z) (itgt_center : nat) (pre rest : list Z),
    count_sources self qc2tb starts lists centers_ = inr counts ->
    (forall j, (j < List.length centers_)%nat ->
               center_source_starts_ !! (itgt_center + j)%nat
               = Some (Z.of_nat (List.length pre) + sum_Z (take j counts))) ->
    sum_Z counts <= Z.of_nat (List.length rest) ->
    exists per_center,
      Forall2 (fun c sources =>
                 sources_of_center self qc2tb starts lists c = inr sources)
        centers_ per_center
      /\ Forall2 (fun count sources => Z.of_nat (List.length sources) = count)
           counts per_center
      /\ fill_centers self qc2tb starts lists center_source_starts_ itgt_center
           centers_ (Z.of_nat (List.length pre)) (pre ++ rest)
         = inr (pre ++ concat per_center
                  ++ drop (List.length (concat per_center)) rest).
Proof.
  intros Hslices. induction centers_ as [|c centers_ IH];
    intros counts itgt_center pre rest; simpl.
  - intros [= <-] _ _. exists []. split; [constructor|]. split; [constructor|].
    simpl. by rewrite drop_0.
  - unfold rbind, index. intros Hcount Hstarts. revert Hcount.
    pose proof (Hstarts 0%nat ltac:(lia)) as Hfirst.
    rewrite Nat.add_0_r in Hfirst. simpl in Hfirst.
    rewrite Hfirst.
    replace (Z.of_nat (List.length pre) + 0) with (Z.of_nat (List.length pre))
      by lia.
    rewrite Z.eqb_refl. simpl.
    destruct (np_getitem qc2tb c) as [e|itgt_box] eqn:Hq; [discriminate|].
    destruct (np_getitem starts itgt_box) as [e|start] eqn:Hs1; [discriminate|].
    destruct (np_getitem starts (itgt_box + 1)) as [e|stop] eqn:Hs2;
      [discriminate|].
    destruct (source_count self lists (py_range start stop) 0) as [e|c0] eqn:Hc0;
      [discriminate|].
    destruct (count_sources self qc2tb starts lists centers_) as [e|counts']
      eqn:Hrest; [discriminate|].
    intros [= <-] Hfit.
    pose proof (count_sources_nonneg self qc2tb starts lists centers_ Hslices
                  counts' Hrest) as Hnn.
    assert (Hsum : sum_Z (c0 :: counts') = c0 + sum_Z counts') by reflexivity.
    destruct (fill_boxes_content self lists (py_range start stop) Hslices 0 c0
                pre rest Hc0 ltac:(lia)) as (sources & Hsources & Hslen & Hfill).
    rewrite Hfill. simpl.
    replace (Z.of_nat (List.length pre) + (c0 - 0))
      with (Z.of_nat (List.length (pre ++ sources)))
      by (rewrite length_app; lia).
    rewrite app_assoc.
    destruct (IH counts' (S itgt_center) (pre ++ sources)
                (drop (List.length sources) rest) eq_refl)
      as (per_center & Hper & Hlens & Hfill').
    { intros j Hj. specialize (Hstarts (S j) ltac:(lia)).
      replace (S itgt_center + j)%nat with (itgt_center + S j)%nat by lia.
      rewrite Hstarts. f_equal. rewrite length_app.
      change (take (S j) (c0 :: counts')) with (c0 :: take j counts').
      unfold sum_Z. simpl. lia. }
    { rewrite length_drop. lia. }
    rewrite Hfill'. exists (sources :: per_center).
    split; [constructor; [|done]|].
    { unfold sources_of_center, rbind. rewrite Hq, Hs1, Hs2. exact Hsources. }
    split; [constructor; [lia|done]|].
    simpl. rewrite <- !app_assoc, drop_drop, length_app. reflexivity.
Qed.

(** X26: When the slice of every box has as many sources as the tree
    counts for it (and no count is negative), the second pass cannot fail,
    and [center_source_offsets] lists, center after center in the order
    of the global centers, the source numbers of the neighbor source
    boxes of the center's target box; the part of each center has the
    length that [center_source_starts] gives it. *)
Theorem info_for_form_global_qbx_locals_offsets :
  forall (self : QBXFMMLibExpansionWrangler) (info : P2QBXLInfo),
    _info_for_form_global_qbx_locals self = inr info ->
    slices_match_counts self ->
    (forall n, List.length (empty_int32 n) = n) ->
    exists starts lists qc2tb gqc per_center,
      neighbor_source_boxes (w_geo_data self) = inr (starts, lists)
      /\ qbx_center_to_target_box (w_geo_data self) = inr qc2tb
      /\ global_qbx_centers (w_geo_data self) = inr gqc
      /\ Forall2 (fun c sources =>
                    sources_of_center self qc2tb starts lists c = inr sources)
           gqc per_center
      /\ center_source_offsets info = concat per_center
      /\ (forall i sources,
            per_center !! i = Some sources ->
            exists start,
              center_source_starts info !! i = Some start
              /\ center_source_starts info !! S i
                 = Some (start + Z.of_nat (List.length sources))).
Proof.
  intros self info Hinfo Hslices Hempty.
  destruct (info_for_form_global_qbx_locals_starts_inv self info Hinfo)
    as (starts & lists & qc2tb & gqc & counts & H1 & H2 & H4 & H5 & Hlen & _
        & _ & Hstarts & Hnn & Hsize & _).
  revert Hinfo. unfold _info_for_form_global_qbx_locals, rbind.
  rewrite H1, H2. simpl.
  destruct (qbx_centers (w_geo_data self)) as [e'|qc]; [discriminate|].
  rewrite H4, H5, np_cumsum_last.
  destruct (sum_Z counts <? 0); [discriminate|].
  destruct (fill_centers_content self qc2tb starts lists
              (np_cumsum (0 :: counts)) gqc Hslices counts 0 []
              (empty_int32 (Z.to_nat (sum_Z counts))) H5)
    as (per_center & Hper & Hlens & Hfill).
  { intros j Hj. simpl. simpl in Hstarts.
    destruct j as [|j]; [reflexivity|].
    rewrite np_cumsum_counts. simpl. rewrite np_cumsum_from_lookup by lia. done. }
  { rewrite Hempty. lia. }
  change (Z.of_nat (List.length (@nil Z))) with 0 in Hfill.
  cbn [app] in Hfill. rewrite Hfill.
  destruct (take_centers qc gqc) as [e'|sel]; [discriminate|].
  intros [= <-]. simpl.
  assert (Htotal : Z.of_nat (List.length (concat per_center)) = sum_Z counts).
  { clear -Hlens. induction Hlens as [|count sources counts per_center Hc _ IH];
      [reflexivity|].
    simpl. rewrite length_app. unfold sum_Z in *. simpl. lia. }
  exists starts, lists, qc2tb, gqc, per_center.
  repeat (split; [done|]).
  split.
  - rewrite drop_ge, app_nil_r; [done|]. rewrite Hempty. lia.
  - intros i sources Hi.
    assert (Hi' : (i < List.length counts)%nat).
    { apply Forall2_length in Hlens. apply lookup_lt_Some in Hi. lia. }
    exists (sum_Z (take i counts)). split.
    + exact (Hstarts i ltac:(lia)).
    + etransitivity; [exact (Hstarts (S i) ltac:(lia))|]. f_equal.
      destruct (Forall2_lookup_r _ _ _ _ _ Hlens Hi) as (count & Hcount & Hc).
      rewrite (take_S_r _ _ _ Hcount). unfold sum_Z.
      rewrite foldr_app. simpl.
      clear -Hc. generalize (take i counts). intros l.
      induction l as [|x l IH]; simpl; lia.
Qed.

End FmmlibInteractionListContent.

(** ** Translation of box locals to QBX locals by the fmmlib wrangler *)

Section FmmlibLocalFacts.

Import FMMLibLocal.
Context `{Values} `{!Substrate} `{!Collaborators}.

Lemma translate_centers_inv (self : QBXFMMLibExpansionWrangler)
    (local_exps : LocalExpansions) (qc2tb tboxes : list Z) (centers_ : list Center)
    (isrc_level : nat) (local_order lo hi : Z) (cs : list nat) :
  forall qbx qbx' : list Expansion,
    NoDup cs ->
    translate_centers self local_exps qc2tb tboxes centers_ isrc_level
      local_order lo hi cs qbx = inr qbx' ->
    List.length qbx' = List.length qbx
    /\ (forall c, c ∉ cs -> qbx' !! c = qbx !! c)
    /\ (forall c, c ∈ cs ->
          exists box center src,
            np_getitem qc2tb (Z.of_nat c) = inr box
            /\ np_getitem centers_ (Z.of_nat c) = inr center
            /\ np_getitem tboxes box = inr src
            /\ if (lo <=? src) && (src <? hi)
               then exists x old,
                      locloc self local_exps isrc_level local_order center src
                      = inr x
                      /\ qbx !! c = Some old
                      /\ qbx' !! c = Some (add_expansion old x)
               else qbx' !! c = qbx !! c).
Proof.
  induction cs as [|c0 cs IH]; intros qbx qbx' Hnd; simpl.
  - intros [= <-]. split; [done|]. split; [done|]. intros c Hc.
    by apply elem_of_nil in Hc.
  - apply NoDup_cons in Hnd as [Hc0 Hnd]. unfold rbind at 1.
    destruct (np_getitem qc2tb (Z.of_nat c0)) as [e|box] eqn:Hbox; [discriminate|].
    unfold rbind at 1.
    destruct (np_getitem centers_ (Z.of_nat c0)) as [e|center] eqn:Hcenter;
      [discriminate|].
    unfold rbind at 1.
    destruct (np_getitem tboxes box) as [e|src] eqn:Hsrc; [discriminate|].
    unfold rbind at 1.
    destruct ((lo <=? src) && (src <? hi)) eqn:Hin.
    + unfold rbind at 1.
      destruct (locloc self local_exps isrc_level local_order center src)
        as [e|x] eqn:Hx; [discriminate|].
      unfold rbind at 1, index.
      destruct (qbx !! c0) as [old|] eqn:Hold; [|discriminate].
      intros Hrest. apply IH in Hrest as (Hlen & Hout & Hin'); [|done].
      rewrite length_insert in Hlen.
      split; [done|]. split.
      * intros c Hc. apply not_elem_of_cons in Hc as [Hne Hc].
        rewrite Hout by done. by rewrite list_lookup_insert_ne.
      * intros c Hc. apply elem_of_cons in Hc as [->|Hc].
        -- exists box, center, src. rewrite Hin.
           repeat (split; [done|]). exists x, old.
           repeat (split; [done|]). rewrite Hout by done.
           apply list_lookup_insert_eq. by eapply lookup_lt_Some.
        -- destruct (Hin' c Hc) as (box' & center' & src' & ? & ? & ? & Hcase).
           exists box', center', src'. repeat (split; [done|]).
           assert (Hne : c0 <> c) by (intros ->; done).
           rewrite list_lookup_insert_ne in Hcase by done. exact Hcase.
    + intros Hrest. apply IH in Hrest as (Hlen & Hout & Hin'); [|done].
      split; [done|]. split.
      * intros c Hc. apply not_elem_of_cons in Hc as [Hne Hc]. by apply Hout.
      * intros c Hc. apply elem_of_cons in Hc as [->|Hc]; [|by apply Hin'].
        exists box, center, src. rewrite Hin. repeat (split; [done|]).
        by apply Hout.
Qed.

Lemma translate_levels_inv (self : QBXFMMLibExpansionWrangler)
    (local_exps : LocalExpansions) (qc2tb tboxes : list Z) (centers_ : list Center)
    (levels : list nat) :
  forall qbx qbx' : list Expansion,
    List.length qbx = ncenters (w_geo_data self) ->
    translate_levels self local_exps qc2tb tboxes centers_ levels qbx = inr qbx' ->
    List.length qbx' = ncenters (w_geo_data self)
    /\ (levels = [] -> qbx' = qbx)
    /\ (levels <> [] ->
        forall c, (c < ncenters (w_geo_data self))%nat ->
          exists box center src old translated,
            np_getitem qc2tb (Z.of_nat c) = inr box
            /\ np_getitem centers_ (Z.of_nat c) = inr center
            /\ np_getitem tboxes box = inr src
            /\ qbx !! c = Some old
            /\ translated_from self local_exps center src levels translated
            /\ qbx' !! c = Some (foldl add_expansion old translated)).
Proof.
  induction levels as [|l levels IH]; intros qbx qbx' Hlen; simpl.
  - intros [= <-]. split; [done|]. split; [done|]. done.
  - unfold rbind at 1, index.
    destruct (w_level_orders self !! l) as [order|] eqn:Horder; [|discriminate].
    unfold rbind at 1.
    destruct (level_bounds self l) as [e|[lo hi]] eqn:Hbounds; [discriminate|].
    unfold rbind at 1.
    destruct (local_expansions_view self local_exps l) as [e|start];
      [discriminate|].
    destruct (negb (start =? (lo, hi).1)); [discriminate|].
    unfold rbind at 1. cbn [fst snd].
    destruct (translate_centers self local_exps qc2tb tboxes centers_ l order
                lo hi (seq 0 (ncenters (w_geo_data self))) qbx)
      as [e|qbx1] eqn:Hcenters; [discriminate|].
    intros Hrest.
    apply translate_centers_inv in Hcenters as (Hlen1 & _ & Hin);
      [|apply NoDup_seq].
    destruct (IH qbx1 qbx' ltac:(congruence) Hrest) as (Hlen' & Hnil & Hcons).
    split; [done|]. split; [discriminate|]. intros _ c Hc.
    destruct (Hin c ltac:(apply elem_of_seq; lia))
      as (box & center & src & Hbox & Hcenter & Hsrc & Hcase).
    assert (Hon : on_level self src l = (lo <=? src) && (src <? hi)).
    { unfold on_level. by rewrite Hbounds. }
    assert (Hstep : exists old mid first,
              qbx !! c = Some old /\ qbx1 !! c = Some mid
              /\ mid = foldl add_expansion old first
              /\ translated_from self local_exps center src [l] first).
    { destruct (qbx !! c) as [old|] eqn:Hold;
        [|apply lookup_ge_None_1 in Hold; lia].
      unfold translated_from. rewrite filter_cons, filter_nil, Hon.
      destruct ((lo <=? src) && (src <? hi)).
      - destruct Hcase as (x & old' & Hx & [= <-] & Hmid).
        exists old, (add_expansion old x), [x].
        repeat (split; [done|]). rewrite decide_True by done.
        constructor; [|constructor]. eauto.
      - exists old, old, []. rewrite Hcase.
        repeat (split; [done|]). rewrite decide_False by done. constructor. }
    destruct Hstep as (old & mid & first & Hold & Hmid & -> & Hfirst).
    destruct (decide (levels = [])) as [->|Hne].
    + rewrite (Hnil eq_refl). exists box, center, src, old, first.
      repeat (split; [done|]). done.
    + destruct (Hcons Hne c Hc)
        as (box' & center' & src' & old' & rest & Hbox' & Hcenter' & Hsrc'
            & Hold' & Hrest' & Hfinal).
      rewrite Hbox in Hbox'. injection Hbox' as <-.
      rewrite Hcenter in Hcenter'. injection Hcenter' as <-.
      rewrite Hsrc in Hsrc'. injection Hsrc' as <-.
      rewrite Hmid in Hold'. injection Hold' as <-.
      exists box, center, src, old, (first ++ rest).
      repeat (split; [done|]). split.
      * unfold translated_from in *.
        change (l :: levels) with ([l] ++ levels). rewrite filter_app.
        by apply Forall2_app.
      * by rewrite foldl_app.
Qed.

(** X27: [translate_box_local_to_qbx_local] returns one expansion per
    center.  With at least one level, the expansion of each center is
    what results from adding to zero, level after level, the translations
    of the local expansion of the center's target box, made on exactly
    the levels that the box lies on (by [level_start_box_nrs]) and with
    the order of the level; without levels or without centers the zero
    expansions are returned. *)
Theorem translate_box_local_to_qbx_local_by_level :
  forall (self : QBXFMMLibExpansionWrangler) (local_exps : LocalExpansions)
         (qbx_expansions : list Expansion),
    translate_box_local_to_qbx_local self local_exps = inr qbx_expansions ->
    let geo_data := w_geo_data self in
    List.length qbx_expansions = ncenters geo_data
    /\ (tree_nlevels geo_data = 0%nat ->
        qbx_expansions = repeat zero_expansion (ncenters geo_data))
    /\ ((0 < tree_nlevels geo_data)%nat ->
        forall c, (c < ncenters geo_data)%nat ->
          exists tboxes qc2tb centers_ box center src translated,
            target_boxes geo_data = inr tboxes
            /\ qbx_center_to_target_box geo_data = inr qc2tb
            /\ qbx_centers geo_data = inr centers_
            /\ np_getitem qc2tb (Z.of_nat c) = inr box
            /\ np_getitem centers_ (Z.of_nat c) = inr center
            /\ np_getitem tboxes box = inr src
            /\ translated_from self local_exps center src
                 (seq 0 (tree_nlevels geo_data)) translated
            /\ qbx_expansions !! c
               = Some (foldl add_expansion zero_expansion translated)).
Proof.
  intros self local_exps qbx Hrun geo_data. subst geo_data.
  unfold translate_box_local_to_qbx_local, qbx_local_expansion_zeros in Hrun.
  destruct (ncenters (w_geo_data self) =? 0)%nat eqn:Hnc.
  { injection Hrun as <-. apply Nat.eqb_eq in Hnc. rewrite Hnc. simpl.
    split; [done|]. split; [done|]. intros _ c Hc. lia. }
  unfold rbind in Hrun.
  destruct (target_boxes (w_geo_data self)) as [e|tboxes] eqn:Ht; [discriminate|].
  destruct (qbx_center_to_target_box (w_geo_data self)) as [e|qc2tb] eqn:Hq;
    [discriminate|].
  destruct (qbx_centers (w_geo_data self)) as [e|centers_] eqn:Hc; [discriminate|].
  destruct (get_translation_routine self) as [e|[]]; [discriminate|].
  apply translate_levels_inv in Hrun as (Hlen & Hnil & Hcons);
    [|apply repeat_length].
  split; [done|]. split.
  - intros Hlevels. rewrite Hlevels in Hnil. by apply Hnil.
  - intros Hlevels c Hlt.
    destruct (Hcons ltac:(destruct (tree_nlevels (w_geo_data self)); [lia|done])
                c Hlt)
      as (box & center & src & old & translated & Hbox & Hcenter & Hsrc & Hold
          & Htr & Hfinal).
    rewrite lookup_repeat in Hold by done. injection Hold as <-.
    exists tboxes, qc2tb, centers_, box, center, src, translated. done.
Qed.

End FmmlibLocalFacts.

(** ** The further properties at the example inputs *)

Lemma qbx_target_numberer_numbers_associated_targets_witness :
  slice_to (snd (qbx_target_numberer [0; -1; 1; -2; 5] (repeat 0 5) 0))
    (fst (qbx_target_numberer [0; -1; 1; -2; 5] (repeat 0 5) 0))
  = [0; 2; 4].
Proof.
  exact (proj1 (qbx_target_numberer_numbers_associated_targets
                  [0; -1; 1; -2; 5] (repeat 0 5) 0 eq_refl)).
Defined.

Lemma direct_off_source_without_centers_witness :
  exists w',
    @direct_output example_values unassociated_substrate example_source far_insn
      example_bound_expr ∅ [1; 1; 1; 1] (example_output "u" "far" None)
      initial_world
    = (inr ("u", [1; 2]), w')
    /\ (EvLpotApplierOnTgtSubset ∈ trace w'
        -> EvLpotApplierOnTgtSubset ∈ trace initial_world).
Proof.
  apply (@direct_off_source_without_centers example_values unassociated_substrate
           example_source far_insn example_bound_expr ∅ [1; 1; 1; 1]
           (example_output "u" "far" None) initial_world [[1; 2]]
           [-1; -1; -1; -1] 2%nat [1; 2]).
  - exact cache_consistent_initial.
  - intros E. discriminate E.
  - reflexivity.
  - reflexivity.
  - intros g _. split; reflexivity.
  - intros n. apply repeat_length.
  - intros E. discriminate E.
  - reflexivity.
  - intros s E. discriminate E.
Defined.

Lemma direct_off_source_corrects_associated_targets_witness :
  exists w',
    @direct_output example_values example_substrate example_source probe_insn
      example_bound_expr ∅ [1; 1; 1; 1] (example_output "u" "probe" None)
      initial_world
    = (inr ("u", [1; 2; 3]), w')
    /\ trace w'
       = trace (snd (qbx_fmm_geometry_data example_source [(probe_points, 0)]
                       {| geometry_cache := geometry_cache initial_world;
                          next_geo_id := next_geo_id initial_world;
                          trace := trace initial_world ++ [EvP2P] |}))
         ++ [EvLpotApplierOnTgtSubset].
Proof.
  apply (@direct_off_source_corrects_associated_targets example_values
           example_substrate example_source probe_insn example_bound_expr ∅
           [1; 1; 1; 1] (example_output "u" "probe" None) initial_world
           [[1; 2; 3]] [[1; 2; 3]] [-1; -1; 0; -1; 1] 2%nat [1; 2; 3]).
  - exact cache_consistent_initial.
  - intros E. discriminate E.
  - reflexivity.
  - intros g Hkey. simpl. rewrite Hkey. split; reflexivity.
  - intros n. apply repeat_length.
  - reflexivity.
  - intros s E. discriminate E.
  - intros g _. reflexivity.
  - reflexivity.
Defined.

Lemma direct_self_evaluation_witness :
  @direct_output example_values example_substrate example_source
    forced_probe_insn example_bound_expr ∅ [1; 1; 1; 1]
    (example_output "u" "circle" (Some 1)) initial_world
  = (inr ("u", [7; 7; 7; 7]),
     {| geometry_cache := geometry_cache initial_world;
        next_geo_id := next_geo_id initial_world;
        trace := trace initial_world ++ [EvLpotApplier] |}).
Proof.
  apply (proj2 (proj2 (@direct_self_evaluation example_values example_substrate
                         example_source forced_probe_insn example_bound_expr ∅
                         [1; 1; 1; 1] (example_output "u" "circle" (Some 1))
                         initial_world eq_refl))
           1 [[7; 7; 7; 7]] [7; 7; 7; 7]);
    reflexivity.
Defined.

Lemma direct_path_events_witness :
  exists evs,
    trace (snd (@exec_compute_potential_insn_direct example_values
                  example_substrate example_source probe_insn example_bound_expr
                  false initial_world))
    = trace initial_world ++ evs
    /\ Forall direct_event evs
    /\ (EvFmmDriver ∉ evs)
    /\ (forall b, EvInspector b ∉ evs).
Proof.
  exact (@direct_path_events example_values example_substrate example_source
           probe_insn example_bound_expr false initial_world _ _
           (surjective_pairing _)).
Defined.

Lemma fmm_path_runs_driver_once_witness :
  exists geo_data w1 evs,
    @qbx_fmm_geometry_data example_source
      (snd (get_target_discrs_and_qbx_sides probe_insn example_bound_expr))
      initial_world
    = (inr geo_data, w1)
    /\ trace (snd (@exec_compute_potential_insn_fmm example_values
                     example_substrate example_source probe_insn
                     example_bound_expr example_driver initial_world))
       = trace w1 ++ evs
    /\ (evs = [EvFmmDriver] \/ evs = [EvInspector true; EvFmmDriver]).
Proof.
  destruct (@fmm_path_runs_driver_once example_values example_substrate
              example_source probe_insn example_bound_expr example_driver
              initial_world
              (snd (@exec_compute_potential_insn_fmm example_values
                      example_substrate example_source probe_insn
                      example_bound_expr example_driver initial_world))
              (inr (@FmmPotentials example_values
                      [("u", [10; 20; 30]); ("v", [10; 20; 30]);
                       ("w", [10; 20; 30])] tt)))
    as (geo_data & w1 & evs & Hgeo & Htrace & _ & Hevs & _).
  - apply injective_projections; [vm_compute; reflexivity|reflexivity].
  - exists geo_data, w1, evs. split; [exact Hgeo|]. split; [exact Htrace|].
    exact Hevs.
Defined.

Lemma fmm_outputs_sharing_key_share_values_witness :
  fst ("u", [10; 20; 30]) = name (example_output "u" "probe" None)
  /\ fst ("w", [10; 20; 30]) = name (example_output "w" "probe" None)
  /\ snd ("u", [10; 20; 30]) = snd ("w", [10; 20; 30]).
Proof.
  apply (@fmm_outputs_sharing_key_share_values example_values example_substrate
           example_source probe_insn example_bound_expr example_driver
           initial_world
           (snd (@exec_compute_potential_insn_fmm example_values
                   example_substrate example_source probe_insn
                   example_bound_expr example_driver initial_world))
           [("u", [10; 20; 30]); ("v", [10; 20; 30]); ("w", [10; 20; 30])] tt
           0%nat 2%nat);
    reflexivity.
Defined.

Lemma fmmlib_backend_never_reaches_driver_witness :
  exists e,
    fst (@exec_compute_potential_insn_fmm example_values example_substrate
           fmmlib_source probe_insn example_bound_expr example_driver
           initial_world)
    = inl e.
Proof.
  destruct (@fmmlib_backend_never_reaches_driver example_values
              example_substrate fmmlib_source probe_insn example_bound_expr
              example_driver initial_world eq_refl) as (e & Hrun & _).
  exists e. rewrite Hrun. reflexivity.
Defined.

Lemma exec_compute_potential_insn_assigns_the_outputs_witness :
  @assigned_names example_values
    (@FmmPotentials example_values
       [("u", [10; 20; 30]); ("v", [10; 20; 30]); ("w", [10; 20; 30])] tt)
  = map name (outputs probe_insn).
Proof.
  apply (@exec_compute_potential_insn_assigns_the_outputs example_values
           example_substrate example_source probe_insn example_bound_expr false
           initial_world
           (snd (@exec_compute_potential_insn example_values example_substrate
                   example_source probe_insn example_bound_expr false
                   initial_world))).
  apply injective_projections; [vm_compute; reflexivity|reflexivity].
Defined.

Lemma constructed_source_dispatch_witness :
  @exec_compute_potential_insn example_values example_substrate example_source
    probe_insn example_bound_expr false
  = @exec_compute_potential_insn_fmm example_values example_substrate
      example_source probe_insn example_bound_expr
      (fun wrangler strengths _ _ _ =>
         @drive_fmm example_values example_substrate wrangler strengths false).
Proof.
  apply (proj2 (@constructed_source_dispatch example_values example_substrate
                  example_init_args example_source probe_insn example_bound_expr
                  false eq_refl)).
  intros [[E _]|E]; discriminate E.
Defined.

Lemma copy_fails_only_on_conflicts_witness :
  QBX.copy example_source conflicting_copy_args
  = inl (TypeError QBX.both_orders_msg).
Proof.
  exact (copy_fails_only_on_conflicts example_init_args example_source
           conflicting_copy_args eq_refl).
Defined.

Lemma target_slices_partition_the_potential_witness :
  comprehension
    (fun i =>
       @UnregularizedExecution.target_slice example_values [0; 3; 7] i
         [11; 12; 13; 21; 22; 23; 24])
    (seq 0 2)
  = inr [[11; 12; 13]; [21; 22; 23; 24]].
Proof.
  apply (proj1 (@target_slices_partition_the_potential example_values
                  example_collaborators example_unregularized_geo_data
                  {| UnregularizedExecution.target_discr_starts := [0; 3; 7];
                     UnregularizedExecution.ntargets := 7 |}
                  [11; 12; 13; 21; 22; 23; 24] eq_refl
                  ltac:(repeat constructor; discriminate) eq_refl)).
Defined.

Lemma unregularized_fmm_rejects_forced_limits_witness :
  @UnregularizedExecution.exec_compute_potential_insn_fmm example_values
    example_collaborators example_unregularized_source forced_unregularized_insn
    example_unregularized_places initial_world
  = (inl AssertionError, initial_world).
Proof.
  apply (proj1 (@unregularized_fmm_rejects_forced_limits example_values
                  example_collaborators example_unregularized_source
                  forced_unregularized_insn example_unregularized_places false
                  initial_world (unregularized_output "v" "circle" (Some 1))
                  ltac:(apply list_elem_of_further, list_elem_of_here)
                  (or_introl eq_refl))).
Defined.

Lemma unregularized_fmm_assigns_target_slices_witness :
  trace (snd (@UnregularizedExecution.exec_compute_potential_insn_fmm
                example_values example_collaborators
                example_unregularized_source unregularized_insn
                example_unregularized_places initial_world))
  = trace initial_world ++ [EvFmmDriver].
Proof.
  refine (proj1 (@unregularized_fmm_assigns_target_slices example_values
                   example_collaborators example_unregularized_source
                   unregularized_insn example_unregularized_places initial_world
                   _
                   unregularized_fmm_results
                   _)).
  apply injective_projections; [vm_compute; reflexivity|reflexivity].
Defined.

Lemma unregularized_direct_applies_p2p_per_output_witness :
  trace (snd (@UnregularizedExecution.exec_compute_potential_insn example_values
                example_collaborators direct_unregularized_source
                unregularized_insn example_unregularized_places false
                initial_world))
  = trace initial_world ++ [EvP2P; EvP2P; EvP2P].
Proof.
  refine (proj1 (@unregularized_direct_applies_p2p_per_output example_values
                   example_collaborators direct_unregularized_source
                   unregularized_insn example_unregularized_places false
                   initial_world _
                   unregularized_direct_results
                   eq_refl _)).
  apply injective_projections; [vm_compute; reflexivity|reflexivity].
Defined.

Lemma fmmlib_wrangler_constructed_only_for_uniform_kernels_witness :
  out_kernels (example_fmmlib_code example_fmmlib_kernels) <> []
  /\ (exists k_name kwargs,
        Some ({[ "k" := [2] ]} : gmap string (list Z)) = Some kwargs
        /\ kwargs !! k_name = Some (w_helmholtz_k example_fmmlib_wrangler)
        /\ ((w_dipole_vec example_fmmlib_wrangler = None
             /\ Forall2
                  (fun k out =>
                     (k = HelmholtzKernel 3 k_name /\ out = [])
                     \/ (exists axis,
                           k = AxisTargetDerivative axis
                                 (HelmholtzKernel 3 k_name)
                           /\ out = [axis]))
                  example_fmmlib_kernels [[]; [0]])
            \/ (exists dir dipole_vec,
                  (∅ : gmap string (list Z)) !! dir = Some dipole_vec
                  /\ w_dipole_vec example_fmmlib_wrangler = Some dipole_vec
                  /\ Forall2
                       (fun k out =>
                          k = DirectionalSourceDerivative
                                (HelmholtzKernel 3 k_name) dir
                          /\ out = [])
                       example_fmmlib_kernels [[]; [0]]))).
Proof.
  pose proof (@fmmlib_wrangler_constructed_only_for_uniform_kernels
                example_values example_substrate
                (example_fmmlib_code example_fmmlib_kernels) example_geo_data
                float64 2 (fun _ => inr 5) ∅ (Some {[ "k" := [2] ]})
                example_fmmlib_wrangler) as Hspec.
  destruct Hspec as (Hne & Hkernels & _).
  - vm_compute. reflexivity.
  - split; [exact Hne|exact Hkernels].
Defined.

Lemma unregularized_tree_weighs_sources_only_witness :
  @UnregularizedExecution.tree example_values example_collaborators
    example_unregularized_geo_data
  = rbind
      (@UnregularizedExecution.target_info example_values example_collaborators
         example_unregularized_geo_data)
      (fun _ =>
         @UnregularizedExecution.build_tree example_values example_collaborators
           example_unregularized_geo_data (repeat 1 4 ++ repeat 0 7) 32).
Proof.
  apply (@unregularized_tree_weighs_sources_only example_values
           example_collaborators example_unregularized_geo_data).
  - discriminate.
  - repeat constructor; discriminate.
Defined.

Lemma cost_model_run_returns_placeholders_witness :
  map fst cost_model_results = map name (outputs probe_insn).
Proof.
  refine (proj1 (proj2 (@cost_model_run_returns_placeholders example_values
                          example_substrate example_cost_collaborators
                          example_source probe_insn example_bound_expr
                          initial_world _
                          (inr (@FmmPotentials example_values
                                  cost_model_results tt))
                          _))).
  apply injective_projections; [vm_compute; reflexivity|reflexivity].
Defined.

Lemma eval_qbx_expansions_adds_only_at_center_targets_witness :
  List.length [[5; 0; 5]; [1; 0; 1]]
  = List.length (@w_outputs example_values example_fmmlib_wrangler).
Proof.
  exact (proj1 (@eval_qbx_expansions_adds_only_at_center_targets example_values
                  example_evaluation example_fmmlib_wrangler tt
                  [[5; 0; 5]; [1; 0; 1]] eq_refl)).
Defined.

Lemma add_potgrad_onto_output_on_constructed_wrangler_witness :
  @unchanged_off example_values 1 [[0; 0; 0]; [0; 0; 0]] [[0; 5; 0]; [0; 1; 0]].
Proof.
  apply (@add_potgrad_onto_output_on_constructed_wrangler example_values
           example_substrate example_evaluation
           (example_fmmlib_code example_fmmlib_kernels) example_geo_data float64 2
           (fun _ => inr 5) ∅ (Some {[ "k" := [2] ]}) example_fmmlib_wrangler
           [[0; 0; 0]; [0; 0; 0]] 1 5
           (@FMMLibNumerics.GradArray example_values [1; 2; 3])).
  vm_compute. reflexivity.
Defined.

Lemma info_for_form_global_qbx_locals_assertion_holds_witness :
  IndexError = IndexError
  \/ IndexError = ValueError "negative dimensions are not allowed"
  \/ IndexError = ValueError "could not broadcast input array"
  \/ @FMMLibP2QBXL.neighbor_source_boxes example_values example_lists
       stale_geo_data = inl IndexError
  \/ @FMMLibP2QBXL.qbx_center_to_target_box example_values example_lists
       stale_geo_data = inl IndexError
  \/ @FMMLibP2QBXL.qbx_centers example_values example_lists stale_geo_data
     = inl IndexError
  \/ @FMMLibP2QBXL.global_qbx_centers example_values example_lists
       stale_geo_data = inl IndexError
  \/ (exists b,
        @FMMLibP2QBXL.get_source_slice example_values example_lists
          stale_fmmlib_wrangler b = inl IndexError)
  \/ (exists c l,
        @FMMLibP2QBXL.take_centers example_values example_lists c l
        = inl IndexError).
Proof.
  exact (@info_for_form_global_qbx_locals_assertion_holds example_values
           example_lists stale_fmmlib_wrangler IndexError eq_refl).
Defined.

Lemma info_for_form_global_qbx_locals_starts_witness :
  exists counts,
    List.length counts = 2%nat
    /\ [0; 2; 5] !! 2%nat = Some (sum_Z (take 2 counts))
    /\ 0 <= sum_Z counts.
Proof.
  destruct (@info_for_form_global_qbx_locals_starts example_values example_lists
              example_fmmlib_wrangler example_info eq_refl)
    as (starts & lists & qc2tb & gqc & counts & _ & _ & Hgqc & _ & Hlen & _ & _
        & Hstarts & Hnn & _).
  injection Hgqc as <-.
  exists counts. split; [exact Hlen|]. split; [|exact Hnn].
  apply (Hstarts 2%nat). apply le_n.
Defined.

Lemma info_for_form_global_qbx_locals_offsets_witness :
  exists per_center,
    Forall2
      (fun c sources =>
         @sources_of_center example_values example_lists example_fmmlib_wrangler
           [0; 1; 1] [0; 1; 3] [0; 1; 0] c
         = inr sources)
      [0; 2] per_center
    /\ [0; 1; 2; 0; 1] = concat per_center.
Proof.
  destruct (@info_for_form_global_qbx_locals_offsets example_values example_lists
              example_fmmlib_wrangler example_info eq_refl)
    as (starts & lists & qc2tb & gqc & per_center & Hn & Hq & Hgqc & Hper
        & Hoffsets & _).
  - intros b ns. unfold np_getitem, np_position. simpl.
    change (Z.of_nat 2) with 2. change (- (2)) with (-2).
    destruct ((0 <=? b) && (b <? 2)) eqn:E1.
    + apply andb_true_iff in E1 as [E0 E2].
      apply Z.leb_le in E0. apply Z.ltb_lt in E2.
      assert (Hb : b = 0 \/ b = 1) by lia.
      destruct Hb as [-> | ->]; intros [= <-]; (split; [lia|]);
        [exists 0|exists 2]; reflexivity.
    + destruct ((-2 <=? b) && (b <? 0)) eqn:E2; [|discriminate].
      apply andb_true_iff in E2 as [E0 E3].
      apply Z.leb_le in E0. apply Z.ltb_lt in E3.
      assert (Hb : b = -2 \/ b = -1) by lia.
      destruct Hb as [-> | ->]; intros [= <-]; (split; [lia|]);
        [exists 0|exists 2]; reflexivity.
  - intros n. apply repeat_length.
  - injection Hn as <- <-. injection Hq as <-. injection Hgqc as <-.
    exists per_center. split; [exact Hper|exact Hoffsets].
Defined.

Lemma translate_box_local_to_qbx_local_by_level_witness :
  List.length [10; 11]
  = @ncenters example_values example_substrate
      (@w_geo_data example_values example_fmmlib_wrangler).
Proof.
  exact (proj1 (@translate_box_local_to_qbx_local_by_level example_values
                  example_substrate example_translation example_fmmlib_wrangler
                  tt [10; 11] eq_refl)).
Defined.
